(** * terabot: a verification development for the download pipeline

    The Python sources are embedded as Rocq functions, module by module:
    - [FileUtils]   utils/file_utils.py   (filename sanitizer)
    - [LinkRouter]  services/link_router.py (URL extraction)
    - [Progress]    utils/progress.py     (throttled progress tracker)
    - [Pipeline]    utils/downloader.py, utils/zipper.py,
                    services/direct_link_service.py, main.py

    A Python [str] is a list of characters ([list ascii]; [string] where the
    value is a dictionary key or a literal), a Python [int] is a [Z], a
    Python [float] that enters integer arithmetic is a binary64 primitive
    float, and a reading of the monotonic clock is a rational number of
    seconds. *)

From Stdlib Require Import ZArith QArith Lqa Floats Ascii String List Bool Lia Sorted.
From Stdlib Require DecimalN.
From stdpp Require Import gmap strings list fin_maps.
Import ListNotations.
Local Open Scope Z_scope.

(** ** utils/file_utils.py *)
Module FileUtils.

Abbreviation str := (list ascii).

Definition chr_eqb (a b : ascii) : bool := Ascii.eqb a b.

(** [name.replace(c, "_")] for a one-character pattern. *)
Definition replace_char (c : ascii) (by_ : ascii) (s : str) : str :=
  map (fun x => if chr_eqb x c then by_ else x) s.

(** [name.replace(c, "")] for a one-character pattern. *)
Definition remove_char (c : ascii) (s : str) : str :=
  List.filter (fun x => negb (chr_eqb x c)) s.

(** [name.lstrip(chars)]. *)
Fixpoint lstrip (chars : str) (s : str) : str :=
  match s with
  | [] => []
  | c :: r => if existsb (chr_eqb c) chars then lstrip chars r else s
  end.

(** The character class of the [re.sub] call: the seven characters
    less-than, greater-than, colon, double quote (code 34), bar, question
    mark and star. *)
Definition reserved : str :=
  ["<"; ">"; ":"; "034"; "|"; "?"; "*"]%char.

Definition is_reserved (c : ascii) : bool := existsb (chr_eqb c) reserved.

Definition sub_reserved (s : str) : str :=
  map (fun x => if is_reserved x then "_"%char else x) s.

(** [name.rfind('.')]: [None] stands for Python's -1. *)
Fixpoint rfind_dot (s : str) : option nat :=
  match s with
  | [] => None
  | c :: r =>
      match rfind_dot r with
      | Some i => Some (S i)
      | None => if chr_eqb c "."%char then Some 0%nat else None
      end
  end.

(** [PurePath.suffix] and [PurePath.stem] of a final path component, as
    pathlib defines them up to Python 3.13 ([0 < i < len(name) - 1]
    decides whether the last dot starts a suffix).  [sanitize_filename] calls them on a name that holds no
    separator and does not start with a dot, so [Path(name).name] is the
    name itself. *)
Definition path_suffix (name : str) : str :=
  match rfind_dot name with
  | Some i =>
      if (0 <? i)%nat && (i <? length name - 1)%nat then skipn i name else []
  | None => []
  end.

Definition path_stem (name : str) : str :=
  match rfind_dot name with
  | Some i =>
      if (0 <? i)%nat && (i <? length name - 1)%nat then firstn i name else name
  | None => name
  end.

Definition unnamed_file : str := list_ascii_of_string "unnamed_file".

(** The three statements before the length test. *)
Definition clean (name : str) : str :=
  let name := remove_char "000"%char
                (replace_char "\"%char "_"%char
                   (replace_char "/"%char "_"%char name)) in
  let name := lstrip ["."; " "]%char name in
  sub_reserved name.

Definition truncate (name : str) : str :=
  if (200 <? length name)%nat
  then firstn 180 (path_stem name) ++ path_suffix name
  else name.

Definition sanitize_filename (name : str) : str :=
  let name := truncate (clean name) in
  match name with
  | [] => unnamed_file
  | _ => name
  end.

(** *** Facts about [rfind_dot], [path_stem] and [path_suffix] *)

Lemma rfind_dot_app_dot (p rest : str) :
  rfind_dot rest = None -> rfind_dot (p ++ "."%char :: rest) = Some (length p).
Proof.
  intros Hr. induction p as [|c p IH]; simpl.
  - rewrite Hr. reflexivity.
  - rewrite IH. reflexivity.
Qed.

Lemma rfind_dot_split (s : str) (i : nat) :
  rfind_dot s = Some i ->
  exists rest, s = firstn i s ++ "."%char :: rest /\ rfind_dot rest = None
               /\ length (firstn i s) = i.
Proof.
  revert i. induction s as [|c s IH]; simpl; intros i H; [discriminate|].
  destruct (rfind_dot s) as [j|] eqn:E.
  - injection H as <-. destruct (IH j eq_refl) as (rest & Hs & Hr & Hl).
    exists rest. simpl. rewrite Hl. split; [f_equal; exact Hs|]. split; auto.
  - destruct (chr_eqb c ".") eqn:Ec; [|discriminate].
    injection H as <-. apply Ascii.eqb_eq in Ec. subst c.
    exists s. simpl. auto.
Qed.

(** *** Safety of the output alphabet *)

(** The characters the sanitizer must never emit. *)
Definition forbidden (c : ascii) : bool :=
  chr_eqb c "/"%char || chr_eqb c "\"%char || chr_eqb c "000"%char
  || is_reserved c.

Definition safe (s : str) : Prop := Forall (fun c => forbidden c = false) s.

(** Does not start with a dot or a space. *)
Definition no_lead (s : str) : Prop :=
  match s with
  | [] => True
  | c :: _ => existsb (chr_eqb c) ["."; " "]%char = false
  end.

Lemma lstrip_suffix (chars s : str) : exists p, s = p ++ lstrip chars s.
Proof.
  induction s as [|c s [p Hp]]; simpl.
  - exists []. reflexivity.
  - destruct (existsb (chr_eqb c) chars).
    + exists (c :: p). simpl. f_equal. exact Hp.
    + exists []. reflexivity.
Qed.

Lemma lstrip_no_lead (s : str) : no_lead (lstrip ["."; " "]%char s).
Proof.
  induction s as [|c s IH]; simpl; [exact I|].
  destruct (chr_eqb c "." || (chr_eqb c " " || false)) eqn:E; [exact IH|].
  simpl. exact E.
Qed.

Lemma lstrip_id (s : str) : no_lead s -> lstrip ["."; " "]%char s = s.
Proof.
  destruct s as [|c s]; simpl; [reflexivity|].
  intros H. simpl in H. rewrite H. reflexivity.
Qed.

Lemma stage1_safe (s : str) :
  Forall (fun c => chr_eqb c "/"%char = false /\ chr_eqb c "\"%char = false
                   /\ chr_eqb c "000"%char = false)
    (remove_char "000"%char
       (replace_char "\"%char "_"%char (replace_char "/"%char "_"%char s))).
Proof.
  unfold remove_char, replace_char. rewrite map_map.
  induction s as [|c s IH]; simpl; [constructor|].
  destruct (chr_eqb c "/") eqn:E1; simpl.
  - constructor; [repeat split; reflexivity | exact IH].
  - destruct (chr_eqb c "\") eqn:E2; simpl.
    + constructor; [repeat split; reflexivity | exact IH].
    + destruct (chr_eqb c "000") eqn:E3; simpl; [exact IH|].
      constructor; [auto | exact IH].
Qed.

Lemma sub_reserved_safe (s : str) :
  Forall (fun c => chr_eqb c "/"%char = false /\ chr_eqb c "\"%char = false
                   /\ chr_eqb c "000"%char = false) s ->
  safe (sub_reserved s).
Proof.
  unfold safe, sub_reserved. induction 1 as [|c s (H1 & H2 & H3) _ IH]; simpl.
  - constructor.
  - constructor; [|exact IH].
    destruct (is_reserved c) eqn:E; [reflexivity|].
    unfold forbidden. rewrite H1, H2, H3, E. reflexivity.
Qed.

Lemma clean_safe (s : str) : safe (clean s).
Proof.
  unfold clean. apply sub_reserved_safe.
  pose proof (stage1_safe s) as H.
  destruct (lstrip_suffix ["."; " "]%char
              (remove_char "000"%char
                 (replace_char "\"%char "_"%char
                    (replace_char "/"%char "_"%char s)))) as [p Hp].
  rewrite Hp in H. apply Forall_app in H. exact (proj2 H).
Qed.

Lemma clean_no_lead (s : str) : no_lead (clean s).
Proof.
  unfold clean.
  pose proof (lstrip_no_lead
                (remove_char "000"%char
                   (replace_char "\"%char "_"%char
                      (replace_char "/"%char "_"%char s)))) as H.
  destruct (lstrip _ _) as [|c r]; simpl in *; [exact I|].
  destruct (is_reserved c) eqn:E; [reflexivity|exact H].
Qed.

Lemma clean_id (s : str) : safe s -> no_lead s -> clean s = s.
Proof.
  intros Hs Hl. unfold clean.
  assert (H1 : replace_char "/"%char "_"%char s = s).
  { clear Hl. unfold replace_char.
    induction Hs as [|c s Hc _ IH]; simpl; [reflexivity|].
    unfold forbidden in Hc. apply orb_false_elim in Hc as [Hc _].
    apply orb_false_elim in Hc as [Hc _]. apply orb_false_elim in Hc as [Hc _].
    rewrite Hc. f_equal. exact IH. }
  rewrite H1.
  assert (H2 : replace_char "\"%char "_"%char s = s).
  { clear H1 Hl. unfold replace_char.
    induction Hs as [|c s Hc _ IH]; simpl; [reflexivity|].
    unfold forbidden in Hc. apply orb_false_elim in Hc as [Hc _].
    apply orb_false_elim in Hc as [Hc _]. apply orb_false_elim in Hc as [_ Hc].
    rewrite Hc. f_equal. exact IH. }
  rewrite H2.
  assert (H3 : remove_char "000"%char s = s).
  { clear H1 H2 Hl. unfold remove_char.
    induction Hs as [|c s Hc _ IH]; simpl; [reflexivity|].
    unfold forbidden in Hc. apply orb_false_elim in Hc as [Hc _].
    apply orb_false_elim in Hc as [_ Hc].
    rewrite Hc. simpl. f_equal. exact IH. }
  rewrite H3, (lstrip_id s Hl).
  clear H1 H2 H3 Hl. unfold sub_reserved.
  induction Hs as [|c s Hc _ IH]; simpl; [reflexivity|].
  unfold forbidden in Hc. apply orb_false_elim in Hc as [_ Hc].
  rewrite Hc. f_equal. exact IH.
Qed.

(** *** The truncation step *)

Lemma safe_firstn (n : nat) (s : str) : safe s -> safe (firstn n s).
Proof.
  intros H. unfold safe in *. rewrite <- (firstn_skipn n s) in H.
  apply Forall_app in H. exact (proj1 H).
Qed.

Lemma safe_skipn (n : nat) (s : str) : safe s -> safe (skipn n s).
Proof.
  intros H. unfold safe in *. rewrite <- (firstn_skipn n s) in H.
  apply Forall_app in H. exact (proj2 H).
Qed.

Lemma path_stem_safe (s : str) : safe s -> safe (path_stem s).
Proof.
  intros H. unfold path_stem. destruct (rfind_dot s); [|exact H].
  destruct (_ && _); [apply safe_firstn|]; exact H.
Qed.

Lemma path_suffix_safe (s : str) : safe s -> safe (path_suffix s).
Proof.
  intros H. unfold path_suffix. destruct (rfind_dot s); [|constructor].
  destruct (_ && _); [apply safe_skipn; exact H|constructor].
Qed.

Lemma truncate_safe (s : str) : safe s -> safe (truncate s).
Proof.
  intros H. unfold truncate. destruct (200 <? length s)%nat; [|exact H].
  apply Forall_app. split.
  - apply safe_firstn, path_stem_safe, H.
  - apply path_suffix_safe, H.
Qed.

(** The stem keeps the first character of a non-empty name. *)
Lemma path_stem_head (c : ascii) (s : str) :
  exists r, path_stem (c :: s) = c :: r.
Proof.
  unfold path_stem. destruct (rfind_dot (c :: s)) as [i|]; [|eauto].
  destruct i as [|i]; [simpl; eauto|].
  destruct (_ && _); simpl; eauto.
Qed.

Lemma truncate_no_lead (s : str) : no_lead s -> no_lead (truncate s).
Proof.
  intros H. unfold truncate. destruct (200 <? length s)%nat; [|exact H].
  destruct s as [|c s]; [exact I|].
  destruct (path_stem_head c s) as [r ->]. simpl. exact H.
Qed.

Lemma truncate_idem (s : str) : truncate (truncate s) = truncate s.
Proof.
  unfold truncate at 2. destruct (200 <? length s)%nat eqn:Hlen.
  2:{ unfold truncate. rewrite Hlen. reflexivity. }
  set (r := firstn 180 (path_stem s) ++ path_suffix s).
  unfold truncate. rewrite Hlen. fold r.
  destruct (200 <? length r)%nat eqn:Hr; [|reflexivity].
  apply Nat.ltb_lt in Hr.
  assert (Hr' : (length r <= 180 + length (path_suffix s))%nat).
  { unfold r. rewrite length_app, length_firstn. lia. }
  unfold path_stem, path_suffix in r, Hr'.
  destruct (rfind_dot s) as [i|] eqn:Hi; [|simpl in Hr'; lia].
  destruct ((0 <? i)%nat && (i <? length s - 1)%nat) eqn:Hc;
    [|simpl in Hr'; lia].
  apply andb_true_iff in Hc as [Hc1 Hc2].
  apply Nat.ltb_lt in Hc1. apply Nat.ltb_lt in Hc2.
  destruct (rfind_dot_split s i Hi) as (rest & Hs & Hrest & Hl).
  assert (Hsk : skipn i s = "."%char :: rest).
  { rewrite Hs at 1. rewrite skipn_app, Hl, Nat.sub_diag, skipn_all2 by lia.
    reflexivity. }
  assert (Hrl : (1 <= length rest)%nat).
  { apply (f_equal (@length ascii)) in Hs.
    rewrite length_app, Hl in Hs. simpl in Hs. lia. }
  set (p := firstn 180 (firstn i s)) in *.
  assert (Hp : (0 < length p)%nat).
  { unfold p. rewrite length_firstn, Hl. lia. }
  assert (Hrd : rfind_dot r = Some (length p)).
  { unfold r. rewrite Hsk. apply rfind_dot_app_dot, Hrest. }
  unfold path_stem, path_suffix. rewrite Hrd.
  assert (Hb : ((0 <? length p)%nat && (length p <? length r - 1)%nat) = true).
  { apply andb_true_iff. split; apply Nat.ltb_lt; [exact Hp|].
    unfold r. rewrite length_app, Hsk. simpl. lia. }
  rewrite Hb. unfold r.
  rewrite firstn_app, Nat.sub_diag, firstn_all. simpl. rewrite app_nil_r.
  rewrite skipn_app, Nat.sub_diag, skipn_all. simpl.
  f_equal. unfold p. rewrite firstn_firstn. f_equal.
Qed.

(** *** Properties of [sanitize_filename] *)

Lemma unnamed_file_fixed : sanitize_filename unnamed_file = unnamed_file.
Proof. reflexivity. Qed.

Lemma sanitize_cases (s : str) :
  (truncate (clean s) = [] /\ sanitize_filename s = unnamed_file)
  \/ (truncate (clean s) <> [] /\ sanitize_filename s = truncate (clean s)).
Proof.
  unfold sanitize_filename. destruct (truncate (clean s)).
  - left. split; reflexivity.
  - right. split; [discriminate|reflexivity].
Qed.

(** The output never holds a separator, a null byte or a reserved
    character. *)
Lemma sanitize_safe (s : str) : safe (sanitize_filename s).
Proof.
  destruct (sanitize_cases s) as [[_ ->]|[_ ->]].
  - unfold safe, unnamed_file. simpl. repeat constructor.
  - apply truncate_safe, clean_safe.
Qed.

(** The output is never empty. *)
Lemma sanitize_nonempty (s : str) : sanitize_filename s <> [].
Proof.
  destruct (sanitize_cases s) as [[_ ->]|[H ->]]; [discriminate|exact H].
Qed.

(** What the length test does guarantee: 180 characters of stem plus the
    whole suffix. *)
Lemma sanitize_length_bound (s : str) :
  (length (sanitize_filename s)
   <= Nat.max 200 (180 + length (path_suffix (clean s))))%nat.
Proof.
  destruct (sanitize_cases s) as [[_ ->]|[_ ->]]; [simpl; lia|].
  unfold truncate. destruct (200 <? length (clean s))%nat eqn:E.
  - rewrite length_app, length_firstn. lia.
  - apply Nat.ltb_ge in E. lia.
Qed.

(** A name of 202 characters: [a], a dot, and an extension of 200 [b]s. *)
Definition long_extension_name : str :=
  "a"%char :: "."%char :: repeat "b"%char 200.

(** C2 (the length bound fails): the docstring of [sanitize_filename]
    promises truncation to 200 characters, but only the stem is cut; a name
    whose extension is long comes back unchanged, here with 202
    characters. *)
Theorem sanitize_filename_exceeds_200 :
  sanitize_filename long_extension_name = long_extension_name
  /\ length (sanitize_filename long_extension_name) = 202%nat
  /\ ~ (length (sanitize_filename long_extension_name) <= 200)%nat.
Proof.
  assert (H : sanitize_filename long_extension_name = long_extension_name)
    by (vm_compute; reflexivity).
  rewrite H. split; [reflexivity|]. split; [reflexivity|].
  change (length long_extension_name) with 202%nat. lia.
Qed.

(** C7: the sanitizer is idempotent. *)
Theorem sanitize_filename_idempotent (x : str) :
  sanitize_filename (sanitize_filename x) = sanitize_filename x.
Proof.
  destruct (sanitize_cases x) as [[_ ->]|[Hne Hx]].
  - apply unnamed_file_fixed.
  - rewrite Hx. unfold sanitize_filename at 1.
    rewrite (clean_id (truncate (clean x))).
    + rewrite truncate_idem. destruct (truncate (clean x)); congruence.
    + apply truncate_safe, clean_safe.
    + apply truncate_no_lead, clean_no_lead.
Qed.

(** *** Further properties of [sanitize_filename] *)

Lemma forbidden_false (c : ascii) :
  forbidden c = false ->
  c <> "/"%char /\ c <> "\"%char /\ c <> "000"%char /\ ~ In c reserved.
Proof.
  unfold forbidden. intros H.
  apply orb_false_elim in H as [H Hr]. apply orb_false_elim in H as [H H0].
  apply orb_false_elim in H as [H1 H2].
  unfold chr_eqb in *. rewrite Ascii.eqb_neq in H1, H2, H0.
  repeat split; try assumption.
  intros Hin. unfold is_reserved in Hr.
  assert (Ht : existsb (chr_eqb c) reserved = true).
  { apply existsb_exists. exists c. split; [exact Hin|].
    apply Ascii.eqb_refl. }
  congruence.
Qed.

Lemma sanitize_no_lead (x : str) : no_lead (sanitize_filename x).
Proof.
  destruct (sanitize_cases x) as [[_ ->]|[_ ->]].
  - reflexivity.
  - apply truncate_no_lead, clean_no_lead.
Qed.

(** X1: whatever the input, the sanitized name holds no slash, backslash,
    null byte or reserved character, is not empty and does not start with
    a dot or a space. *)
Theorem sanitize_filename_alphabet (x : str) :
  (forall c, In c (sanitize_filename x) ->
             c <> "/"%char /\ c <> "\"%char /\ c <> "000"%char
             /\ ~ In c reserved)
  /\ sanitize_filename x <> []
  /\ (forall c r, sanitize_filename x = c :: r ->
                  c <> "."%char /\ c <> " "%char).
Proof.
  split; [|split].
  - intros c Hin. apply forbidden_false.
    pose proof (sanitize_safe x) as Hs. unfold safe in Hs.
    rewrite List.Forall_forall in Hs. apply Hs, Hin.
  - apply sanitize_nonempty.
  - intros c r Heq. pose proof (sanitize_no_lead x) as Hl.
    rewrite Heq in Hl. simpl in Hl.
    apply orb_false_elim in Hl as [H1 H2].
    apply orb_false_elim in H2 as [H2 _].
    unfold chr_eqb in *. rewrite Ascii.eqb_neq in H1, H2. auto.
Qed.

(** X2: the sanitized name has at most 200 characters, or 180 plus the
    length of the extension of the cleaned name when that is more: only
    the stem is ever cut. *)
Theorem sanitize_filename_length (x : str) :
  (length (sanitize_filename x)
   <= Nat.max 200 (180 + length (path_suffix (clean x))))%nat
  /\ ((length (clean x) <= 200)%nat -> clean x <> [] ->
      sanitize_filename x = clean x).
Proof.
  split; [apply sanitize_length_bound|].
  intros Hlen Hne. unfold sanitize_filename, truncate.
  destruct (200 <? length (clean x))%nat eqn:E;
    [apply Nat.ltb_lt in E; lia|].
  destruct (clean x); [contradiction|reflexivity].
Qed.

(** A non-empty suffix, seen in the name. *)
Lemma path_suffix_split (s : str) :
  path_suffix s <> [] ->
  exists p rest,
    s = p ++ "."%char :: rest /\ p <> [] /\ rest <> []
    /\ rfind_dot rest = None
    /\ path_suffix s = "."%char :: rest /\ path_stem s = p.
Proof.
  unfold path_suffix, path_stem.
  destruct (rfind_dot s) as [i|] eqn:Hi; [|congruence].
  destruct ((0 <? i)%nat && (i <? length s - 1)%nat) eqn:Hc; [|congruence].
  intros _. apply andb_true_iff in Hc as [Hc1 Hc2].
  apply Nat.ltb_lt in Hc1. apply Nat.ltb_lt in Hc2.
  destruct (rfind_dot_split s i Hi) as (rest & Hs & Hrest & Hl).
  exists (firstn i s), rest.
  assert (Hlen : length s = (i + S (length rest))%nat).
  { rewrite Hs at 1. rewrite length_app, Hl. reflexivity. }
  split; [exact Hs|]. split.
  { intros H0. rewrite H0 in Hl. simpl in Hl. lia. }
  split.
  { intros ->. simpl in Hlen. lia. }
  split; [exact Hrest|]. split; [|reflexivity].
  rewrite Hs at 1. rewrite skipn_app, Hl, Nat.sub_diag, skipn_all2 by lia.
  reflexivity.
Qed.

Lemma path_suffix_app_dot (p rest : str) :
  p <> [] -> rest <> [] -> rfind_dot rest = None ->
  path_suffix (p ++ "."%char :: rest) = "."%char :: rest.
Proof.
  intros Hp Hr Hnone. unfold path_suffix.
  rewrite (rfind_dot_app_dot p rest Hnone).
  assert (Hb : ((0 <? length p)%nat
                && (length p <? length (p ++ "."%char :: rest) - 1)%nat)
               = true).
  { apply andb_true_iff.
    destruct p; [contradiction|]. destruct rest; [contradiction|].
    split; apply Nat.ltb_lt; rewrite ?length_app; simpl; lia. }
  rewrite Hb, skipn_app, Nat.sub_diag, skipn_all. reflexivity.
Qed.

(** X3: when the cleaned name has an extension, the sanitized name has
    the same one, cut or not. *)
Theorem sanitize_filename_keeps_extension (x : str) :
  path_suffix (clean x) <> [] ->
  path_suffix (sanitize_filename x) = path_suffix (clean x).
Proof.
  intros Hsfx.
  destruct (path_suffix_split (clean x) Hsfx)
    as (p & rest & Hs & Hp & Hr & Hnone & Hsuf & Hstem).
  assert (Ht : truncate (clean x)
               = clean x
                 \/ truncate (clean x) = firstn 180 p ++ "."%char :: rest).
  { unfold truncate. destruct (200 <? length (clean x))%nat; [right|left].
    - rewrite Hsuf, Hstem. reflexivity.
    - reflexivity. }
  assert (Hne : truncate (clean x) <> []).
  { destruct Ht as [->| ->].
    - rewrite Hs. destruct p; discriminate.
    - destruct (firstn 180 p); discriminate. }
  destruct (sanitize_cases x) as [[H0 _]|[_ ->]]; [contradiction|].
  destruct Ht as [->| ->]; [reflexivity|].
  rewrite Hsuf. apply path_suffix_app_dot; auto.
  destruct p; [contradiction|]. discriminate.
Qed.

(** X4: a name that is already safe (no forbidden character, no leading
    dot or space), not empty and at most 200 characters long is returned
    unchanged. *)
Theorem sanitize_filename_fixed (x : str) :
  safe x -> no_lead x -> x <> [] -> (length x <= 200)%nat ->
  sanitize_filename x = x.
Proof.
  intros Hs Hl Hne Hlen. unfold sanitize_filename.
  rewrite (clean_id x Hs Hl). unfold truncate.
  destruct (200 <? length x)%nat eqn:E; [apply Nat.ltb_lt in E; lia|].
  destruct x; [contradiction|reflexivity].
Qed.

Definition report_pdf : str := list_ascii_of_string "Report 2024.pdf".

Lemma sanitize_filename_keeps_extension_witness :
  path_suffix (sanitize_filename report_pdf) = list_ascii_of_string ".pdf".
Proof.
  rewrite (sanitize_filename_keeps_extension report_pdf).
  - reflexivity.
  - vm_compute. discriminate.
Defined.

Lemma sanitize_filename_fixed_witness :
  sanitize_filename report_pdf = report_pdf.
Proof.
  apply (sanitize_filename_fixed report_pdf).
  - unfold safe, report_pdf. simpl. repeat constructor.
  - reflexivity.
  - discriminate.
  - simpl. lia.
Defined.


End FileUtils.

(** ** services/link_router.py *)
Module LinkRouter.

Import FileUtils.

(** Case folding of [re.IGNORECASE] on the letters of the pattern, over
    the code points below 256, where it is the folding of the ASCII
    letters.  Further up [s] has one more match, U+017F, which a text of
    this alphabet does not hold. *)
Definition to_lower (c : ascii) : ascii :=
  let n := nat_of_ascii c in
  if (65 <=? n)%nat && (n <=? 90)%nat then ascii_of_nat (n + 32) else c.

(** Match a lower-case literal at the head of [s], ignoring case; the
    result is the rest of [s]. *)
Fixpoint match_lit (lit s : str) : option str :=
  match lit, s with
  | [], _ => Some s
  | _ :: _, [] => None
  | l :: lit', c :: s' =>
      if chr_eqb (to_lower c) l then match_lit lit' s' else None
  end.

(** [\s] on the code points below 256: tab to carriage return, the four
    separators 28 to 31, space, NEL (133) and no-break space (160). *)
Definition is_space (c : ascii) : bool :=
  let n := nat_of_ascii c in
  ((9 <=? n) && (n <=? 13) || (28 <=? n) && (n <=? 32)
   || (n =? 133) || (n =? 160))%nat.

(** The negated class of the pattern: anything but white space, the two
    angle brackets, the double quote (34), the single quote (39), the
    closing parenthesis and the closing square bracket. *)
Definition url_char (c : ascii) : bool :=
  negb (is_space c
        || existsb (chr_eqb c) ["<"; ">"; "034"; "039"; ")"; "]"]%char).

(** The greedy [+] over the class: the longest run, at least one long. *)
Fixpoint span_url (s : str) : str :=
  match s with
  | c :: r => if url_char c then c :: span_url r else []
  | [] => []
  end.

(** [URL_PATTERN.match] at the head of [s]: the matched text.  [s?] is
    greedy, and the matcher falls back to the branch without it. *)
Definition match_url (s : str) : option str :=
  match match_lit (list_ascii_of_string "http") s with
  | None => None
  | Some r =>
      let with_s :=
        match match_lit ["s"%char] r with
        | Some r1 =>
            match match_lit (list_ascii_of_string "://") r1 with
            | Some r2 =>
                match span_url r2 with
                | [] => None
                | body => Some (firstn (length s - length r2) s ++ body)
                end
            | None => None
            end
        | None => None
        end in
      match with_s with
      | Some m => Some m
      | None =>
          match match_lit (list_ascii_of_string "://") r with
          | Some r2 =>
              match span_url r2 with
              | [] => None
              | body => Some (firstn (length s - length r2) s ++ body)
              end
          | None => None
          end
      end
  end.

(** [URL_PATTERN.findall]: leftmost matches, the scan resuming right after
    each one ([skip] counts the characters of the last match still to
    pass). *)
Fixpoint findall_from (skip : nat) (s : str) : list str :=
  match s with
  | [] => []
  | _ :: r =>
      match skip with
      | S k => findall_from k r
      | O =>
          match match_url s with
          | Some m => m :: findall_from (length m - 1) r
          | None => findall_from 0 r
          end
      end
  end.

Definition findall (text : str) : list str := findall_from 0 text.

(** [url.rstrip(chars)]. *)
Fixpoint rstrip (chars : str) (s : str) : str :=
  match s with
  | [] => []
  | c :: r =>
      match rstrip chars r with
      | [] => if existsb (chr_eqb c) chars then [] else [c]
      | r' => c :: r'
      end
  end.

Definition punctuation : str := list_ascii_of_string ".,;:!?)".

(** The body of the [for] loop, [cleaned] being the accumulator. *)
Definition extract_step (cleaned : list str) (url : str) : list str :=
  let url := rstrip punctuation url in
  match url with
  | [] => cleaned
  | _ => if (10 <? length url)%nat then cleaned ++ [url] else cleaned
  end.

Definition extract_urls (text : str) : list str :=
  fold_left extract_step (findall text) [].

Definition str_of (s : string) : str := list_ascii_of_string s.

(** [LinkType] *)
Inductive LinkType := DIRECT | UNKNOWN.

#[global] Instance LinkType_eq_dec : EqDecision LinkType.
Proof. solve_decision. Defined.

Definition DIRECT_FILE_EXTENSIONS : list str :=
  map str_of
    [".mp4"; ".mkv"; ".avi"; ".mov"; ".webm"; ".zip"; ".rar"; ".7z"; ".tar";
     ".gz"; ".pdf"; ".doc"; ".docx"; ".xls"; ".xlsx"; ".jpg"; ".jpeg";
     ".png"; ".gif"; ".webp"; ".mp3"; ".wav"; ".flac"; ".ogg"; ".apk";
     ".exe"; ".dmg"; ".csv"; ".json"; ".xml"]%string.

(** [s.split("?")[0]] *)
Fixpoint before_query (s : str) : str :=
  match s with
  | [] => []
  | c :: r => if chr_eqb c "?"%char then [] else c :: before_query r
  end.

(** [s.endswith(ext)] *)
Definition endswith (s ext : str) : bool :=
  if decide (skipn (length s - length ext) s = ext) then true else false.

(** [classify_url]: a known extension or not, the type is [DIRECT]. *)
Definition classify_url (url : str) : LinkType :=
  let path_lower := before_query (map to_lower url) in
  if existsb (endswith path_lower) DIRECT_FILE_EXTENSIONS then DIRECT
  else DIRECT.

(** [route_urls] *)
Definition route_urls (urls : list str) : list (str * LinkType) :=
  map (fun url => (url, classify_url url)) urls.

Definition demo_text : str :=
  str_of "grab http://x.test/a.zip please, also http://x.test/b.zip.".

Definition twice_text : str :=
  str_of "http://x.test/a.zip, http://x.test/a.zip".

Lemma rstrip_idem (chars s : str) :
  rstrip chars (rstrip chars s) = rstrip chars s.
Proof.
  induction s as [|c r IH]; simpl; [reflexivity|].
  destruct (rstrip chars r) as [|d r'] eqn:E.
  - destruct (existsb (chr_eqb c) chars) eqn:Ec; simpl; [reflexivity|].
    rewrite Ec. reflexivity.
  - change (rstrip chars (c :: d :: r')) with
      (match rstrip chars (d :: r') with
       | [] => if existsb (chr_eqb c) chars then [] else [c]
       | r0 => c :: r0
       end).
    rewrite IH. reflexivity.
Qed.

Lemma rstrip_last (chars s p : str) (c : ascii) :
  rstrip chars s = p ++ [c] -> existsb (chr_eqb c) chars = false.
Proof.
  revert p. induction s as [|a r IH]; simpl; intros p H.
  - destruct p; discriminate.
  - destruct (rstrip chars r) as [|d r'] eqn:E.
    + destruct (existsb (chr_eqb a) chars) eqn:Ea.
      * destruct p; discriminate.
      * destruct p as [|b p]; simpl in H.
        -- injection H as <-. exact Ea.
        -- injection H as _ H. destruct p; discriminate.
    + destruct p as [|b p]; simpl in H; [discriminate|].
      injection H as _ H. apply (IH p). exact H.
Qed.

Lemma extract_fold (raw : list str) (acc : list str) :
  fold_left extract_step raw acc
  = acc ++ List.filter (fun u => (10 <? length u)%nat)
             (map (rstrip punctuation) raw).
Proof.
  revert acc. induction raw as [|u raw IH]; intros acc; simpl.
  - rewrite app_nil_r. reflexivity.
  - rewrite IH. unfold extract_step.
    destruct (rstrip punctuation u) as [|c r] eqn:E; [reflexivity|].
    destruct (10 <? length (c :: r))%nat; [|reflexivity].
    rewrite <- app_assoc. reflexivity.
Qed.

(** C8: [extract_urls] returns, in order of appearance and without
    removing duplicates, the matches of the URL pattern with their trailing
    punctuation trimmed, those of more than 10 characters only; on the
    sample sentence it returns exactly the two URLs. *)
Theorem extract_urls_spec (text : str) :
  extract_urls text
  = List.filter (fun u => (10 <? length u)%nat)
      (map (rstrip punctuation) (findall text))
  /\ Forall (fun u => (10 < length u)%nat
                      /\ rstrip punctuation u = u
                      /\ forall p c, u = p ++ [c] ->
                           existsb (chr_eqb c) punctuation = false)
       (extract_urls text)
  /\ extract_urls demo_text
     = [str_of "http://x.test/a.zip"; str_of "http://x.test/b.zip"]
  /\ extract_urls twice_text
     = [str_of "http://x.test/a.zip"; str_of "http://x.test/a.zip"].
Proof.
  assert (H : extract_urls text
              = List.filter (fun u => (10 <? length u)%nat)
                  (map (rstrip punctuation) (findall text)))
    by (unfold extract_urls; rewrite extract_fold; reflexivity).
  split; [exact H|]. split; [|split; vm_compute; reflexivity].
  rewrite H. apply List.Forall_forall. intros u Hu.
  apply filter_In in Hu as [Hu Hlen]. apply in_map_iff in Hu as [v [<- _]].
  apply Nat.ltb_lt in Hlen. split; [exact Hlen|].
  split; [apply rstrip_idem|].
  intros p c Hp. exact (rstrip_last _ _ _ _ Hp).
Qed.

(** *** Further properties of [extract_urls] *)

(** A check made on each of the 256 characters holds of every
    character. *)
Lemma all_ascii (P : ascii -> bool) :
  forallb P (map ascii_of_nat (seq 0 256)) = true -> forall c, P c = true.
Proof.
  intros H c. rewrite forallb_forall in H. apply H.
  rewrite <- (ascii_nat_embedding c). apply in_map, in_seq.
  pose proof (nat_ascii_bounded c). lia.
Qed.

(** The letters of the scheme, in either case, belong to the class of the
    pattern. *)
Lemma scheme_char_ok (c : ascii) :
  In (to_lower c) (list_ascii_of_string "https:/") -> url_char c = true.
Proof.
  intros Hin.
  assert (H : (if existsb (chr_eqb (to_lower c))
                    (list_ascii_of_string "https:/")
               then url_char c else true) = true).
  { revert c Hin. intros c _. revert c.
    apply (all_ascii (fun c => if existsb (chr_eqb (to_lower c))
                                    (list_ascii_of_string "https:/")
                               then url_char c else true)).
    vm_compute. reflexivity. }
  assert (He : existsb (chr_eqb (to_lower c)) (list_ascii_of_string "https:/")
               = true).
  { apply existsb_exists. exists (to_lower c). split; [exact Hin|].
    apply Ascii.eqb_refl. }
  rewrite He in H. exact H.
Qed.

Lemma match_lit_split (lit : str) :
  forall s r, match_lit lit s = Some r ->
              exists p, s = p ++ r /\ map to_lower p = lit.
Proof.
  induction lit as [|l lit IH]; intros s r H; simpl in H.
  - destruct s; injection H as <-; exists []; auto.
  - destruct s as [|c s]; [discriminate|].
    destruct (chr_eqb (to_lower c) l) eqn:E; [|discriminate].
    apply Ascii.eqb_eq in E. destruct (IH s r H) as (p & -> & Hp).
    exists (c :: p). simpl. rewrite E, Hp. auto.
Qed.

Lemma span_url_split (s : str) :
  exists rest, s = span_url s ++ rest
               /\ Forall (fun c => url_char c = true) (span_url s).
Proof.
  induction s as [|c s (rest & Hs & Hall)]; simpl.
  - exists []. split; [reflexivity|constructor].
  - destruct (url_char c) eqn:E.
    + exists rest. simpl. split; [f_equal; exact Hs|].
      constructor; [exact E|exact Hall].
    + exists (c :: s). split; [reflexivity|constructor].
Qed.

(** What a match is made of: a scheme, in any case, and a body, all in
    the class of the pattern; it is a prefix of the text it was matched
    on. *)
Definition well_formed (m : str) : Prop :=
  Forall (fun c => url_char c = true) m
  /\ (8 <= length m)%nat
  /\ (map to_lower (firstn 7 m) = list_ascii_of_string "http://"
      \/ map to_lower (firstn 8 m) = list_ascii_of_string "https://").

Lemma scheme_body_ok (p body : str) :
  (map to_lower p = list_ascii_of_string "http://"
   \/ map to_lower p = list_ascii_of_string "https://") ->
  body <> [] -> Forall (fun c => url_char c = true) body ->
  well_formed (p ++ body).
Proof.
  intros Hp Hb Hall.
  assert (Hlen : length p = 7%nat \/ length p = 8%nat).
  { destruct Hp as [Hp|Hp]; apply (f_equal (@length ascii)) in Hp;
      rewrite length_map in Hp; simpl in Hp; auto. }
  split; [|split].
  - apply Forall_app. split; [|exact Hall].
    apply List.Forall_forall. intros c Hc. apply scheme_char_ok.
    assert (Hin : In (to_lower c) (map to_lower p)) by (apply in_map, Hc).
    destruct Hp as [Hp|Hp]; rewrite Hp in Hin; simpl in *; tauto.
  - rewrite length_app. destruct body; [contradiction|]. simpl. lia.
  - destruct Hp as [Hp|Hp]; [left|right];
      apply (f_equal (@length ascii)) in Hp as Hl;
      rewrite length_map in Hl; simpl in Hl;
      rewrite firstn_app, <- Hl, Nat.sub_diag, firstn_all; simpl;
      rewrite app_nil_r; exact Hp.
Qed.

Lemma match_url_split (s m : str) :
  match_url s = Some m -> (exists rest, s = m ++ rest) /\ well_formed m.
Proof.
  unfold match_url.
  destruct (match_lit (list_ascii_of_string "http") s) as [r|] eqn:H1;
    [|discriminate].
  destruct (match_lit_split _ _ _ H1) as (p1 & -> & Hp1).
  assert (Hl1 : length p1 = 4%nat).
  { apply (f_equal (@length ascii)) in Hp1. rewrite length_map in Hp1.
    exact Hp1. }
  assert (Hbranch : forall p r2,
    r = p ++ r2 ->
    (map to_lower p = list_ascii_of_string "://"
     \/ map to_lower p = list_ascii_of_string "s://") ->
    forall m0,
      match span_url r2 with
      | [] => None
      | body => Some (firstn (length (p1 ++ r) - length r2) (p1 ++ r) ++ body)
      end = Some m0 ->
      (exists rest, p1 ++ r = m0 ++ rest) /\ well_formed m0).
  { intros p r2 -> Hp m0 Hm.
    destruct (span_url_split r2) as (rest & Hr2 & Hall).
    destruct (span_url r2) as [|b body] eqn:Hb; [discriminate|].
    injection Hm as <-.
    assert (Hf : firstn (length (p1 ++ p ++ r2) - length r2) (p1 ++ p ++ r2)
                 = p1 ++ p).
    { rewrite app_assoc, length_app, Nat.add_sub, firstn_app, Nat.sub_diag,
        firstn_all. simpl. apply app_nil_r. }
    rewrite Hf. split.
    - exists rest. rewrite Hr2 at 1. rewrite <- !app_assoc. reflexivity.
    - apply scheme_body_ok; [|discriminate|exact Hall].
      rewrite map_app, Hp1. destruct Hp as [-> | ->]; auto. }
  destruct (match_lit ["s"%char] r) as [r1|] eqn:H2.
  - destruct (match_lit_split _ _ _ H2) as (p2 & -> & Hp2).
    destruct (match_lit (list_ascii_of_string "://") r1) as [r2|] eqn:H3.
    + destruct (match_lit_split _ _ _ H3) as (p3 & -> & Hp3).
      destruct (span_url r2) as [|b body] eqn:Hb.
      * (* the branch with the [s] fails: the other one is tried *)
        destruct (match_lit (list_ascii_of_string "://") (p2 ++ p3 ++ r2))
          as [r2'|] eqn:H4; [|discriminate].
        destruct (match_lit_split _ _ _ H4) as (p4 & Hr & Hp4).
        intros Hm. apply (Hbranch p4 r2' Hr (or_introl Hp4) m Hm).
      * intros Hm.
        apply (Hbranch (p2 ++ p3) r2).
        -- rewrite <- app_assoc. reflexivity.
        -- right. rewrite map_app, Hp2, Hp3. reflexivity.
        -- rewrite Hb. exact Hm.
    + destruct (match_lit (list_ascii_of_string "://") (p2 ++ r1))
        as [r2'|] eqn:H4; [|discriminate].
      destruct (match_lit_split _ _ _ H4) as (p4 & Hr & Hp4).
      intros Hm. apply (Hbranch p4 r2' Hr (or_introl Hp4) m Hm).
  - destruct (match_lit (list_ascii_of_string "://") r) as [r2'|] eqn:H4;
      [|discriminate].
    destruct (match_lit_split _ _ _ H4) as (p4 & Hr & Hp4).
    intros Hm. apply (Hbranch p4 r2' Hr (or_introl Hp4) m Hm).
Qed.


Lemma findall_from_sub (s : str) :
  forall skip u, In u (findall_from skip s) ->
    (exists pre post, s = pre ++ u ++ post) /\ well_formed u.
Proof.
  induction s as [|c r IH]; intros skip u Hin; simpl in Hin; [contradiction|].
  assert (Hrec : forall k, In u (findall_from k r) ->
                 (exists pre post, c :: r = pre ++ u ++ post)
                 /\ well_formed u).
  { intros k Hk. destruct (IH k u Hk) as [(pre & post & ->) Hw].
    split; [exists (c :: pre), post; reflexivity|exact Hw]. }
  destruct skip as [|k]; [|exact (Hrec k Hin)].
  destruct (match_url (c :: r)) as [m|] eqn:Hm; [|exact (Hrec 0%nat Hin)].
  destruct Hin as [<-|Hin]; [|exact (Hrec _ Hin)].
  destruct (match_url_split _ _ Hm) as [[rest Hs] Hw].
  split; [exists [], rest; exact Hs|exact Hw].
Qed.

Lemma findall_from_length (s : str) :
  forall skip,
    (length (concat (findall_from skip s)) <= length s - skip)%nat.
Proof.
  induction s as [|c r IH]; intros skip; simpl; [lia|].
  destruct skip as [|k]; [|apply IH].
  destruct (match_url (c :: r)) as [m|] eqn:Hm.
  - destruct (match_url_split _ _ Hm) as [[rest Hs] (_ & Hlen & _)].
    apply (f_equal (@length ascii)) in Hs. rewrite length_app in Hs.
    simpl in Hs. simpl concat. rewrite length_app.
    specialize (IH (length m - 1)%nat). lia.
  - specialize (IH 0%nat). lia.
Qed.

(** [rstrip] removes a tail. *)
Lemma rstrip_prefix (chars s : str) :
  exists tail, s = rstrip chars s ++ tail.
Proof.
  induction s as [|c r [tail Ht]]; simpl.
  - exists []. reflexivity.
  - destruct (rstrip chars r) as [|d r'] eqn:E.
    + destruct (existsb (chr_eqb c) chars).
      * exists (c :: r). reflexivity.
      * exists r. reflexivity.
    + exists tail. simpl in *. f_equal. exact Ht.
Qed.

Lemma well_formed_prefix (u tail : str) :
  well_formed (u ++ tail) -> (10 < length u)%nat -> well_formed u.
Proof.
  intros (Hall & _ & Hsch) Hlen. split; [|split].
  - apply Forall_app in Hall. exact (proj1 Hall).
  - lia.
  - rewrite !firstn_app in Hsch.
    replace (7 - length u)%nat with 0%nat in Hsch by lia.
    replace (8 - length u)%nat with 0%nat in Hsch by lia.
    simpl in Hsch. rewrite !app_nil_r in Hsch. exact Hsch.
Qed.

(** The colon and the slash have one case. *)
Lemma to_lower_colon (c : ascii) : to_lower c = ":"%char -> c = ":"%char.
Proof.
  intros H. apply Ascii.eqb_eq.
  assert (E : (if Ascii.eqb (to_lower c) ":" then Ascii.eqb c ":" else true)
              = true).
  { revert c H. intros c _. revert c.
    apply (all_ascii (fun c => if Ascii.eqb (to_lower c) ":"
                               then Ascii.eqb c ":" else true)).
    vm_compute. reflexivity. }
  rewrite H in E. exact E.
Qed.

Lemma to_lower_slash (c : ascii) : to_lower c = "/"%char -> c = "/"%char.
Proof.
  intros H. apply Ascii.eqb_eq.
  assert (E : (if Ascii.eqb (to_lower c) "/" then Ascii.eqb c "/" else true)
              = true).
  { revert c H. intros c _. revert c.
    apply (all_ascii (fun c => if Ascii.eqb (to_lower c) "/"
                               then Ascii.eqb c "/" else true)).
    vm_compute. reflexivity. }
  rewrite H in E. exact E.
Qed.

(** A scheme read letter by letter: [http] in any case, then [://], at
    once or after the one character of the optional [s]. *)
Lemma scheme_shape (u : str) :
  (map to_lower (firstn 7 u) = list_ascii_of_string "http://"
   \/ map to_lower (firstn 8 u) = list_ascii_of_string "https://") ->
  map to_lower (firstn 4 u) = list_ascii_of_string "http"
  /\ (firstn 3 (skipn 4 u) = list_ascii_of_string "://"
      \/ firstn 3 (skipn 5 u) = list_ascii_of_string "://").
Proof.
  destruct u as [|c0 [|c1 [|c2 [|c3 [|c4 [|c5 [|c6 u]]]]]]];
    try (intros [H|H]; discriminate H).
  intros [H|H].
  - simpl in H. injection H as H0 H1 H2 H3 H4 H5 H6.
    split; [simpl; congruence|]. left. simpl.
    apply to_lower_colon in H4. apply to_lower_slash in H5.
    apply to_lower_slash in H6. subst c4 c5 c6. reflexivity.
  - destruct u as [|c7 u]; [discriminate H|].
    simpl in H. injection H as H0 H1 H2 H3 H4 H5 H6 H7.
    split; [simpl; congruence|]. right. simpl.
    apply to_lower_colon in H5. apply to_lower_slash in H6.
    apply to_lower_slash in H7. subst c5 c6 c7. reflexivity.
Qed.

(** X5: every URL returned by [extract_urls] is a piece of the text, is
    made of characters of the pattern's class only (no white space,
    angle bracket, quote, closing parenthesis or bracket) and begins with
    [http] in any mix of cases, followed by [://] at once or after one
    more character, the one the pattern takes for the optional [s]. *)
Theorem extract_urls_well_formed (text : str) :
  Forall (fun u => (exists pre post, text = pre ++ u ++ post)
                   /\ Forall (fun c => url_char c = true) u
                   /\ map to_lower (firstn 4 u)
                      = list_ascii_of_string "http"
                   /\ (firstn 3 (skipn 4 u) = list_ascii_of_string "://"
                       \/ firstn 3 (skipn 5 u)
                          = list_ascii_of_string "://"))
    (extract_urls text).
Proof.
  unfold extract_urls. rewrite extract_fold. simpl.
  apply List.Forall_forall. intros u Hu.
  apply filter_In in Hu as [Hu Hlen]. apply Nat.ltb_lt in Hlen.
  apply in_map_iff in Hu as (m & <- & Hm).
  destruct (findall_from_sub text 0 m Hm) as [(pre & post & Htext) Hw].
  destruct (rstrip_prefix punctuation m) as [tail Ht].
  rewrite Ht in Hw. apply well_formed_prefix in Hw; [|exact Hlen].
  destruct Hw as (Hall & _ & Hsch). apply scheme_shape in Hsch.
  split; [|split; [exact Hall|exact Hsch]].
  exists pre, (tail ++ post). rewrite Htext. rewrite Ht at 1.
  rewrite <- !app_assoc. reflexivity.
Qed.

Lemma concat_trimmed_length (raw : list str) :
  (length (concat (List.filter (fun u => (10 <? length u)%nat)
                     (map (rstrip punctuation) raw)))
   <= length (concat raw))%nat.
Proof.
  induction raw as [|m raw IH]; simpl; [lia|].
  destruct (rstrip_prefix punctuation m) as [tail Ht].
  assert (Hle : (length (rstrip punctuation m) <= length m)%nat).
  { rewrite Ht at 2. rewrite length_app. lia. }
  destruct (10 <? length (rstrip punctuation m))%nat; simpl;
    rewrite ?length_app; lia.
Qed.

(** X6: the URLs found do not overlap and none is counted twice: their
    lengths add up to at most the length of the text, so there are fewer
    than one URL per 11 characters. *)
Theorem extract_urls_total_length (text : str) :
  (length (concat (extract_urls text)) <= length text)%nat
  /\ (11 * length (extract_urls text) <= length text)%nat.
Proof.
  assert (H1 : (length (concat (extract_urls text)) <= length text)%nat).
  { unfold extract_urls. rewrite extract_fold. simpl.
    pose proof (concat_trimmed_length (findall text)) as Ha.
    pose proof (findall_from_length text 0) as Hb.
    unfold findall in *. lia. }
  split; [exact H1|].
  assert (H2 : forall l : list str,
             Forall (fun u => (10 < length u)%nat) l ->
             (11 * length l <= length (concat l))%nat).
  { induction 1 as [|u l Hu _ IH]; simpl; [lia|].
    rewrite length_app. lia. }
  specialize (H2 (extract_urls text)).
  assert (Hall : Forall (fun u => (10 < length u)%nat) (extract_urls text)).
  { unfold extract_urls. rewrite extract_fold. simpl.
    apply List.Forall_forall. intros u Hu.
    apply filter_In in Hu as [_ Hlen]. apply Nat.ltb_lt in Hlen. exact Hlen. }
  specialize (H2 Hall). lia.
Qed.

(** X7: routing drops nothing: [route_urls] pairs every URL, in order,
    with the type [DIRECT], whether its extension is known or not, so the
    direct-download list built from it is the input list. *)
Theorem route_urls_all_direct (urls : list str) :
  map fst (route_urls urls) = urls
  /\ Forall (fun r => snd r = DIRECT) (route_urls urls)
  /\ map fst (List.filter (fun r => bool_decide (snd r = DIRECT))
                (route_urls urls)) = urls.
Proof.
  assert (Hc : forall url, classify_url url = DIRECT).
  { intros url. unfold classify_url. destruct (existsb _ _); reflexivity. }
  unfold route_urls. induction urls as [|url rest (IH1 & IH2 & IH3)]; simpl.
  - split; [reflexivity|]. split; [constructor|reflexivity].
  - rewrite Hc. simpl. rewrite IH1, IH3.
    split; [reflexivity|]. split; [|reflexivity].
    constructor; [reflexivity|exact IH2].
Qed.


End LinkRouter.

(** ** utils/progress.py *)
Module Progress.

(** *** Python numbers *)

(** [float(z)] for an [int] below 2^63 in magnitude (round to nearest
    even; exact up to 2^53). *)
Definition float_of_int (z : Z) : float :=
  if z <? 0 then PrimFloat.opp (PrimFloat.of_uint63 (Uint63.of_Z (- z)))
  else PrimFloat.of_uint63 (Uint63.of_Z z).

(** [a / b] on two [int]s: the correctly rounded quotient, which is the
    quotient of the two conversions as long as both are exact. *)
Definition py_truediv (a b : Z) : float :=
  PrimFloat.div (float_of_int a) (float_of_int b).

(** [int(x)] on a [float]: truncation toward zero; [None] stands for the
    [ValueError] or [OverflowError] raised on a NaN or an infinity. *)
Definition int_of_spec_float (x : spec_float) : option Z :=
  match x with
  | S754_zero _ => Some 0
  | S754_finite s m e =>
      let a := if 0 <=? e then Z.shiftl (Zpos m) e
               else Z.shiftr (Zpos m) (- e) in
      Some (if s then - a else a)
  | S754_infinity _ | S754_nan => None
  end.

Definition py_int (x : float) : option Z := int_of_spec_float (Prim2SF x).

(** The value printed by the format [.1f] for [n / 1_048_576], in tenths:
    the quotient is exact in binary64 and the conversion to decimal rounds
    the exact value half to even. *)
Definition mb_tenths (n : Z) : Z :=
  let q := (10 * n) / 1048576 in
  let r := (10 * n) mod 1048576 in
  if 2 * r <? 1048576 then q
  else if 1048576 <? 2 * r then q + 1
  else if Z.even q then q else q + 1.

(** *** The rendered texts *)

Inductive cell := Full | Empty.

(** A text is kept as the values interpolated into its f-string; for one
    tracker (one file name) two texts are the same string exactly when
    these agree.  The first four are the tracker's; the others are the
    status lines of the service and of the pipeline ([TFailed] is the
    line that carries the message of an exception). *)
Inductive text :=
| TBar (filename : string) (bar : list cell) (pct : Z) (dl_mb tot_mb : Z)
| TBytes (filename : string) (dl_mb : Z)
| TComplete (filename : string)
| TError (filename : string) (reason : string)
| TDownloading (idx count : Z) (short_name : string)
| TNoFiles
| TZipping (count : Z)
| TNoSupported
| TTooLarge (size limit : Z)
| TUploading
| TDone (filename : string)
| TFailed.

#[global] Instance cell_eq_dec : EqDecision cell.
Proof. solve_decision. Defined.

#[global] Instance text_eq_dec : EqDecision text.
Proof. solve_decision. Defined.

(** The fields of a [ProgressTracker]; [last_text = None] is the initial
    empty string, which no rendered text equals. *)
Record tracker := Tracker {
  filename : string;
  update_interval : Q;
  last_update : Q;
  last_text : option text
}.

(** [ProgressTracker.__init__] *)
Definition new_tracker (name : string) (interval : Q) : tracker :=
  Tracker name interval 0 None.

(** The status message: the texts passed to [message.edit_text], oldest
    first.  A failing call is logged and swallowed, so the tracker never
    sees the difference. *)
Definition surface := list text.

(** [ProgressTracker._edit] *)
Definition _edit (t : text) (st : tracker * surface) : tracker * surface :=
  let '(tr, msg) := st in
  if decide (Some t = last_text tr) then st
  else (Tracker (filename tr) (update_interval tr) (last_update tr) (Some t),
        msg ++ [t]).

(** [s * n] on a one-character string: empty when [n] is negative. *)
Definition times (c : cell) (n : Z) : list cell := repeat c (Z.to_nat n).

(** [ProgressTracker._bar]; [None] when [int] raises. *)
Definition _bar (pct : Z) (width : Z) : option (list cell) :=
  match py_int (py_truediv (width * pct) 100) with
  | Some filled => Some (times Full filled ++ times Empty (width - filled))
  | None => None
  end.

(** The text computed by an accepted [update]; [None] when [int] raises. *)
Definition progress_text (name : string) (downloaded total : Z)
  : option text :=
  if 0 <? total then
    match py_int (PrimFloat.mul (py_truediv downloaded total)
                    (float_of_int 100)) with
    | Some k =>
        let pct := Z.min k 100 in
        match _bar pct 20 with
        | Some bar =>
            Some (TBar name bar pct (mb_tenths downloaded) (mb_tenths total))
        | None => None
        end
    | None => None
    end
  else Some (TBytes name (mb_tenths downloaded)).

(** [ProgressTracker.update] at clock reading [now].  The boolean tells
    whether the call raised. *)
Definition update (now : Q) (downloaded total : Z) (st : tracker * surface)
  : tracker * surface * bool :=
  let '(tr, msg) := st in
  if Qlt_le_dec (now - last_update tr) (update_interval tr) then (st, false)
  else
    let tr := Tracker (filename tr) (update_interval tr) now (last_text tr) in
    match progress_text (filename tr) downloaded total with
    | Some t => (_edit t (tr, msg), false)
    | None => ((tr, msg), true)
    end.

(** [ProgressTracker.complete] and [ProgressTracker.error] *)
Definition complete (st : tracker * surface) : tracker * surface :=
  _edit (TComplete (filename (fst st))) st.

Definition error (reason : string) (st : tracker * surface)
  : tracker * surface :=
  _edit (TError (filename (fst st)) reason) st.

(** A progress callback: the clock reading at the call and its two
    arguments. *)
Record call := Call { at_time : Q; c_downloaded : Z; c_total : Z }.

(** The callbacks of one download, in order.  A call that raises aborts
    the attempt but leaves the tracker in use for the next one. *)
Definition run_updates (calls : list call) (st : tracker * surface)
  : tracker * surface :=
  fold_left
    (fun st c => fst (update (at_time c) (c_downloaded c) (c_total c) st))
    calls st.

(** *** Throttling *)

Lemma run_updates_cons (c : call) (calls : list call) (st : tracker * surface) :
  run_updates (c :: calls) st
  = run_updates calls
      (fst (update (at_time c) (c_downloaded c) (c_total c) st)).
Proof. reflexivity. Qed.

Lemma update_throttled (now : Q) (d t : Z) (tr : tracker) (msg : surface) :
  (now - last_update tr < update_interval tr)%Q ->
  update now d t (tr, msg) = (tr, msg, false).
Proof.
  intros H. unfold update.
  destruct (Qlt_le_dec _ _) as [_|Hle]; [reflexivity|].
  exfalso. apply (Qlt_not_le _ _ H Hle).
Qed.

Lemma _edit_effect (t : text) (tr : tracker) (msg : surface) :
  exists extra,
    snd (_edit t (tr, msg)) = msg ++ extra /\ (length extra <= 1)%nat
    /\ update_interval (fst (_edit t (tr, msg))) = update_interval tr
    /\ last_update (fst (_edit t (tr, msg))) = last_update tr.
Proof.
  unfold _edit. destruct (decide _).
  - exists []. simpl. rewrite app_nil_r. auto.
  - exists [t]. simpl. auto.
Qed.

(** An update is a no-op, or it is accepted: the interval has elapsed,
    the clock reading is stored, and at most one text is rendered. *)
Lemma update_effect (now : Q) (d t : Z) (tr : tracker) (msg : surface) :
  fst (update now d t (tr, msg)) = (tr, msg)
  \/ ((update_interval tr <= now - last_update tr)%Q
      /\ last_update (fst (fst (update now d t (tr, msg)))) = now
      /\ update_interval (fst (fst (update now d t (tr, msg))))
         = update_interval tr
      /\ exists extra,
           snd (fst (update now d t (tr, msg))) = msg ++ extra
           /\ (length extra <= 1)%nat).
Proof.
  unfold update. destruct (Qlt_le_dec _ _) as [_|Hle]; [left; reflexivity|].
  right. split; [exact Hle|]. simpl filename.
  destruct (progress_text (filename tr) d t) as [txt|].
  - set (tr' := Tracker _ _ now _).
    destruct (_edit_effect txt tr' msg) as (extra & H1 & H2 & H3 & H4).
    destruct (_edit txt (tr', msg)) as [tr2 msg2]. simpl in *.
    rewrite H3, H4. repeat split; eauto.
  - simpl. repeat split. exists []. rewrite app_nil_r. auto.
Qed.

(** Once an update of the window has been accepted, the rest of the window
    is dropped. *)
Lemma run_updates_closed (t0 : Q) (calls : list call)
      (tr : tracker) (msg : surface) :
  (t0 <= last_update tr)%Q ->
  Forall (fun c => (at_time c < t0 + update_interval tr)%Q) calls ->
  run_updates calls (tr, msg) = (tr, msg).
Proof.
  intros Hlast. induction 1 as [|c calls Hc _ IH]; [reflexivity|].
  rewrite run_updates_cons, update_throttled by lra. exact IH.
Qed.

Lemma run_updates_window (t0 : Q) (calls : list call)
      (tr : tracker) (msg : surface) :
  Forall (fun c => (t0 <= at_time c)%Q
                   /\ (at_time c < t0 + update_interval tr)%Q) calls ->
  exists extra,
    snd (run_updates calls (tr, msg)) = msg ++ extra
    /\ (length extra <= 1)%nat.
Proof.
  induction 1 as [|c calls [Hc1 Hc2] Hall IH].
  - exists []. simpl. rewrite app_nil_r. auto.
  - rewrite run_updates_cons.
    destruct (update_effect (at_time c) (c_downloaded c) (c_total c) tr msg)
      as [Hno|(_ & Hlast & Hint & extra & Hmsg & Hlen)].
    + rewrite Hno. exact IH.
    + destruct (fst (update _ _ _ _)) as [tr' msg'].
      simpl in Hlast, Hint, Hmsg.
      rewrite (run_updates_closed t0).
      * simpl. eauto.
      * rewrite Hlast. exact Hc1.
      * rewrite Hint. eapply Forall_impl; [exact Hall|].
        intros x [_ Hx]. exact Hx.
Qed.

(** C6: an update is a no-op until [update_interval] seconds have passed
    since the last accepted one, so the callbacks of a window shorter than
    one interval (100 of them, or any number) render at most one progress
    text; a final [complete] or [error], which never reads the clock, adds
    at most one more. *)
Theorem progress_throttling (t0 : Q) (calls : list call)
        (tr : tracker) (msg : surface) (reason : string)
        (Hwin : Forall (fun c => (t0 <= at_time c)%Q
                         /\ (at_time c < t0 + update_interval tr)%Q) calls) :
  (forall now d t, (now - last_update tr < update_interval tr)%Q ->
                   update now d t (tr, msg) = (tr, msg, false))
  /\ exists extra fin fin',
      snd (run_updates calls (tr, msg)) = msg ++ extra
      /\ (length extra <= 1)%nat
      /\ snd (complete (run_updates calls (tr, msg))) = msg ++ extra ++ fin
      /\ (length fin <= 1)%nat
      /\ snd (error reason (run_updates calls (tr, msg)))
         = msg ++ extra ++ fin'
      /\ (length fin' <= 1)%nat.
Proof.
  split; [intros now d t; apply update_throttled|].
  destruct (run_updates_window t0 calls tr msg Hwin) as (extra & He & Hl).
  destruct (run_updates calls (tr, msg)) as [tr' msg'] eqn:E.
  simpl in He. subst msg'.
  destruct (_edit_effect (TComplete (filename tr')) tr' (msg ++ extra))
    as (fin & Hf & Hfl & _).
  destruct (_edit_effect (TError (filename tr') reason) tr' (msg ++ extra))
    as (fin' & Hf' & Hfl' & _).
  exists extra, fin, fin'. unfold complete, error. simpl fst.
  rewrite Hf, Hf', <- !app_assoc. auto 10.
Qed.

(** One hundred callbacks, 10 ms apart, from second 10 on. *)
Definition hundred_calls : list call :=
  map (fun i => Call (10 + (Z.of_nat i # 100)) (8192 * Z.of_nat (i + 1)) 819200)
      (seq 0 100).

Lemma progress_throttling_witness :
  length hundred_calls = 100%nat
  /\ (length (snd (run_updates hundred_calls
                     (new_tracker "a.zip" 3, []))) <= 1)%nat.
Proof.
  split; [reflexivity|].
  assert (Hwin : Forall (fun c => (10 <= at_time c)%Q
                          /\ (at_time c < 10 + update_interval
                                                 (new_tracker "a.zip" 3))%Q)
                   hundred_calls).
  { unfold hundred_calls. simpl seq. simpl map.
    repeat (constructor;
            [split; [vm_compute; discriminate | vm_compute; reflexivity]|]).
    constructor. }
  destruct (progress_throttling 10 hundred_calls (new_tracker "a.zip" 3) []
              "x" Hwin) as (_ & extra & _ & _ & He & Hl & _).
  unfold surface in *. rewrite He. exact Hl.
Defined.

(** *** The percentage bar *)

(** The bar computed by [_bar] is checked against the integer quotient
    for each percentage from 0 to 100. *)
Definition bar_ok (n : nat) : bool :=
  let pct := Z.of_nat n in
  match _bar pct 20 with
  | Some b =>
      if decide (b = times Full (20 * pct / 100)
                     ++ times Empty (20 - 20 * pct / 100))
      then true else false
  | None => false
  end.

Lemma bar_ok_all : forallb bar_ok (seq 0 101) = true.
Proof. vm_compute. reflexivity. Qed.

(** On a percentage between 0 and 100 the float division of [_bar] agrees
    with the integer quotient: [floor(20 * pct / 100)] cells are filled. *)
Lemma bar_exact (pct : Z) :
  0 <= pct <= 100 ->
  _bar pct 20 = Some (times Full (20 * pct / 100)
                      ++ times Empty (20 - 20 * pct / 100)).
Proof.
  intros H. pose proof bar_ok_all as Hall.
  rewrite forallb_forall in Hall.
  specialize (Hall (Z.to_nat pct)).
  assert (Hin : In (Z.to_nat pct) (seq 0 101)) by (apply in_seq; lia).
  specialize (Hall Hin). unfold bar_ok in Hall.
  rewrite Z2Nat.id in Hall by lia.
  destruct (_bar pct 20) as [b|]; [|discriminate].
  destruct (decide _) as [->|]; [reflexivity|discriminate].
Qed.

(** The bar is 20 cells wide. *)
Lemma bar_width (pct : Z) :
  0 <= pct <= 100 ->
  length (times Full (20 * pct / 100)
          ++ times Empty (20 - 20 * pct / 100)) = 20%nat.
Proof.
  intros H. unfold times. rewrite length_app, !repeat_length.
  assert (0 <= 20 * pct / 100 <= 20).
  { split; [apply Z.div_pos; lia|].
    apply Z.div_le_upper_bound; lia. }
  lia.
Qed.

(** With an unknown total the message carries the byte count only. *)
Lemma progress_text_unknown_total (name : string) (d t : Z) :
  t <= 0 -> progress_text name d t = Some (TBytes name (mb_tenths d)).
Proof.
  intros H. unfold progress_text.
  destruct (0 <? t) eqn:E; [apply Z.ltb_lt in E; lia|reflexivity].
Qed.

(** *** The sign of the percentage, from the specification of binary64 *)

(** A finite float has sign [s]. *)
Definition sign_is (s : bool) (x : spec_float) : Prop :=
  match x with
  | S754_finite s' _ _ => s' = s
  | _ => True
  end.

Lemma binary_round_aux_sign (sx : bool) (mx ex : Z)
      (lx : SpecFloat.location) :
  sign_is sx (binary_round_aux prec emax sx mx ex lx).
Proof.
  unfold binary_round_aux.
  destruct (shr_fexp prec emax mx ex lx) as [mrs e'].
  destruct (shr_fexp prec emax _ e' SpecFloat.loc_Exact) as [mrs2 e2].
  destruct (shr_m mrs2); simpl; auto.
  destruct (e2 <=? emax - prec)%Z; simpl; auto.
Qed.

Lemma float_of_int_sign (z : Z) :
  0 <= z -> sign_is false (Prim2SF (float_of_int z)).
Proof.
  intros Hz. unfold float_of_int.
  destruct (z <? 0) eqn:E; [apply Z.ltb_lt in E; lia|].
  rewrite of_uint63_spec. unfold binary_normalize.
  pose proof (Uint63.to_Z_bounded (Uint63.of_Z z)) as Hb.
  destruct (Uint63.to_Z (Uint63.of_Z z)) as [|p|p]; simpl; auto; try lia.
  unfold binary_round. destruct (shl_align _ _ _) as [mz ez].
  apply binary_round_aux_sign.
Qed.

Lemma SFdiv_sign (x y : spec_float) :
  sign_is false x -> sign_is false y -> sign_is false (SFdiv prec emax x y).
Proof.
  destruct x as [sx|sx| |sx mx ex], y as [sy|sy| |sy my ey]; simpl; auto.
  intros -> ->. destruct (SFdiv_core_binary _ _ _ _ _ _) as [[mz ez] lz].
  apply binary_round_aux_sign.
Qed.

Lemma SFmul_sign (x y : spec_float) :
  sign_is false x -> sign_is false y -> sign_is false (SFmul prec emax x y).
Proof.
  destruct x as [sx|sx| |sx mx ex], y as [sy|sy| |sy my ey]; simpl; auto.
  intros -> ->. apply binary_round_aux_sign.
Qed.

Lemma int_of_spec_float_nonneg (x : spec_float) (k : Z) :
  sign_is false x -> int_of_spec_float x = Some k -> 0 <= k.
Proof.
  destruct x as [s|s| |s m e]; simpl; try discriminate.
  - intros _ [= <-]. lia.
  - intros -> [= <-]. destruct (0 <=? e) eqn:E.
    + apply Z.shiftl_nonneg. lia.
    + apply Z.shiftr_nonneg. lia.
Qed.

(** The truncated product is never negative on byte counts. *)
Lemma percentage_nonneg (d t k : Z) :
  0 <= d -> 0 <= t ->
  py_int (PrimFloat.mul (py_truediv d t) (float_of_int 100)) = Some k ->
  0 <= k.
Proof.
  intros Hd Ht. unfold py_int, py_truediv. rewrite mul_spec, div_spec.
  apply int_of_spec_float_nonneg.
  apply SFmul_sign; [apply SFdiv_sign|]; apply float_of_int_sign; lia.
Qed.

(** With a known total the text is a bar: its percentage is the truncated
    binary64 product capped at 100, between 0 and 100, and the bar has 20
    cells of which [floor(20 * pct / 100)] are filled. *)
Lemma progress_text_known_total (name : string) (d t : Z) (txt : text) :
  0 <= d -> 0 < t -> progress_text name d t = Some txt ->
  exists k bar,
    py_int (PrimFloat.mul (py_truediv d t) (float_of_int 100)) = Some k
    /\ txt = TBar name bar (Z.min k 100) (mb_tenths d) (mb_tenths t)
    /\ 0 <= Z.min k 100 <= 100
    /\ bar = times Full (20 * Z.min k 100 / 100)
              ++ times Empty (20 - 20 * Z.min k 100 / 100)
    /\ length bar = 20%nat.
Proof.
  intros Hd Ht. unfold progress_text.
  destruct (0 <? t) eqn:E; [|apply Z.ltb_ge in E; lia].
  destruct (py_int _) as [k|] eqn:Ek; [|discriminate].
  pose proof (percentage_nonneg d t k Hd (Z.lt_le_incl _ _ Ht) Ek) as Hk.
  destruct (_bar (Z.min k 100) 20) as [bar|] eqn:Eb; [|discriminate].
  intros [= <-]. exists k, bar. split; [reflexivity|]. split; [reflexivity|].
  split; [lia|].
  rewrite bar_exact in Eb by lia. injection Eb as <-.
  split; [reflexivity|]. apply bar_width. lia.
Qed.

(** The percentage is not always the floor of the exact quotient: after
    29 chunks of 8192 bytes out of 819200 the first accepted update renders
    28%, and so does 29 bytes out of 100, because the quotient 0.29 times
    100 is 28.999999999999996 in binary64 and [int] truncates it, while
    [min(floor(downloaded/total*100), 100)] is 29.  The bar is the one of
    28%: 5 cells of 20. *)
Lemma progress_percentage_29_of_100 :
  update 5 237568 819200 (new_tracker "a.bin" 3, [])
  = (Tracker "a.bin" 3 5
       (Some (TBar "a.bin" (times Full 5 ++ times Empty 15) 28 2 8)),
     [TBar "a.bin" (times Full 5 ++ times Empty 15) 28 2 8], false)
  /\ 28 <> Z.min (237568 * 100 / 819200) 100
  /\ update 5 29 100 (new_tracker "a.bin" 3, [])
     = (Tracker "a.bin" 3 5
          (Some (TBar "a.bin" (times Full 5 ++ times Empty 15) 28 0 0)),
        [TBar "a.bin" (times Full 5 ++ times Empty 15) 28 0 0], false)
  /\ 28 <> Z.min (29 * 100 / 100) 100.
Proof.
  split; [vm_compute; reflexivity|]. split; [discriminate|].
  split; [vm_compute; reflexivity|discriminate].
Qed.

(** C9, as the code has it: an accepted update with a known total passes
    to [_edit] a bar text whose percentage is the product
    [downloaded / total * 100], evaluated in binary64 and truncated, capped
    at 100; it lies between 0 and 100 and the bar has 20 cells of which
    [floor(20 * pct / 100)] are filled.  With an unknown total the text
    carries the byte count only.  (Should [int] raise, nothing is
    rendered.) *)
Theorem progress_render (now : Q) (d t : Z) (tr : tracker) (msg : surface) :
  (update_interval tr <= now - last_update tr)%Q -> 0 <= d ->
  let tr' := Tracker (filename tr) (update_interval tr) now (last_text tr) in
  (0 < t ->
   match py_int (PrimFloat.mul (py_truediv d t) (float_of_int 100)) with
   | Some k =>
       let pct := Z.min k 100 in
       let bar := times Full (20 * pct / 100)
                  ++ times Empty (20 - 20 * pct / 100) in
       0 <= pct <= 100 /\ length bar = 20%nat
       /\ update now d t (tr, msg)
          = (_edit (TBar (filename tr) bar pct (mb_tenths d) (mb_tenths t))
               (tr', msg), false)
   | None => update now d t (tr, msg) = (tr', msg, true)
   end)
  /\ (t <= 0 ->
      update now d t (tr, msg)
      = (_edit (TBytes (filename tr) (mb_tenths d)) (tr', msg), false)).
Proof.
  intros Hnow Hd. cbv zeta.
  assert (Hupd : update now d t (tr, msg)
                 = match progress_text (filename tr) d t with
                   | Some txt =>
                       (_edit txt
                          (Tracker (filename tr) (update_interval tr) now
                             (last_text tr), msg), false)
                   | None =>
                       (Tracker (filename tr) (update_interval tr) now
                          (last_text tr), msg, true)
                   end).
  { unfold update. destruct (Qlt_le_dec _ _) as [Hlt|_]; [|reflexivity].
    exfalso. exact (Qlt_not_le _ _ Hlt Hnow). }
  split.
  - intros Ht.
    destruct (progress_text (filename tr) d t) as [txt|] eqn:Etxt.
    + destruct (progress_text_known_total _ _ _ _ Hd Ht Etxt)
        as (k & bar & -> & -> & Hpct & -> & Hlen).
      rewrite Hupd. auto.
    + unfold progress_text in Etxt.
      destruct (0 <? t) eqn:E; [|discriminate].
      destruct (py_int _) as [k|] eqn:Ek; [|exact Hupd].
      exfalso.
      pose proof (percentage_nonneg d t k Hd (Z.lt_le_incl _ _ Ht) Ek).
      rewrite bar_exact in Etxt by lia. discriminate.
  - intros Ht. rewrite Hupd, progress_text_unknown_total by exact Ht.
    reflexivity.
Qed.

Lemma progress_render_witness :
  update 5 29 100 (new_tracker "a.bin" 3, [])
  = (_edit (TBar "a.bin" (times Full 5 ++ times Empty 15) 28 0 0)
       (Tracker "a.bin" 3 5 None, []), false).
Proof.
  destruct (progress_render 5 29 100 (new_tracker "a.bin" 3) []) as [H _].
  - vm_compute. discriminate.
  - lia.
  - assert (Ht : 0 < 100) by lia. specialize (H Ht).
    assert (Hk : py_int (PrimFloat.mul (py_truediv 29 100) (float_of_int 100))
                 = Some 28) by (vm_compute; reflexivity).
    rewrite Hk in H. cbv zeta in H. destruct H as (_ & _ & H). exact H.
Defined.

(** *** De-duplication *)

(** No two neighbours of the list are the same text. *)
Fixpoint adjacent_distinct (l : list text) : Prop :=
  match l with
  | a :: r =>
      match r with
      | b :: _ => a <> b /\ adjacent_distinct r
      | [] => True
      end
  | [] => True
  end.

Lemma adjacent_distinct_snoc (l : list text) (t : text) :
  adjacent_distinct l -> last l <> Some t -> adjacent_distinct (l ++ [t]).
Proof.
  induction l as [|a r IH]; intros Hl Hlast; [exact I|].
  destruct r as [|b r'].
  - simpl in *. split; [congruence|exact I].
  - destruct Hl as [Hab Hr]. simpl app. split; [exact Hab|].
    apply IH; [exact Hr|]. exact Hlast.
Qed.

(** The tracker remembers the text it rendered last, and never rendered
    one text twice in a row. *)
Definition in_sync (st : tracker * surface) : Prop :=
  last_text (fst st) = last (snd st) /\ adjacent_distinct (snd st).

Lemma _edit_in_sync (t : text) (st : tracker * surface) :
  in_sync st -> in_sync (_edit t st).
Proof.
  destruct st as [tr msg]. intros [Hl Ha]. unfold _edit.
  destruct (decide (Some t = last_text tr)) as [He|Hne]; [split; assumption|].
  split; simpl.
  - rewrite last_snoc. reflexivity.
  - apply adjacent_distinct_snoc; [exact Ha|]. simpl in Hl. congruence.
Qed.

Lemma update_in_sync (now : Q) (d t : Z) (st : tracker * surface) :
  in_sync st -> in_sync (fst (update now d t st)).
Proof.
  destruct st as [tr msg]. intros Hs. unfold update.
  destruct (Qlt_le_dec _ _); [exact Hs|].
  cbn [filename].
  destruct (progress_text (filename tr) d t) as [txt|]; cbn [fst].
  - apply (_edit_in_sync txt
             (Tracker (filename tr) (update_interval tr) now (last_text tr),
              msg)).
    exact Hs.
  - exact Hs.
Qed.

Lemma run_updates_in_sync (calls : list call) :
  forall st, in_sync st -> in_sync (run_updates calls st).
Proof.
  induction calls as [|c calls IH]; intros st Hs; [exact Hs|].
  rewrite run_updates_cons. apply IH, update_in_sync, Hs.
Qed.

(** X8: whatever callbacks a new tracker receives, and whether it ends
    with [complete] or [error], it never sends the same text twice in a
    row to the status message. *)
Theorem tracker_never_repeats (name : string) (interval : Q)
        (calls : list call) (reason : string) :
  adjacent_distinct (snd (run_updates calls (new_tracker name interval, [])))
  /\ adjacent_distinct
       (snd (complete (run_updates calls (new_tracker name interval, []))))
  /\ adjacent_distinct
       (snd (error reason
               (run_updates calls (new_tracker name interval, [])))).
Proof.
  assert (Hs : in_sync (run_updates calls (new_tracker name interval, []))).
  { apply run_updates_in_sync. split; [reflexivity|exact I]. }
  split; [exact (proj2 Hs)|]. split.
  - exact (proj2 (_edit_in_sync _ _ Hs)).
  - exact (proj2 (_edit_in_sync _ _ Hs)).
Qed.

(** X9: the final render is de-duplicated: a second [complete] (or a
    second [error] with the same reason) changes nothing, and in general
    editing twice with one text is editing once. *)
Theorem edit_twice_is_once (t : text) (reason : string)
        (st : tracker * surface) :
  _edit t (_edit t st) = _edit t st
  /\ complete (complete st) = complete st
  /\ error reason (error reason st) = error reason st.
Proof.
  assert (H : forall t0 st0, _edit t0 (_edit t0 st0) = _edit t0 st0).
  { intros t0 [tr msg].
    destruct (decide (Some t0 = last_text tr)) as [He|Hne].
    - assert (E : _edit t0 (tr, msg) = (tr, msg))
        by (unfold _edit; rewrite decide_True by exact He; reflexivity).
      rewrite !E. reflexivity.
    - assert (E : _edit t0 (tr, msg)
                  = (Tracker (filename tr) (update_interval tr)
                       (last_update tr) (Some t0), msg ++ [t0]))
        by (unfold _edit; rewrite decide_False by exact Hne; reflexivity).
      rewrite E. unfold _edit. cbn [last_text].
      rewrite decide_True by reflexivity. reflexivity. }
  assert (Hf : forall t0 st0, filename (fst (_edit t0 st0)) = filename (fst st0)).
  { intros t0 [tr msg]. unfold _edit. destruct (decide _); reflexivity. }
  split; [apply H|]. split.
  - unfold complete. rewrite Hf. apply H.
  - unfold error. rewrite Hf. apply H.
Qed.


End Progress.

(** ** The download pipeline: utils/downloader.py, utils/zipper.py,
       services/direct_link_service.py and main.py *)
Module Pipeline.

Import FileUtils.

(** *** Files *)

Definition bytes := list Byte.byte.

(** What a file holds: the bytes written by a download, or the members
    (name and bytes) written by [zipfile]. *)
Inductive content :=
| Raw (data : bytes)
| Zip (entries : list (str * bytes)).

(** A [Path]: the directory and the final component. *)
Record path := Path { parent : str; name : str }.

#[global] Instance path_eq_dec : EqDecision path.
Proof. solve_decision. Defined.

(** The directories under [TEMP_DIR], each a map from file name to
    content. *)
Abbreviation filesystem := (gmap str (gmap str content)).

Definition lookup_file (fs : filesystem) (p : path) : option content :=
  match fs !! parent p with
  | Some d => d !! name p
  | None => None
  end.

(** [p.exists()] *)
Definition path_exists (fs : filesystem) (p : path) : bool :=
  match lookup_file fs p with Some _ => true | None => false end.

(** [p.unlink(missing_ok=True)] *)
Definition unlink (p : path) (fs : filesystem) : filesystem :=
  alter (delete (name p)) (parent p) fs.

(** [open(p, "wb")]: creates or truncates; [None] when the directory is
    missing and the call raises. *)
Definition open_wb (p : path) (fs : filesystem) : option filesystem :=
  match fs !! parent p with
  | Some d => Some (<[parent p := <[name p := Raw []]> d]> fs)
  | None => None
  end.

Definition append (chunk : bytes) (c : content) : content :=
  match c with
  | Raw data => Raw (data ++ chunk)
  | Zip entries => Zip entries
  end.

(** [fp.write(chunk)] on the file opened at [p]. *)
Definition write (p : path) (chunk : bytes) (fs : filesystem) : filesystem :=
  alter (alter (append chunk) (name p)) (parent p) fs.

(** [path.mkdir(parents=True, exist_ok=True)] *)
Definition mkdir (dir : str) (fs : filesystem) : filesystem :=
  match fs !! dir with
  | Some _ => fs
  | None => <[dir := ∅]> fs
  end.

(** [shutil.rmtree(path)] *)
Definition rmtree (dir : str) (fs : filesystem) : filesystem := delete dir fs.

(** The number of bytes a download has put in a file. *)
Definition raw_size (c : content) : Z :=
  match c with
  | Raw data => Z.of_nat (length data)
  | Zip _ => 0
  end.

(** *** The network *)

(** The [Content-Length] header: missing, an integer, or text on which
    [int] raises. *)
Inductive header := NoLength | Length (n : Z) | BadLength.

(** How the body stream ends: normally, or with a transport error or the
    timeout. *)
Inductive ending := Eof | Broken.

(** The answer to one GET: an error before any response, or a status, the
    header, and the chunks that [iter_chunked] yields before the stream
    ends. *)
Inductive reply :=
| Refused
| Response (status : Z) (h : header) (chunks : list bytes) (e : ending).

(** What the downloader changes: the files, the delays passed to
    [asyncio.sleep], and the number of GET requests issued. *)
Record world := World {
  fs : filesystem;
  sleeps : list Z;
  requests : nat
}.

Definition set_fs (f : filesystem -> filesystem) (w : world) : world :=
  World (f (fs w)) (sleeps w) (requests w).

(** A call returns a value or raises an exception. *)
Inductive outcome (A : Type) :=
| Return (a : A)
| Raise.
Arguments Return {A} a.
Arguments Raise {A}.

Definition add_sleep (delay : Z) (w : world) : world :=
  World (fs w) (sleeps w ++ [delay]) (requests w).

Definition count_request (w : world) : world :=
  World (fs w) (sleeps w) (S (requests w)).

(** *** Decimal rendering of the collision counter *)

Fixpoint digits (d : Decimal.uint) : str :=
  match d with
  | Decimal.Nil => []
  | Decimal.D0 r => "0"%char :: digits r
  | Decimal.D1 r => "1"%char :: digits r
  | Decimal.D2 r => "2"%char :: digits r
  | Decimal.D3 r => "3"%char :: digits r
  | Decimal.D4 r => "4"%char :: digits r
  | Decimal.D5 r => "5"%char :: digits r
  | Decimal.D6 r => "6"%char :: digits r
  | Decimal.D7 r => "7"%char :: digits r
  | Decimal.D8 r => "8"%char :: digits r
  | Decimal.D9 r => "9"%char :: digits r
  end.

(** [f"{counter}"] *)
Definition dec (z : Z) : str :=
  match z with
  | Zneg p => "-"%char :: digits (Pos.to_uint p)
  | _ => digits (N.to_uint (Z.to_N z))
  end.

(** *** utils/downloader.py *)

Section Downloader.

(** The server: the reply to a GET of a URL, given how many requests were
    issued before it. *)
Variable net : str -> nat -> reply.

(** [Path(unquote(urlparse(url).path)).name]; [None] when [urlparse]
    raises [ValueError]. *)
Variable raw_name_of_url : str -> option str.

(** Whether the file system answers a [stat] of the path.  It does not
    when a component is longer than the file system allows: [Path.exists]
    then raises [OSError], ENAMETOOLONG not being one of the errors it
    reads as a missing file. *)
Variable stat_ok : path -> bool.

(** The state a progress callback works on; the callback tells whether it
    raised. *)
Context {St : Type}.
Definition callback := Z -> Z -> St -> St * bool.

(** The [async for] loop of [_stream_download]: the states of the world
    after each file operation, the final state and the outcome. *)
Fixpoint stream_chunks (dest : path) (cb : option callback)
    (max_size content_length : Z) (chunks : list bytes) (e : ending)
    (downloaded : Z) (w : world) (s : St)
  : list world * (world * St * outcome (option path)) :=
  match chunks with
  | [] =>
      match e with
      | Eof => ([], (w, s, Return (Some dest)))
      | Broken => ([], (w, s, Raise))
      end
  | chunk :: rest =>
      let downloaded := downloaded + Z.of_nat (length chunk) in
      if max_size <? downloaded then
        let w1 := set_fs (unlink dest) w in
        ([w1], (w1, s, Return None))
      else
        let w1 := set_fs (write dest chunk) w in
        match cb with
        | Some f =>
            let '(s1, raised) := f downloaded content_length s in
            if raised : bool then ([w1], (w1, s1, Raise))
            else
              let '(tr, r) :=
                stream_chunks dest cb max_size content_length rest e
                  downloaded w1 s1 in
              (w1 :: tr, r)
        | None =>
            let '(tr, r) :=
              stream_chunks dest cb max_size content_length rest e
                downloaded w1 s in
            (w1 :: tr, r)
        end
  end.

Definition _stream_download (url : str) (dest : path) (cb : option callback)
    (max_size : Z) (w : world) (s : St)
  : list world * (world * St * outcome (option path)) :=
  let r := net url (requests w) in
  let w := count_request w in
  match r with
  | Refused => ([], (w, s, Raise))
  | Response status h chunks e =>
      if negb (status =? 200) then ([], (w, s, Return None))
      else
        match h with
        | BadLength => ([], (w, s, Raise))
        | _ =>
            let content_length := match h with Length n => n | _ => 0 end in
            if negb (content_length =? 0) && (max_size <? content_length)
            then ([], (w, s, Return None))
            else
              match open_wb dest (fs w) with
              | None => ([], (w, s, Raise))
              | Some fs1 =>
                  let w1 := set_fs (fun _ => fs1) w in
                  let '(tr, r) :=
                    stream_chunks dest cb max_size content_length chunks e
                      0 w1 s in
                  (w1 :: tr, r)
              end
        end
  end.

(** [_extract_filename] *)
Definition _extract_filename (url : str) : option str :=
  match raw_name_of_url url with
  | None => None
  | Some raw =>
      let raw :=
        match raw with
        | [] => list_ascii_of_string "downloaded_file"
        | _ => if decide (raw = ["/"%char])
               then list_ascii_of_string "downloaded_file" else raw
        end in
      Some (sanitize_filename raw)
  end.

(** [dest_path.exists()] in [download_file]: it raises when the file
    system refuses the path. *)
Definition dest_exists (files : filesystem) (dest : path) : outcome bool :=
  if stat_ok dest then Return (path_exists files dest) else Raise.

(** The [while dest_path.exists()] loop: it returns the first free name
    or raises with [exists]; [None] when [fuel] iterations reach
    neither. *)
Fixpoint pick_dest (fuel : nat) (files : filesystem) (dest_dir : str)
    (original_stem : str) (counter : Z) (dest : path)
  : option (outcome path) :=
  match dest_exists files dest with
  | Raise => Some Raise
  | Return true =>
      match fuel with
      | O => None
      | S fuel' =>
          pick_dest fuel' files dest_dir original_stem (counter + 1)
            (Path dest_dir
               (original_stem ++ "_"%char :: dec counter
                  ++ path_suffix (name dest)))
      end
  | Return false => Some (Return dest)
  end.

(** The names in use in a directory. *)
Definition dir_size (files : filesystem) (dest_dir : str) : nat :=
  match files !! dest_dir with
  | Some d => size d
  | None => 0
  end.

(** The destination, or the exception of [exists]: the loop stops within
    as many iterations as the directory has files, plus one
    ([pick_dest_total]). *)
Definition choose_dest (files : filesystem) (dest_dir filename : str)
  : outcome path :=
  default (Return (Path dest_dir filename))
    (pick_dest (2 + dir_size files dest_dir) files dest_dir
       (path_stem filename) 1 (Path dest_dir filename)).

(** The [for attempt in range(1, retries + 1)] loop, [n] attempts being
    left: the path of the first attempt that succeeds, if any. *)
Fixpoint attempts (n : nat) (attempt retries : Z) (url : str) (dest : path)
    (cb : option callback) (max_size : Z) (w : world) (s : St)
  : world * St * option path :=
  match n with
  | O => (w, s, None)
  | S n' =>
      let '(_, (w1, s1, r)) := _stream_download url dest cb max_size w s in
      match r with
      | Return (Some p) => (w1, s1, Some p)
      | _ =>
          let w2 := if attempt <? retries then add_sleep (2 ^ attempt) w1
                    else w1 in
          attempts n' (attempt + 1) retries url dest cb max_size w2 s1
      end
  end.

Definition download_file (url : str) (dest_dir : str) (cb : option callback)
    (max_size retries : Z) (w : world) (s : St)
  : world * St * outcome (option path) :=
  match _extract_filename url with
  | None => (w, s, Raise)
  | Some filename =>
      match choose_dest (fs w) dest_dir filename with
      | Raise => (w, s, Raise)
      | Return dest =>
          match attempts (Z.to_nat retries) 1 retries url dest cb max_size w s
          with
          | (w1, s1, Some p) => (w1, s1, Return (Some p))
          | (w1, s1, None) => (set_fs (unlink dest) w1, s1, Return None)
          end
      end
  end.

(** **** Files: what each operation does to a path *)

Lemma lookup_unlink_eq (p : path) (files : filesystem) :
  lookup_file (unlink p files) p = None.
Proof.
  unfold lookup_file, unlink. rewrite lookup_alter_eq.
  destruct (files !! parent p); simpl; [apply lookup_delete_eq|reflexivity].
Qed.

Lemma lookup_write_eq (p : path) (chunk : bytes) (files : filesystem) :
  lookup_file (write p chunk files) p
  = append chunk <$> lookup_file files p.
Proof.
  unfold lookup_file, write. rewrite lookup_alter_eq.
  destruct (files !! parent p); simpl; [apply lookup_alter_eq|reflexivity].
Qed.

Lemma lookup_open_wb_eq (p : path) (files files1 : filesystem) :
  open_wb p files = Some files1 -> lookup_file files1 p = Some (Raw []).
Proof.
  unfold open_wb, lookup_file. destruct (files !! parent p); [|discriminate].
  intros [= <-]. rewrite lookup_insert_eq. apply lookup_insert_eq.
Qed.

Lemma unlink_write (p : path) (chunk : bytes) (files : filesystem) :
  unlink p (write p chunk files) = unlink p files.
Proof.
  apply map_eq. intros k. unfold unlink, write.
  destruct (decide (parent p = k)) as [<-|Hne].
  - rewrite !lookup_alter_eq.
    destruct (files !! parent p) as [d|]; simpl; [|reflexivity].
    f_equal. apply delete_alter_eq.
  - rewrite !lookup_alter_ne by exact Hne. reflexivity.
Qed.

Lemma unlink_open_wb (p : path) (files files1 : filesystem) :
  open_wb p files = Some files1 -> unlink p files1 = unlink p files.
Proof.
  unfold open_wb. destruct (files !! parent p) as [d|] eqn:E; [|discriminate].
  intros [= <-]. apply map_eq. intros k. unfold unlink.
  destruct (decide (parent p = k)) as [<-|Hne].
  - rewrite !lookup_alter_eq, lookup_insert_eq, E. simpl. f_equal.
    apply delete_insert_eq.
  - rewrite !lookup_alter_ne, lookup_insert_ne by exact Hne. reflexivity.
Qed.

Lemma unlink_unlink (p : path) (files : filesystem) :
  unlink p (unlink p files) = unlink p files.
Proof.
  apply map_eq. intros k. unfold unlink.
  destruct (decide (parent p = k)) as [<-|Hne].
  - rewrite !lookup_alter_eq.
    destruct (files !! parent p) as [d|]; simpl; [|reflexivity].
    f_equal. apply delete_delete_eq.
  - rewrite !lookup_alter_ne by exact Hne. reflexivity.
Qed.

Lemma unlink_absent (p : path) (files : filesystem) :
  lookup_file files p = None -> unlink p files = files.
Proof.
  unfold lookup_file. intros H. apply map_eq. intros k. unfold unlink.
  destruct (decide (parent p = k)) as [<-|Hne].
  - rewrite lookup_alter_eq.
    destruct (files !! parent p) as [d|]; simpl; [|reflexivity].
    f_equal. apply delete_id, H.
  - rewrite lookup_alter_ne by exact Hne. reflexivity.
Qed.

(** The bytes of a body. *)
Definition total_len (chunks : list bytes) : Z :=
  fold_right (fun c acc => Z.of_nat (length c) + acc) 0 chunks.

(** **** The size guard while streaming *)

(** The file at [dest], if there is one, holds at most [max_size] bytes. *)
Definition within (max_size : Z) (dest : path) (w : world) : Prop :=
  match lookup_file (fs w) dest with
  | Some c => raw_size c <= max_size
  | None => True
  end.

(** The file at [dest], if there is one, holds the [downloaded] bytes
    counted so far. *)
Definition in_step (downloaded : Z) (dest : path) (w : world) : Prop :=
  match lookup_file (fs w) dest with
  | Some c => exists data, c = Raw data /\ Z.of_nat (length data) = downloaded
  | None => True
  end.

Lemma stream_chunks_within (dest : path) (cb : option callback)
      (max_size content_length : Z) (chunks : list bytes) (e : ending) :
  forall (downloaded : Z) (w : world) (s : St),
    in_step downloaded dest w ->
    Forall (within max_size dest)
      (fst (stream_chunks dest cb max_size content_length chunks e
              downloaded w s)).
Proof.
  induction chunks as [|chunk rest IH]; intros downloaded w s Hstep; simpl.
  - destruct e; constructor.
  - destruct (max_size <? downloaded + Z.of_nat (length chunk)) eqn:Hcmp.
    + constructor; [|constructor].
      unfold within. simpl. rewrite lookup_unlink_eq. exact I.
    + apply Z.ltb_ge in Hcmp.
      set (w1 := set_fs (write dest chunk) w).
      assert (Hstep1 : in_step (downloaded + Z.of_nat (length chunk)) dest w1).
      { unfold in_step, w1 in *. simpl. rewrite lookup_write_eq.
        destruct (lookup_file (fs w) dest) as [c|]; simpl; [|exact I].
        destruct Hstep as (data & -> & Hlen). exists (data ++ chunk).
        split; [reflexivity|]. rewrite length_app. lia. }
      assert (Hin1 : within max_size dest w1).
      { unfold within. unfold in_step in Hstep1.
        destruct (lookup_file (fs w1) dest) as [c|]; [|exact I].
        destruct Hstep1 as (data & -> & Hlen). simpl. lia. }
      destruct cb as [f|].
      * destruct (f _ _ s) as [s1 [|]].
        -- constructor; [exact Hin1|constructor].
        -- specialize (IH _ w1 s1 Hstep1).
           destruct (stream_chunks _ _ _ _ rest e _ w1 s1) as [tr r].
           constructor; [exact Hin1|exact IH].
      * specialize (IH _ w1 s Hstep1).
        destruct (stream_chunks _ _ _ _ rest e _ w1 s) as [tr r].
        constructor; [exact Hin1|exact IH].
Qed.

(** C10: during a streamed download the file at the destination never
    holds more than [max_size] bytes: this is so after the file is opened,
    after every write and after the unlink of an oversized download. *)
Theorem stream_download_never_exceeds (url : str) (dest : path)
        (cb : option callback) (max_size : Z) (w : world) (s : St) :
  0 <= max_size ->
  Forall (within max_size dest)
    (fst (_stream_download url dest cb max_size w s)).
Proof.
  intros Hmax. unfold _stream_download.
  destruct (net url (requests w)) as [|status h chunks e]; [constructor|].
  destruct (negb (status =? 200)); [constructor|].
  assert (Hgo : forall content_length,
    Forall (within max_size dest)
      (fst (match open_wb dest (fs (count_request w)) with
            | Some fs1 =>
                let w1 := set_fs (fun _ => fs1) (count_request w) in
                let '(tr, r) :=
                  stream_chunks dest cb max_size content_length chunks e
                    0 w1 s in
                (w1 :: tr, r)
            | None => ([], (count_request w, s, Raise))
            end))).
  { intros cl. destruct (open_wb dest _) as [fs1|] eqn:Hopen; [|constructor].
    apply lookup_open_wb_eq in Hopen.
    set (w1 := set_fs (fun _ => fs1) (count_request w)).
    assert (Hstep : in_step 0 dest w1).
    { unfold in_step, w1. simpl. rewrite Hopen. exists []. auto. }
    pose proof (stream_chunks_within dest cb max_size cl chunks e 0 w1 s Hstep)
      as Htr.
    cbv zeta. destruct (stream_chunks _ _ _ _ chunks e _ w1 s) as [tr r].
    constructor; [|exact Htr].
    unfold within, w1. simpl. rewrite Hopen. simpl. exact Hmax. }
  destruct h as [|n|].
  - simpl negb. simpl andb. cbv zeta. apply Hgo.
  - cbv zeta. destruct (negb (n =? 0) && (max_size <? n)); [constructor|].
    apply Hgo.
  - constructor.
Qed.

(** **** What an attempt leaves behind *)

(** Only the file at [dest] may differ after the loop; a path is returned
    only when the stream ended normally, and it is [dest], still there. *)
Lemma stream_chunks_frame (dest : path) (cb : option callback)
      (max_size content_length : Z) (chunks : list bytes) (e : ending) :
  forall (downloaded : Z) (w : world) (s : St),
    let x := stream_chunks dest cb max_size content_length chunks e
               downloaded w s in
    unlink dest (fs x.2.1.1) = unlink dest (fs w)
    /\ sleeps x.2.1.1 = sleeps w
    /\ requests x.2.1.1 = requests w
    /\ forall p, x.2.2 = Return (Some p) ->
         p = dest /\ e = Eof
         /\ (is_Some (lookup_file (fs w) dest) ->
             is_Some (lookup_file (fs x.2.1.1) dest)).
Proof.
  induction chunks as [|chunk rest IH]; intros downloaded w s; simpl.
  - split; [destruct e; reflexivity|]. split; [destruct e; reflexivity|].
    split; [destruct e; reflexivity|].
    intros p. destruct e; simpl; [|discriminate].
    intros [= <-]. auto.
  - destruct (max_size <? downloaded + Z.of_nat (length chunk)).
    + simpl. rewrite unlink_unlink.
      split; [reflexivity|]. split; [reflexivity|]. split; [reflexivity|].
      discriminate.
    + set (w1 := set_fs (write dest chunk) w).
      assert (Hw1 : unlink dest (fs w1) = unlink dest (fs w))
        by apply unlink_write.
      assert (Hex : is_Some (lookup_file (fs w) dest) ->
                    is_Some (lookup_file (fs w1) dest)).
      { unfold w1. simpl. rewrite lookup_write_eq.
        intros [c ->]. simpl. eauto. }
      destruct cb as [f|].
      * destruct (f _ _ s) as [s1 [|]].
        -- simpl. split; [exact Hw1|]. split; [reflexivity|].
           split; [reflexivity|]. discriminate.
        -- specialize (IH (downloaded + Z.of_nat (length chunk)) w1 s1).
           destruct (stream_chunks _ _ _ _ rest e _ w1 s1)
             as [tr [[w' s'] r]].
           simpl in *. destruct IH as (H1 & H2 & H3 & H4).
           rewrite H1, Hw1. split; [reflexivity|]. split; [exact H2|].
           split; [exact H3|]. intros p Hp.
           destruct (H4 p Hp) as (Hd & He & Hs). auto.
      * specialize (IH (downloaded + Z.of_nat (length chunk)) w1 s).
        destruct (stream_chunks _ _ _ _ rest e _ w1 s) as [tr [[w' s'] r]].
        simpl in *. destruct IH as (H1 & H2 & H3 & H4).
        rewrite H1, Hw1. split; [reflexivity|]. split; [exact H2|].
        split; [exact H3|]. intros p Hp.
        destruct (H4 p Hp) as (Hd & He & Hs). auto.
Qed.

(** A path is returned only when the whole body fits. *)
Lemma stream_chunks_fits (dest : path) (cb : option callback)
      (max_size content_length : Z) (chunks : list bytes) (e : ending) :
  forall (downloaded : Z) (w : world) (s : St) (p : path),
    downloaded <= max_size ->
    (stream_chunks dest cb max_size content_length chunks e
       downloaded w s).2.2 = Return (Some p) ->
    downloaded + total_len chunks <= max_size.
Proof.
  induction chunks as [|chunk rest IH]; intros downloaded w s p Hle; simpl.
  - intros _. lia.
  - destruct (max_size <? downloaded + Z.of_nat (length chunk)) eqn:Hcmp;
      [discriminate|].
    apply Z.ltb_ge in Hcmp.
    destruct cb as [f|].
    + destruct (f _ _ s) as [s1 [|]]; [discriminate|].
      specialize (IH (downloaded + Z.of_nat (length chunk))
                    (set_fs (write dest chunk) w) s1 p Hcmp).
      destruct (stream_chunks _ _ _ _ rest e _ _ s1) as [tr [[w' s'] r]].
      simpl in *. intros Hr. specialize (IH Hr). lia.
    + specialize (IH (downloaded + Z.of_nat (length chunk))
                    (set_fs (write dest chunk) w) s p Hcmp).
      destruct (stream_chunks _ _ _ _ rest e _ _ s) as [tr [[w' s'] r]].
      simpl in *. intros Hr. specialize (IH Hr). lia.
Qed.


(** The loop returns [None] only through its size guard, which has just
    deleted the file. *)
Lemma stream_chunks_rejected (dest : path) (cb : option callback)
      (max_size content_length : Z) (chunks : list bytes) (e : ending) :
  forall (downloaded : Z) (w : world) (s : St),
    let x := stream_chunks dest cb max_size content_length chunks e
               downloaded w s in
    x.2.2 = Return None -> lookup_file (fs x.2.1.1) dest = None.
Proof.
  induction chunks as [|chunk rest IH]; intros downloaded w s; simpl.
  - destruct e; discriminate.
  - destruct (max_size <? downloaded + Z.of_nat (length chunk)).
    + simpl. intros _. apply lookup_unlink_eq.
    + destruct cb as [f|].
      * destruct (f _ _ s) as [s1 [|]]; [discriminate|].
        specialize (IH (downloaded + Z.of_nat (length chunk))
                      (set_fs (write dest chunk) w) s1).
        destruct (stream_chunks _ _ _ _ rest e _ _ s1) as [tr [[w' s'] r]].
        exact IH.
      * specialize (IH (downloaded + Z.of_nat (length chunk))
                      (set_fs (write dest chunk) w) s).
        destruct (stream_chunks _ _ _ _ rest e _ _ s) as [tr [[w' s'] r]].
        exact IH.
Qed.

(** One attempt: a request is counted, no delay is added, only the file at
    [dest] may differ; it succeeds only on a 200 response whose stream
    ends normally and whose body fits, and then [dest] is on disk. *)
Lemma stream_download_frame (url : str) (dest : path) (cb : option callback)
      (max_size : Z) (w : world) (s : St) :
  let x := _stream_download url dest cb max_size w s in
  unlink dest (fs x.2.1.1) = unlink dest (fs w)
  /\ sleeps x.2.1.1 = sleeps w
  /\ requests x.2.1.1 = S (requests w)
  /\ forall p, x.2.2 = Return (Some p) ->
       p = dest /\ is_Some (lookup_file (fs x.2.1.1) dest)
       /\ exists h chunks,
           net url (requests w) = Response 200 h chunks Eof
           /\ (0 <= max_size -> total_len chunks <= max_size).
Proof.
  unfold _stream_download.
  destruct (net url (requests w)) as [|status h chunks e].
  { simpl. repeat split; discriminate. }
  destruct (status =? 200) eqn:Hst; simpl negb; cbv iota.
  2:{ simpl. repeat split; discriminate. }
  apply Z.eqb_eq in Hst. subst status.
  assert (Hgo : forall content_length,
    let x := match open_wb dest (fs (count_request w)) with
             | Some fs1 =>
                 let w1 := set_fs (fun _ => fs1) (count_request w) in
                 let '(tr, r) :=
                   stream_chunks dest cb max_size content_length chunks e
                     0 w1 s in
                 (w1 :: tr, r)
             | None => ([], (count_request w, s, Raise))
             end in
    unlink dest (fs x.2.1.1) = unlink dest (fs w)
    /\ sleeps x.2.1.1 = sleeps w
    /\ requests x.2.1.1 = S (requests w)
    /\ forall p, x.2.2 = Return (Some p) ->
         p = dest /\ is_Some (lookup_file (fs x.2.1.1) dest)
         /\ exists h0 chunks0,
             Response 200 h chunks e = Response 200 h0 chunks0 Eof
             /\ (0 <= max_size -> total_len chunks0 <= max_size)).
  { intros cl. destruct (open_wb dest _) as [fs1|] eqn:Hopen.
    2:{ simpl. repeat split; discriminate. }
    cbv zeta. set (w1 := set_fs (fun _ => fs1) (count_request w)).
    pose proof (stream_chunks_frame dest cb max_size cl chunks e 0 w1 s)
      as Hfr.
    pose proof (stream_chunks_fits dest cb max_size cl chunks e 0 w1 s)
      as Hfit.
    destruct (stream_chunks _ _ _ _ chunks e 0 w1 s) as [tr [[w' s'] r]].
    simpl in *. destruct Hfr as (H1 & H2 & H3 & H4).
    rewrite H1. split; [exact (unlink_open_wb _ _ _ Hopen)|].
    split; [exact H2|]. split; [exact H3|].
    intros p Hp. destruct (H4 p Hp) as (-> & -> & Hs).
    split; [reflexivity|]. split.
    - apply Hs. rewrite (lookup_open_wb_eq _ _ _ Hopen). eauto.
    - exists h, chunks. split; [reflexivity|].
      intros Hmax. specialize (Hfit dest Hmax Hp). lia. }
  destruct h as [|n|].
  - simpl andb. cbv iota zeta. apply Hgo.
  - cbv zeta. destruct (negb (n =? 0) && (max_size <? n)).
    + simpl. repeat split; discriminate.
    + apply Hgo.
  - simpl. repeat split; discriminate.
Qed.

(** The pre-flight check: a declared length above the limit ends the
    attempt before any file operation. *)
Lemma stream_download_preflight (url : str) (dest : path)
      (cb : option callback) (max_size : Z) (w : world) (s : St)
      (n : Z) (chunks : list bytes) (e : ending) :
  net url (requests w) = Response 200 (Length n) chunks e ->
  0 <= max_size < n ->
  _stream_download url dest cb max_size w s
  = ([], (count_request w, s, Return None)).
Proof.
  intros Hnet Hn. unfold _stream_download. rewrite Hnet. simpl.
  destruct (n =? 0) eqn:E0; [apply Z.eqb_eq in E0; lia|].
  destruct (max_size <? n) eqn:E1; [reflexivity|].
  apply Z.ltb_ge in E1. lia.
Qed.

(** Past the pre-flight check, an attempt that returns [None] has deleted
    the partial file. *)
Lemma stream_download_rejected (url : str) (dest : path)
      (cb : option callback) (max_size : Z) (w : world) (s : St) :
  let x := _stream_download url dest cb max_size w s in
  x.2.2 = Return None -> x.1 <> [] ->
  lookup_file (fs x.2.1.1) dest = None.
Proof.
  unfold _stream_download.
  destruct (net url (requests w)) as [|status h chunks e];
    [simpl; congruence|].
  destruct (negb (status =? 200)); [simpl; congruence|].
  assert (Hgo : forall content_length,
    let x := match open_wb dest (fs (count_request w)) with
             | Some fs1 =>
                 let w1 := set_fs (fun _ => fs1) (count_request w) in
                 let '(tr, r) :=
                   stream_chunks dest cb max_size content_length chunks e
                     0 w1 s in
                 (w1 :: tr, r)
             | None => ([], (count_request w, s, Raise))
             end in
    x.2.2 = Return None -> x.1 <> [] ->
    lookup_file (fs x.2.1.1) dest = None).
  { intros cl. destruct (open_wb dest _) as [fs1|]; [|simpl; congruence].
    cbv zeta. set (w1 := set_fs (fun _ => fs1) (count_request w)).
    pose proof (stream_chunks_rejected dest cb max_size cl chunks e 0 w1 s)
      as Hrej.
    destruct (stream_chunks _ _ _ _ chunks e 0 w1 s) as [tr [[w' s'] r]].
    simpl in *. auto. }
  destruct h as [|n|].
  - simpl andb. cbv iota zeta. apply Hgo.
  - cbv zeta. destruct (negb (n =? 0) && (max_size <? n));
      [simpl; congruence|apply Hgo].
  - simpl; congruence.
Qed.


(** **** The retry loop *)

(** The delays slept by [n] failed attempts, the first numbered
    [attempt]. *)
Fixpoint delays (n : nat) (attempt retries : Z) : list Z :=
  match n with
  | O => []
  | S n' =>
      (if attempt <? retries then [2 ^ attempt] else [])
        ++ delays n' (attempt + 1) retries
  end.

(** A reply on which no attempt can succeed: anything but a 200 response
    whose stream ends normally with a body within the limit. *)
Definition hopeless (max_size : Z) (r : reply) : Prop :=
  forall h chunks, r = Response 200 h chunks Eof ->
                   0 <= max_size /\ max_size < total_len chunks.

Lemma hopeless_fails (url : str) (dest : path) (cb : option callback)
      (max_size : Z) (w : world) (s : St) (p : path) :
  hopeless max_size (net url (requests w)) ->
  (_stream_download url dest cb max_size w s).2.2 <> Return (Some p).
Proof.
  intros Hh Hp.
  destruct (stream_download_frame url dest cb max_size w s)
    as (_ & _ & _ & H4).
  destruct (H4 p Hp) as (_ & _ & h & chunks & Hnet & Hfit).
  destruct (Hh h chunks Hnet) as [Hmax Hbig].
  specialize (Hfit Hmax). lia.
Qed.

Lemma attempts_frame (retries : Z) (url : str) (dest : path)
      (cb : option callback) (max_size : Z) (n : nat) :
  forall (attempt : Z) (w : world) (s : St),
    let y := attempts n attempt retries url dest cb max_size w s in
    unlink dest (fs y.1.1) = unlink dest (fs w)
    /\ forall p, y.2 = Some p ->
         p = dest /\ is_Some (lookup_file (fs y.1.1) dest).
Proof.
  induction n as [|n IH]; intros attempt w s; simpl.
  - split; [reflexivity|discriminate].
  - pose proof (stream_download_frame url dest cb max_size w s) as Hfr.
    destruct (_stream_download url dest cb max_size w s)
      as [tr [[w1 s1] r]].
    simpl in Hfr. destruct Hfr as (H1 & _ & _ & H4).
    assert (Hretry :
      let y := attempts n (attempt + 1) retries url dest cb max_size
                 (if attempt <? retries then add_sleep (2 ^ attempt) w1
                  else w1) s1 in
      unlink dest (fs y.1.1) = unlink dest (fs w)
      /\ forall p, y.2 = Some p ->
           p = dest /\ is_Some (lookup_file (fs y.1.1) dest)).
    { specialize (IH (attempt + 1)
                    (if attempt <? retries then add_sleep (2 ^ attempt) w1
                     else w1) s1).
      cbv zeta in *. destruct IH as [Ha Hb]. split; [|exact Hb].
      rewrite Ha, <- H1. destruct (attempt <? retries); reflexivity. }
    destruct r as [[p|]|]; try exact Hretry.
    simpl. split; [exact H1|]. intros q [= <-].
    destruct (H4 p eq_refl) as (Hp & Hs & _). auto.
Qed.

(** When no reply can succeed, the loop makes its [n] attempts, sleeps
    between them and finds nothing. *)
Lemma attempts_exhausted (retries : Z) (url : str) (dest : path)
      (cb : option callback) (max_size : Z) (n : nat) :
  (forall k, hopeless max_size (net url k)) ->
  forall (attempt : Z) (w : world) (s : St),
    let y := attempts n attempt retries url dest cb max_size w s in
    y.2 = None
    /\ requests y.1.1 = (requests w + n)%nat
    /\ sleeps y.1.1 = sleeps w ++ delays n attempt retries.
Proof.
  intros Hnet. induction n as [|n IH]; intros attempt w s; simpl.
  - rewrite app_nil_r. auto.
  - pose proof (stream_download_frame url dest cb max_size w s) as Hfr.
    pose proof (fun p => hopeless_fails url dest cb max_size w s p
                           (Hnet (requests w))) as Hfail.
    destruct (_stream_download url dest cb max_size w s)
      as [tr [[w1 s1] r]].
    simpl in Hfr, Hfail. destruct Hfr as (_ & H2 & H3 & _).
    assert (Hretry :
      let y := attempts n (attempt + 1) retries url dest cb max_size
                 (if attempt <? retries then add_sleep (2 ^ attempt) w1
                  else w1) s1 in
      y.2 = None
      /\ requests y.1.1 = (requests w + S n)%nat
      /\ sleeps y.1.1
         = sleeps w ++ (if attempt <? retries then [2 ^ attempt] else [])
             ++ delays n (attempt + 1) retries).
    { specialize (IH (attempt + 1)
                    (if attempt <? retries then add_sleep (2 ^ attempt) w1
                     else w1) s1).
      cbv zeta in *. destruct IH as (Ha & Hb & Hc).
      split; [exact Ha|]. rewrite Hb, Hc.
      destruct (attempt <? retries); simpl; rewrite H2, H3.
      - split; [lia|]. rewrite <- app_assoc. reflexivity.
      - split; [lia|reflexivity]. }
    destruct r as [[p|]|]; try exact Hretry.
    exfalso. exact (Hfail p eq_refl).
Qed.


(** The delays of a whole run are the powers of two from 2^1 up to
    2^(retries - 1), an increasing sequence. *)
Fixpoint powers (a : Z) (m : nat) : list Z :=
  match m with
  | O => []
  | S m' => 2 ^ a :: powers (a + 1) m'
  end.


Lemma powers_map (m : nat) :
  forall a, 0 <= a ->
    powers a m = map (fun k => 2 ^ Z.of_nat k) (seq (Z.to_nat a) m).
Proof.
  induction m as [|m IH]; intros a Ha; simpl; [reflexivity|].
  rewrite Z2Nat.id by lia. f_equal.
  rewrite IH by lia. f_equal. f_equal. lia.
Qed.





(** **** The collision loop ends on a free name *)

Definition is_digit (c : ascii) : Prop := c <> "."%char.

(** Empty, or starting with a dot: the shape of a [suffix]. *)
Definition dotted (s : str) : Prop :=
  match s with
  | [] => True
  | c :: _ => c = "."%char
  end.

Lemma digits_no_dot (d : Decimal.uint) : Forall is_digit (digits d).
Proof. induction d; simpl; constructor; auto; discriminate. Qed.

Lemma digits_inj (d d' : Decimal.uint) : digits d = digits d' -> d = d'.
Proof.
  revert d'. induction d; destruct d'; simpl; intros H;
    try discriminate; try reflexivity;
    injection H as H; f_equal; auto.
Qed.

Lemma dec_inj (j k : Z) : 0 <= j -> 0 <= k -> dec j = dec k -> j = k.
Proof.
  intros Hj Hk H.
  assert (Hn : Z.to_N j = Z.to_N k).
  { apply DecimalN.Unsigned.to_uint_inj, digits_inj.
    destruct j, k; try lia; exact H. }
  lia.
Qed.

Lemma dec_no_dot (k : Z) : 0 <= k -> Forall is_digit (dec k).
Proof. intros Hk. destruct k; try lia; apply digits_no_dot. Qed.

(** Two runs of digits followed by suffixes: the runs are the same. *)
Lemma digits_split (l1 : str) :
  forall (l2 a b : str),
    Forall is_digit l1 -> Forall is_digit l2 -> dotted a -> dotted b ->
    l1 ++ a = l2 ++ b -> l1 = l2.
Proof.
  induction l1 as [|c l1 IH]; intros l2 a b H1 H2 Ha Hb Heq.
  - destruct l2 as [|c l2]; [reflexivity|]. simpl in Heq. subst a.
    simpl in Ha. apply Forall_cons in H2 as [Hc _]. contradiction.
  - destruct l2 as [|c' l2].
    + simpl in Heq. subst b. simpl in Hb.
      apply Forall_cons in H1 as [Hc _]. contradiction.
    + simpl in Heq. injection Heq as <- Heq. f_equal.
      apply Forall_cons in H1 as [_ H1]. apply Forall_cons in H2 as [_ H2].
      exact (IH l2 a b H1 H2 Ha Hb Heq).
Qed.

Lemma path_suffix_dotted (s : str) : dotted (path_suffix s).
Proof.
  unfold path_suffix. destruct (rfind_dot s) as [i|] eqn:Hi; [|exact I].
  destruct (_ && _); [|exact I].
  destruct (rfind_dot_split s i Hi) as (rest & Hs & _ & Hl).
  rewrite Hs at 1. rewrite skipn_app, Hl, Nat.sub_diag, skipn_all2 by lia.
  reflexivity.
Qed.

(** The candidate tried with counter [k]. *)
Definition candidate (original_stem : str) (k : Z) (suffix : str) : str :=
  original_stem ++ "_"%char :: dec k ++ suffix.

Lemma candidate_inj (stem : str) (j k : Z) (a b : str) :
  0 <= j -> 0 <= k -> dotted a -> dotted b ->
  candidate stem j a = candidate stem k b -> j = k.
Proof.
  intros Hj Hk Ha Hb H. unfold candidate in H.
  apply app_inv_head in H. injection H as H.
  apply dec_inj; try assumption.
  exact (digits_split (dec j) (dec k) a b (dec_no_dot j Hj) (dec_no_dot k Hk)
           Ha Hb H).
Qed.

Lemma pick_dest_steps (files : filesystem) (dest_dir stem : str)
      (d : gmap str content) :
  files !! dest_dir = Some d ->
  forall (fuel : nat) (tried : gset str) (counter : Z) (suffix : str),
    1 <= counter -> dotted suffix -> tried ⊆ dom d ->
    (forall x, x ∈ tried ->
       exists j s, 1 <= j < counter /\ dotted s /\ x = candidate stem j s) ->
    (size d < fuel + size tried)%nat ->
    exists r,
      pick_dest fuel files dest_dir stem (counter + 1)
        (Path dest_dir (candidate stem counter suffix)) = Some r
      /\ forall p, r = Return p ->
           path_exists files p = false /\ parent p = dest_dir
           /\ stat_ok p = true.
Proof.
  intros Hd. induction fuel as [|fuel IH];
    intros tried counter suffix Hc Hs Hsub Htried Hsize.
  - exfalso. apply subseteq_size in Hsub. rewrite size_dom in Hsub. lia.
  - simpl. unfold dest_exists.
    destruct (stat_ok (Path dest_dir (candidate stem counter suffix)))
      eqn:Hok; [|exists Raise; split; [reflexivity|discriminate]].
    destruct (path_exists files (Path dest_dir (candidate stem counter suffix)))
      eqn:Hex.
    2:{ eexists. split; [reflexivity|]. intros p [= <-]. auto. }
    set (c := candidate stem counter suffix) in *.
    assert (Hin : c ∈ dom d).
    { unfold path_exists, lookup_file in Hex. simpl in Hex. rewrite Hd in Hex.
      apply elem_of_dom. destruct (d !! c); [eauto|discriminate]. }
    assert (Hnew : c ∉ tried).
    { intros Hc'. destruct (Htried c Hc') as (j & s & Hj & Hs' & Heq).
      apply candidate_inj in Heq; try assumption; lia. }
    assert (Hsz : size ({[c]} ∪ tried) = S (size tried)).
    { rewrite size_union by (apply disjoint_singleton_l; exact Hnew).
      rewrite size_singleton. reflexivity. }
    apply (IH ({[c]} ∪ tried) (counter + 1) (path_suffix c)).
    + lia.
    + apply path_suffix_dotted.
    + apply union_subseteq. split; [|exact Hsub].
      apply singleton_subseteq_l, Hin.
    + intros x Hx. apply elem_of_union in Hx as [Hx|Hx].
      * apply elem_of_singleton in Hx. subst x.
        exists counter, suffix. repeat split; auto; lia.
      * destruct (Htried x Hx) as (j & s & Hj & Hs' & Heq).
        exists j, s. repeat split; auto; lia.
    + rewrite Hsz. lia.
Qed.

Lemma pick_dest_S (fuel : nat) (files : filesystem) (dest_dir stem : str)
      (counter : Z) (dest : path) :
  pick_dest (S fuel) files dest_dir stem counter dest
  = match dest_exists files dest with
    | Raise => Some Raise
    | Return true =>
        pick_dest fuel files dest_dir stem (counter + 1)
          (Path dest_dir
             (stem ++ "_"%char :: dec counter ++ path_suffix (name dest)))
    | Return false => Some (Return dest)
    end.
Proof. reflexivity. Qed.

(** [choose_dest] is the result of the loop: the exception of [exists], or
    a path of the directory that the file system accepts and at which no
    file exists. *)
Lemma pick_dest_total (files : filesystem) (dest_dir filename : str) :
  exists r,
    pick_dest (2 + dir_size files dest_dir) files dest_dir
      (path_stem filename) 1 (Path dest_dir filename) = Some r
    /\ choose_dest files dest_dir filename = r
    /\ forall p, r = Return p ->
         lookup_file files p = None /\ parent p = dest_dir
         /\ stat_ok p = true.
Proof.
  assert (Hnone : forall p, path_exists files p = false ->
                            lookup_file files p = None).
  { intros p. unfold path_exists. destruct (lookup_file files p);
      [discriminate|reflexivity]. }
  unfold choose_dest.
  change (2 + dir_size files dest_dir)%nat
    with (S (1 + dir_size files dest_dir)).
  rewrite pick_dest_S. unfold dest_exists.
  destruct (stat_ok (Path dest_dir filename)) eqn:Hok.
  2:{ exists Raise. split; [reflexivity|].
      split; [reflexivity|discriminate]. }
  destruct (path_exists files (Path dest_dir filename)) eqn:Hex.
  2:{ exists (Return (Path dest_dir filename)).
      split; [reflexivity|]. split; [reflexivity|].
      intros p [= <-]. auto. }
  destruct (files !! dest_dir) as [d|] eqn:Hd.
  2:{ unfold path_exists, lookup_file in Hex. simpl in Hex.
      rewrite Hd in Hex. discriminate. }
  destruct (pick_dest_steps files dest_dir (path_stem filename) d Hd
              (1 + dir_size files dest_dir) ∅ 1 (path_suffix filename))
    as (r & Hr & Hspec).
  - lia.
  - apply path_suffix_dotted.
  - set_solver.
  - set_solver.
  - unfold dir_size. rewrite Hd, size_empty. lia.
  - exists r. unfold candidate in Hr. cbn [name]. rewrite Hr.
    split; [reflexivity|]. split; [reflexivity|].
    intros p Hp. destruct (Hspec p Hp) as (H1 & H2 & H3). auto.
Qed.


(** **** [download_file] as a whole *)

(** A callback that never raises. *)
Definition quiet (cb : option callback) : Prop :=
  match cb with
  | Some f => forall d t s, (f d t s).2 = false
  | None => True
  end.

(** The size guard fires on a body that does not fit, and the file is
    gone afterwards. *)
Lemma stream_chunks_oversized (dest : path) (cb : option callback)
      (max_size content_length : Z) (chunks : list bytes) (e : ending) :
  quiet cb ->
  forall (downloaded : Z) (w : world) (s : St),
    max_size < downloaded + total_len chunks -> downloaded <= max_size ->
    let x := stream_chunks dest cb max_size content_length chunks e
               downloaded w s in
    x.2.2 = Return None /\ lookup_file (fs x.2.1.1) dest = None.
Proof.
  intros Hq. induction chunks as [|chunk rest IH];
    intros downloaded w s Hbig Hle; simpl in *; [lia|].
  destruct (max_size <? downloaded + Z.of_nat (length chunk)) eqn:Hcmp.
  - simpl. split; [reflexivity|apply lookup_unlink_eq].
  - apply Z.ltb_ge in Hcmp.
    destruct cb as [f|].
    + pose proof (Hq (downloaded + Z.of_nat (length chunk)) content_length s)
        as Hf.
      destruct (f _ _ s) as [s1 raised]. simpl in Hf. subst raised.
      specialize (IH (downloaded + Z.of_nat (length chunk))
                    (set_fs (write dest chunk) w) s1).
      destruct (stream_chunks _ _ _ _ rest e _ _ s1) as [tr [[w' s'] r]].
      apply IH; lia.
    + specialize (IH (downloaded + Z.of_nat (length chunk))
                    (set_fs (write dest chunk) w) s).
      destruct (stream_chunks _ _ _ _ rest e _ _ s) as [tr [[w' s'] r]].
      apply IH; lia.
Qed.

(** A 200 response that passes the pre-flight check (no usable length
    was declared, or one within the limit) but whose body does not fit:
    the attempt opens the file, returns [None] and leaves no file. *)
Lemma stream_download_midstream (url : str) (dest : path)
      (cb : option callback) (max_size : Z) (w : world) (s : St)
      (h : header) (chunks : list bytes) (e : ending) :
  quiet cb -> 0 <= max_size ->
  net url (requests w) = Response 200 h chunks e ->
  match h with Length n => n <= max_size | NoLength => True
          | BadLength => False end ->
  is_Some (fs w !! parent dest) ->
  max_size < total_len chunks ->
  let x := _stream_download url dest cb max_size w s in
  x.1 <> [] /\ x.2.2 = Return None
  /\ lookup_file (fs x.2.1.1) dest = None.
Proof.
  intros Hq Hmax Hnet Hh [d Hd] Hbig. unfold _stream_download.
  rewrite Hnet. simpl negb. cbv iota.
  assert (Hopen : open_wb dest (fs (count_request w))
                  = Some (<[parent dest := <[name dest := Raw []]> d]> (fs w))).
  { unfold open_wb. simpl. rewrite Hd. reflexivity. }
  assert (Hgo : forall content_length,
    let x := match open_wb dest (fs (count_request w)) with
             | Some fs1 =>
                 let w1 := set_fs (fun _ => fs1) (count_request w) in
                 let '(tr, r) :=
                   stream_chunks dest cb max_size content_length chunks e
                     0 w1 s in
                 (w1 :: tr, r)
             | None => ([], (count_request w, s, Raise))
             end in
    x.1 <> [] /\ x.2.2 = Return None
    /\ lookup_file (fs x.2.1.1) dest = None).
  { intros cl. rewrite Hopen. cbv zeta.
    set (w1 := set_fs _ (count_request w)).
    pose proof (stream_chunks_oversized dest cb max_size cl chunks e Hq
                  0 w1 s) as Hover.
    destruct (stream_chunks _ _ _ _ chunks e 0 w1 s) as [tr [[w' s'] r]].
    simpl in *. split; [discriminate|]. apply Hover; lia. }
  destruct h as [|n|]; [| |contradiction].
  - simpl andb. cbv iota zeta. apply Hgo.
  - cbv zeta. destruct (max_size <? n) eqn:E; [apply Z.ltb_lt in E; lia|].
    rewrite andb_false_r. apply Hgo.
Qed.

(** What [download_file] leaves behind.  When it raises (the URL does not
    parse, or [exists] raises in the collision loop) nothing happened; when
    it returns [None] the files are as before; when it returns a path, that
    is a new file of the directory and nothing else changed. *)
Lemma download_file_frame (url dest_dir : str) (cb : option callback)
      (max_size retries : Z) (w : world) (s : St) :
  let z := download_file url dest_dir cb max_size retries w s in
  match z.2 with
  | Raise =>
      z.1 = (w, s)
      /\ (_extract_filename url = None
          \/ exists filename,
               _extract_filename url = Some filename
               /\ choose_dest (fs w) dest_dir filename = Raise)
  | Return None => fs z.1.1 = fs w
  | Return (Some p) =>
      parent p = dest_dir /\ lookup_file (fs w) p = None
      /\ is_Some (lookup_file (fs z.1.1) p)
      /\ unlink p (fs z.1.1) = fs w
  end.
Proof.
  unfold download_file.
  destruct (_extract_filename url) as [filename|]; [|simpl; auto].
  destruct (pick_dest_total (fs w) dest_dir filename)
    as (r & _ & Hr & Hspec).
  rewrite Hr. destruct r as [dest|].
  2:{ simpl. split; [reflexivity|]. right. exists filename. auto. }
  destruct (Hspec dest eq_refl) as (Hfree & Hpar & _).
  pose proof (attempts_frame retries url dest cb max_size
                (Z.to_nat retries) 1 w s) as Hfr.
  destruct (attempts _ _ _ _ _ _ _ _ _) as [[w1 s1] [p|]];
    simpl in *; destruct Hfr as [H1 H2].
  - destruct (H2 p eq_refl) as [-> Hs].
    rewrite H1, (unlink_absent _ _ Hfree). auto.
  - rewrite H1. apply unlink_absent, Hfree.
Qed.



(** A response whose body is larger than the limit. *)
Definition oversized (max_size : Z) (r : reply) : Prop :=
  exists status h chunks e,
    r = Response status h chunks e /\ max_size < total_len chunks.


(** C3: a download whose body exceeds [max_size] is rejected.  No attempt
    returns a path; a declared length above the limit ends the attempt
    before any file operation; a body found too large while streaming has
    its partial file deleted; and once the attempts are exhausted
    [download_file] returns [None] with no file at the destination.  The
    URL is one that [urlparse] accepts and whose file name the file system
    accepts: the collision loop ends with a destination. *)
Theorem download_file_size_gate (url dest_dir filename : str)
        (dest0 : path) (cb : option callback) (max_size retries : Z)
        (w : world) (s : St) :
  _extract_filename url = Some filename ->
  choose_dest (fs w) dest_dir filename = Return dest0 ->
  0 <= max_size ->
  (forall k, oversized max_size (net url k)) ->
  (forall dest w0 s0,
      let x := _stream_download url dest cb max_size w0 s0 in
      (forall p, x.2.2 <> Return (Some p))
      /\ (forall n chunks e,
             net url (requests w0) = Response 200 (Length n) chunks e ->
             max_size < n ->
             x = ([], (count_request w0, s0, Return None)))
      /\ (forall h chunks e,
             net url (requests w0) = Response 200 h chunks e ->
             match h with Length n => n <= max_size | NoLength => True
                     | BadLength => False end ->
             quiet cb -> is_Some (fs w0 !! parent dest) ->
             x.1 <> [] /\ x.2.2 = Return None
             /\ lookup_file (fs x.2.1.1) dest = None))
  /\ let z := download_file url dest_dir cb max_size retries w s in
     z.2 = Return None
     /\ fs z.1.1 = fs w
     /\ lookup_file (fs z.1.1) dest0 = None.
Proof.
  intros Hname Hdest Hmax Hnet.
  assert (Hhop : forall k, hopeless max_size (net url k)).
  { intros k h chunks Hk.
    destruct (Hnet k) as (st & h' & c' & e' & Hr & Hbig).
    rewrite Hr in Hk. injection Hk as -> -> -> ->. auto. }
  split.
  - intros dest w0 s0. cbv zeta. split; [|split].
    + intros p. apply hopeless_fails, Hhop.
    + intros n chunks e Hr Hn.
      apply (stream_download_preflight _ _ _ _ _ _ n chunks e Hr). lia.
    + intros h chunks e Hr Hh Hq Hdir.
      apply (stream_download_midstream url dest cb max_size w0 s0 h chunks e);
        auto.
      destruct (Hnet (requests w0)) as (st & h' & c' & e' & Hr' & Hbig).
      rewrite Hr in Hr'. injection Hr' as <- <- <- <-. exact Hbig.
  - pose proof (download_file_frame url dest_dir cb max_size retries w s)
      as Hframe.
    assert (Hfree : lookup_file (fs w) dest0 = None).
    { destruct (pick_dest_total (fs w) dest_dir filename)
        as (r & _ & Hr & Hspec).
      rewrite Hdest in Hr. apply (Hspec dest0). symmetry. exact Hr. }
    unfold download_file in *. rewrite Hname, Hdest in *.
    pose proof (attempts_exhausted retries url dest0 cb max_size
                  (Z.to_nat retries) Hhop 1 w s) as Hex.
    destruct (attempts _ _ _ _ _ _ _ _ _) as [[w1 s1] r].
    simpl in Hex. destruct Hex as (-> & _ & _). simpl in *.
    split; [reflexivity|]. split; [exact Hframe|].
    rewrite Hframe. exact Hfree.
Qed.


(** **** Further properties of [download_file] *)

Lemma lookup_unlink_other (p q : path) (files : filesystem) :
  p <> q -> lookup_file (unlink p files) q = lookup_file files q.
Proof.
  destruct p as [pd pn], q as [qd qn]. intros Hne.
  unfold lookup_file, unlink. simpl.
  destruct (decide (pd = qd)) as [<-|Hd].
  - rewrite lookup_alter_eq. destruct (files !! pd) as [d|]; simpl;
      [|reflexivity].
    apply lookup_delete_ne. congruence.
  - rewrite lookup_alter_ne by exact Hd. reflexivity.
Qed.

(** X10: [download_file] never changes or removes a file that was there
    before the call, whatever the server does and however the call ends. *)
Theorem download_file_keeps_files (url dest_dir : str) (cb : option callback)
        (max_size retries : Z) (w : world) (s : St) (q : path) (c : content) :
  lookup_file (fs w) q = Some c ->
  lookup_file
    (fs (download_file url dest_dir cb max_size retries w s).1.1) q = Some c.
Proof.
  intros Hq.
  pose proof (download_file_frame url dest_dir cb max_size retries w s) as Hfr.
  destruct (download_file url dest_dir cb max_size retries w s)
    as [[w' s'] r].
  simpl in *. destruct r as [[p|]|].
  - destruct Hfr as (_ & Hfree & _ & Hun).
    assert (Hne : p <> q) by (intros ->; congruence).
    rewrite <- Hun, lookup_unlink_other in Hq by exact Hne.
    exact Hq.
  - rewrite Hfr. exact Hq.
  - destruct Hfr as [Hw _]. injection Hw as -> _. exact Hq.
Qed.

Lemma total_len_concat (chunks : list bytes) :
  total_len chunks = Z.of_nat (length (concat chunks)).
Proof.
  induction chunks as [|c r IH]; simpl; [reflexivity|].
  rewrite length_app, IH. lia.
Qed.

(** A successful loop has appended every chunk, in order. *)
Lemma stream_chunks_content (dest : path) (cb : option callback)
      (max_size content_length : Z) (chunks : list bytes) (e : ending) :
  forall (downloaded : Z) (w : world) (s : St) (data : bytes) (p : path),
    lookup_file (fs w) dest = Some (Raw data) ->
    (stream_chunks dest cb max_size content_length chunks e
       downloaded w s).2.2 = Return (Some p) ->
    lookup_file
      (fs (stream_chunks dest cb max_size content_length chunks e
             downloaded w s).2.1.1) dest
    = Some (Raw (data ++ concat chunks)).
Proof.
  induction chunks as [|chunk rest IH]; intros downloaded w s data p Hd;
    simpl.
  - destruct e; simpl; [|discriminate]. intros _.
    rewrite app_nil_r. exact Hd.
  - destruct (max_size <? downloaded + Z.of_nat (length chunk));
      [discriminate|].
    assert (Hd1 : lookup_file (fs (set_fs (write dest chunk) w)) dest
                  = Some (Raw (data ++ chunk))).
    { simpl. rewrite lookup_write_eq, Hd. reflexivity. }
    destruct cb as [f|].
    + destruct (f _ _ s) as [s1 [|]]; [discriminate|].
      specialize (IH (downloaded + Z.of_nat (length chunk))
                    (set_fs (write dest chunk) w) s1 (data ++ chunk) p Hd1).
      destruct (stream_chunks _ _ _ _ rest e _ _ s1) as [tr [[w' s'] r]].
      simpl in *. intros Hr. rewrite (IH Hr), <- app_assoc. reflexivity.
    + specialize (IH (downloaded + Z.of_nat (length chunk))
                    (set_fs (write dest chunk) w) s (data ++ chunk) p Hd1).
      destruct (stream_chunks _ _ _ _ rest e _ _ s) as [tr [[w' s'] r]].
      simpl in *. intros Hr. rewrite (IH Hr), <- app_assoc. reflexivity.
Qed.

Lemma stream_download_content (url : str) (dest : path) (cb : option callback)
      (max_size : Z) (w : world) (s : St) (p : path) :
  (_stream_download url dest cb max_size w s).2.2 = Return (Some p) ->
  exists h chunks,
    net url (requests w) = Response 200 h chunks Eof
    /\ lookup_file (fs (_stream_download url dest cb max_size w s).2.1.1) dest
       = Some (Raw (concat chunks)).
Proof.
  pose proof (stream_download_frame url dest cb max_size w s) as Hfr.
  cbv zeta in Hfr. destruct Hfr as (_ & _ & _ & H4).
  intros Hp. destruct (H4 p Hp) as (_ & _ & h & chunks & Hnet & _).
  exists h, chunks. split; [exact Hnet|].
  revert Hp. unfold _stream_download. rewrite Hnet. simpl negb. cbv iota.
  assert (Hgo : forall content_length,
    (match open_wb dest (fs (count_request w)) with
     | Some fs1 =>
         let w1 := set_fs (fun _ => fs1) (count_request w) in
         let '(tr, r) :=
           stream_chunks dest cb max_size content_length chunks Eof
             0 w1 s in
         (w1 :: tr, r)
     | None => ([], (count_request w, s, Raise))
     end).2.2 = Return (Some p) ->
    lookup_file
      (fs (match open_wb dest (fs (count_request w)) with
           | Some fs1 =>
               let w1 := set_fs (fun _ => fs1) (count_request w) in
               let '(tr, r) :=
                 stream_chunks dest cb max_size content_length chunks Eof
                   0 w1 s in
               (w1 :: tr, r)
           | None => ([], (count_request w, s, Raise))
           end).2.1.1) dest = Some (Raw (concat chunks))).
  { intros cl. destruct (open_wb dest _) as [fs1|] eqn:Hopen;
      [|discriminate].
    cbv zeta. set (w1 := set_fs (fun _ => fs1) (count_request w)).
    pose proof (stream_chunks_content dest cb max_size cl chunks Eof 0 w1 s
                  [] p (lookup_open_wb_eq _ _ _ Hopen)) as Hc.
    destruct (stream_chunks _ _ _ _ chunks Eof 0 w1 s) as [tr [[w' s'] r]].
    simpl in *. exact Hc. }
  destruct h as [|n|].
  - simpl andb. cbv iota zeta. apply Hgo.
  - cbv zeta. destruct (negb (n =? 0) && (max_size <? n));
      [discriminate|apply Hgo].
  - discriminate.
Qed.

Lemma attempts_content (retries : Z) (url : str) (dest : path)
      (cb : option callback) (max_size : Z) (n : nat) :
  forall (attempt : Z) (w : world) (s : St) (p : path),
    (attempts n attempt retries url dest cb max_size w s).2 = Some p ->
    exists k h chunks,
      (requests w <= k)%nat
      /\ requests (attempts n attempt retries url dest cb max_size w s).1.1
         = S k
      /\ net url k = Response 200 h chunks Eof
      /\ lookup_file
           (fs (attempts n attempt retries url dest cb max_size w s).1.1) dest
         = Some (Raw (concat chunks))
      /\ (0 <= max_size -> total_len chunks <= max_size).
Proof.
  induction n as [|n IH]; intros attempt w s p; simpl; [discriminate|].
  pose proof (stream_download_frame url dest cb max_size w s) as Hfr.
  pose proof (stream_download_content url dest cb max_size w s) as Hct.
  destruct (_stream_download url dest cb max_size w s) as [tr [[w1 s1] r]].
  simpl in Hfr, Hct. destruct Hfr as (_ & Hsl & Hreq & H4).
  assert (Hretry :
    (attempts n (attempt + 1) retries url dest cb max_size
       (if attempt <? retries then add_sleep (2 ^ attempt) w1 else w1) s1).2
    = Some p ->
    exists k h chunks,
      (requests w <= k)%nat
      /\ requests (attempts n (attempt + 1) retries url dest cb max_size
                     (if attempt <? retries then add_sleep (2 ^ attempt) w1
                      else w1) s1).1.1 = S k
      /\ net url k = Response 200 h chunks Eof
      /\ lookup_file
           (fs (attempts n (attempt + 1) retries url dest cb max_size
                  (if attempt <? retries then add_sleep (2 ^ attempt) w1
                   else w1) s1).1.1) dest
         = Some (Raw (concat chunks))
      /\ (0 <= max_size -> total_len chunks <= max_size)).
  { intros Hp. destruct (IH _ _ _ _ Hp) as (k & h & chunks & Hk & Hrest).
    exists k, h, chunks. split; [|exact Hrest].
    destruct (attempt <? retries); simpl in Hk; lia. }
  destruct r as [[q|]|]; try exact Hretry.
  simpl. intros [= <-].
  destruct (Hct q eq_refl) as (h & chunks & Hnet & Hfile).
  destruct (H4 q eq_refl) as (_ & _ & h' & chunks' & Hnet' & Hfit).
  rewrite Hnet in Hnet'. injection Hnet' as <- <-.
  exists (requests w), h, chunks. repeat split; auto.
Qed.

(** X11: a path returned by [download_file] is a file that holds exactly
    the body of the response to the last request made, a 200 response
    whose stream ended normally, and the file is within the size limit. *)
Theorem download_file_content (url dest_dir : str) (cb : option callback)
        (max_size retries : Z) (w : world) (s : St) (p : path) :
  0 <= max_size ->
  (download_file url dest_dir cb max_size retries w s).2 = Return (Some p) ->
  exists k h chunks,
    (requests w <= k)%nat
    /\ requests (download_file url dest_dir cb max_size retries w s).1.1 = S k
    /\ net url k = Response 200 h chunks Eof
    /\ lookup_file
         (fs (download_file url dest_dir cb max_size retries w s).1.1) p
       = Some (Raw (concat chunks))
    /\ Z.of_nat (length (concat chunks)) <= max_size.
Proof.
  intros Hmax. unfold download_file.
  destruct (_extract_filename url) as [filename|]; [|discriminate].
  destruct (choose_dest (fs w) dest_dir filename) as [dest|]; [|discriminate].
  pose proof (attempts_frame retries url dest cb max_size
                (Z.to_nat retries) 1 w s) as Hfr.
  pose proof (attempts_content retries url dest cb max_size
                (Z.to_nat retries) 1 w s) as Hct.
  destruct (attempts _ _ _ _ _ _ _ _ _) as [[w1 s1] [q|]];
    simpl in *; [|discriminate].
  intros [= <-]. destruct Hfr as [_ H2]. destruct (H2 q eq_refl) as [-> _].
  destruct (Hct dest eq_refl) as (k & h & chunks & Hk & Hreq & Hnet & Hf & Hfit).
  exists k, h, chunks. rewrite <- total_len_concat. auto 10.
Qed.


(** X12: the collision loop of [download_file] ends either with the
    exception of [exists], the file system refusing a name the loop tries,
    or with a path of the directory that the file system accepts and at
    which no file exists.  The plain name is tried first: refused, the loop
    raises; accepted and free, it is the destination; taken, the name with
    [_1] before the extension is tried next, and again raises when refused
    and is the destination when accepted and free. *)
Theorem choose_dest_fresh (files : filesystem) (dest_dir filename : str) :
  (forall p, choose_dest files dest_dir filename = Return p ->
     parent p = dest_dir /\ lookup_file files p = None
     /\ stat_ok p = true)
  /\ (stat_ok (Path dest_dir filename) = false ->
      choose_dest files dest_dir filename = Raise)
  /\ (stat_ok (Path dest_dir filename) = true ->
      lookup_file files (Path dest_dir filename) = None ->
      choose_dest files dest_dir filename = Return (Path dest_dir filename))
  /\ (stat_ok (Path dest_dir filename) = true ->
      lookup_file files (Path dest_dir filename) <> None ->
      let next :=
        Path dest_dir (path_stem filename ++ list_ascii_of_string "_1"
                         ++ path_suffix filename) in
      (stat_ok next = false ->
       choose_dest files dest_dir filename = Raise)
      /\ (stat_ok next = true -> lookup_file files next = None ->
          choose_dest files dest_dir filename = Return next)).
Proof.
  split.
  { intros p Hp.
    destruct (pick_dest_total files dest_dir filename)
      as (r & _ & Hr & Hspec).
    rewrite Hp in Hr. destruct (Hspec p (eq_sym Hr)) as (H1 & H2 & H3).
    auto. }
  unfold choose_dest.
  change (2 + dir_size files dest_dir)%nat
    with (S (S (dir_size files dest_dir))).
  split; [|split].
  - intros Hok. rewrite pick_dest_S. unfold dest_exists. rewrite Hok.
    reflexivity.
  - intros Hok Hnone. rewrite pick_dest_S. unfold dest_exists, path_exists.
    rewrite Hok, Hnone. reflexivity.
  - intros Hok Hsome. cbv zeta.
    rewrite pick_dest_S. unfold dest_exists, path_exists. rewrite Hok.
    destruct (lookup_file files (Path dest_dir filename)); [|contradiction].
    cbn [name]. rewrite pick_dest_S. unfold dest_exists, path_exists.
    change (path_stem filename ++ list_ascii_of_string "_1"
              ++ path_suffix filename)
      with (path_stem filename ++ "_"%char :: dec 1 ++ path_suffix filename).
    split.
    + intros Hok1. rewrite Hok1. reflexivity.
    + intros Hok1 Hnone. rewrite Hok1, Hnone. reflexivity.
Qed.

Lemma digits_safe (d : Decimal.uint) : safe (digits d).
Proof.
  unfold safe. induction d; simpl; constructor; solve [reflexivity|assumption].
Qed.

Lemma dec_safe (z : Z) : safe (dec z).
Proof.
  destruct z as [|q|q]; unfold dec.
  - apply digits_safe.
  - apply digits_safe.
  - constructor; [reflexivity|apply digits_safe].
Qed.

Lemma pick_dest_safe (files : filesystem) (dest_dir stem : str) :
  safe stem ->
  forall (fuel : nat) (counter : Z) (dest p : path),
    safe (name dest) -> name dest <> [] ->
    pick_dest fuel files dest_dir stem counter dest = Some (Return p) ->
    safe (name p) /\ name p <> [].
Proof.
  intros Hstem. induction fuel as [|fuel IH]; intros counter dest p Hs Hne;
    simpl; unfold dest_exists; destruct (stat_ok dest); try discriminate;
    destruct (path_exists files dest); try discriminate;
    try (intros [= <-]; auto).
  apply IH; simpl.
  - apply Forall_app. split; [exact Hstem|].
    constructor; [reflexivity|]. apply Forall_app. split; [apply dec_safe|].
    apply path_suffix_safe, Hs.
  - destruct stem; discriminate.
Qed.

(** X13: whatever the URL, a file saved by [download_file] lies in the
    destination directory and its name is not empty and holds no slash,
    backslash, null byte or reserved character. *)
Theorem download_file_dest_safe (url dest_dir : str) (cb : option callback)
        (max_size retries : Z) (w : world) (s : St) (p : path) :
  (download_file url dest_dir cb max_size retries w s).2 = Return (Some p) ->
  parent p = dest_dir /\ name p <> []
  /\ forall c, In c (name p) ->
               c <> "/"%char /\ c <> "\"%char /\ c <> "000"%char
               /\ ~ In c reserved.
Proof.
  unfold download_file, _extract_filename.
  destruct (raw_name_of_url url) as [raw|]; [|discriminate].
  set (filename := sanitize_filename _).
  destruct (pick_dest_total (fs w) dest_dir filename)
    as (r & Hpick & Hdest & Hspec).
  rewrite Hdest. destruct r as [dest|]; [|discriminate].
  destruct (Hspec dest eq_refl) as (_ & Hpar & _).
  pose proof (attempts_frame retries url dest cb max_size
                (Z.to_nat retries) 1 w s) as Hfr.
  destruct (attempts _ _ _ _ _ _ _ _ _) as [[w1 s1] [q|]];
    cbn [fst snd] in Hfr |- *; [|discriminate].
  intros [= <-]. destruct Hfr as [_ H2]. destruct (H2 q eq_refl) as [-> _].
  assert (Hs0 : safe (name (Path dest_dir filename)))
    by apply sanitize_safe.
  assert (Hne0 : name (Path dest_dir filename) <> [])
    by apply sanitize_nonempty.
  destruct (pick_dest_safe (fs w) dest_dir (path_stem filename)
              (path_stem_safe _ (sanitize_safe _)) _ _ _ dest
              Hs0 Hne0 Hpick) as [Hs Hne].
  split; [exact Hpar|]. split; [exact Hne|].
  intros c Hc. apply forbidden_false. unfold safe in Hs.
  rewrite List.Forall_forall in Hs. apply Hs, Hc.
Qed.


(** The requests made and the delays slept by the retry loop. *)
Lemma attempts_accounting (retries : Z) (url : str) (dest : path)
      (cb : option callback) (max_size : Z) (n : nat) :
  forall (attempt : Z) (w : world) (s : St),
    n = 0%nat \/ attempt + Z.of_nat n = retries + 1 ->
    let y := attempts n attempt retries url dest cb max_size w s in
    let used := (requests y.1.1 - requests w)%nat in
    (requests w <= requests y.1.1)%nat
    /\ sleeps y.1.1 = sleeps w ++ powers attempt (used - 1)
    /\ (used <= n)%nat
    /\ (y.2 = None -> used = n)
    /\ (forall p, y.2 = Some p -> (1 <= used)%nat).
Proof.
  induction n as [|n IH]; intros attempt w s Hn; simpl.
  - rewrite Nat.sub_diag. simpl. rewrite app_nil_r.
    repeat split; auto; discriminate.
  - destruct Hn as [Hn|Hn]; [discriminate|].
    pose proof (stream_download_frame url dest cb max_size w s) as Hfr.
    destruct (_stream_download url dest cb max_size w s) as [tr [[w1 s1] r]].
    simpl in Hfr. destruct Hfr as (_ & Hsl & Hreq & _).
    assert (Hretry :
      let y := attempts n (attempt + 1) retries url dest cb max_size
                 (if attempt <? retries then add_sleep (2 ^ attempt) w1
                  else w1) s1 in
      let used := (requests y.1.1 - requests w)%nat in
      (requests w <= requests y.1.1)%nat
      /\ sleeps y.1.1 = sleeps w ++ powers attempt (used - 1)
      /\ (used <= S n)%nat
      /\ (y.2 = None -> used = S n)
      /\ (forall p, y.2 = Some p -> (1 <= used)%nat)).
    { destruct n as [|m].
      - (* the last attempt: no delay follows *)
        destruct (attempt <? retries) eqn:E; [apply Z.ltb_lt in E; lia|].
        simpl. rewrite Hreq, Hsl.
        replace (S (requests w) - requests w)%nat with 1%nat by lia.
        simpl. rewrite app_nil_r. repeat split; auto; lia.
      - destruct (attempt <? retries) eqn:E; [|apply Z.ltb_ge in E; lia].
        specialize (IH (attempt + 1) (add_sleep (2 ^ attempt) w1) s1).
        cbv zeta in *.
        destruct IH as (H0 & H1 & H2 & H3 & H4); [right; lia|].
        set (y := attempts (S m) (attempt + 1) retries url dest cb max_size
                    (add_sleep (2 ^ attempt) w1) s1) in *.
        simpl requests in H0, H1, H2, H3, H4. simpl sleeps in H1.
        rewrite Hreq in *. rewrite Hsl in H1.
        assert (Hpos : (1 <= requests y.1.1 - S (requests w))%nat).
        { destruct (y.2) as [p|] eqn:Ey.
          - apply (H4 p eq_refl).
          - rewrite (H3 eq_refl). lia. }
        split; [lia|]. split.
        + rewrite H1, <- app_assoc. f_equal.
          replace (requests y.1.1 - requests w - 1)%nat
            with (S (requests y.1.1 - S (requests w) - 1)) by lia.
          reflexivity.
        + split; [lia|]. split; [intros Hy; specialize (H3 Hy); lia|].
          intros p Hp. lia. }
    destruct r as [[p|]|]; try exact Hretry.
    simpl. rewrite Hreq, Hsl.
    replace (S (requests w) - requests w)%nat with 1%nat by lia.
    simpl. rewrite app_nil_r. repeat split; auto; try lia. discriminate.
Qed.

(** X14: however [download_file] ends, if it made [n] requests it slept
    exactly the [n - 1] delays 2, 4, ..., 2^(n-1) between them (none after
    the last one); it never makes more than [retries] requests, makes
    all of them before it returns [None], at least one before it returns
    a path, and none when the URL does not parse or [retries] is not
    positive. *)
Theorem download_file_accounting (url dest_dir : str) (cb : option callback)
        (max_size retries : Z) (w : world) (s : St) :
  let z := download_file url dest_dir cb max_size retries w s in
  let n := (requests z.1.1 - requests w)%nat in
  (requests w <= requests z.1.1)%nat
  /\ sleeps z.1.1
     = sleeps w ++ map (fun k => 2 ^ Z.of_nat k) (seq 1 (n - 1))
  /\ Z.of_nat n <= Z.max 0 retries
  /\ (z.2 = Return None -> Z.of_nat n = Z.max 0 retries)
  /\ (forall p, z.2 = Return (Some p) -> (1 <= n)%nat)
  /\ (z.2 = Raise -> n = 0%nat).
Proof.
  unfold download_file.
  destruct (_extract_filename url) as [filename|].
  2:{ simpl. rewrite Nat.sub_diag. simpl. rewrite app_nil_r.
      repeat split; auto; try lia; discriminate. }
  destruct (choose_dest (fs w) dest_dir filename) as [dest|].
  2:{ simpl. rewrite Nat.sub_diag. simpl. rewrite app_nil_r.
      repeat split; auto; try lia; discriminate. }
  pose proof (attempts_accounting retries url dest cb max_size
                (Z.to_nat retries) 1 w s) as Hacc.
  cbv zeta in Hacc.
  destruct Hacc as (H0 & H1 & H2 & H3 & H4); [lia|].
  destruct (attempts _ _ _ _ _ _ _ _ _) as [[w1 s1] [q|]]; simpl in *.
  - rewrite H1, (powers_map _ 1) by lia.
    repeat split; auto; try lia; try discriminate.
    intros p _. exact (H4 q eq_refl).
  - rewrite H1, (powers_map _ 1) by lia. specialize (H3 eq_refl).
    repeat split; auto; try lia; discriminate.
Qed.

(** X15: a status other than 200 (a 404, but also a 204 or a 206) ends the
    attempt before any file operation; when every reply has such a status,
    on a URL that [urlparse] accepts and for which the collision loop finds
    a destination, [download_file] makes its [retries] requests, returns
    [None] and leaves the files as they were. *)
Theorem download_file_bad_status (url dest_dir filename : str)
        (dest1 : path) (cb : option callback) (max_size retries : Z)
        (w : world) (s : St) :
  _extract_filename url = Some filename ->
  choose_dest (fs w) dest_dir filename = Return dest1 ->
  (forall k, exists status h chunks e,
      net url k = Response status h chunks e /\ status <> 200) ->
  (forall dest w0 s0,
      _stream_download url dest cb max_size w0 s0
      = ([], (count_request w0, s0, Return None)))
  /\ let z := download_file url dest_dir cb max_size retries w s in
     z.2 = Return None
     /\ fs z.1.1 = fs w
     /\ Z.of_nat (requests z.1.1 - requests w) = Z.max 0 retries.
Proof.
  intros Hname Hdest Hnet. split.
  - intros dest w0 s0. unfold _stream_download.
    destruct (Hnet (requests w0)) as (st & h & chunks & e & -> & Hst).
    destruct (st =? 200) eqn:E; [apply Z.eqb_eq in E; contradiction|].
    reflexivity.
  - assert (Hhop : forall k, hopeless max_size (net url k)).
    { intros k h chunks Hk.
      destruct (Hnet k) as (st & h' & c' & e' & Hr & Hst).
      rewrite Hr in Hk. injection Hk as -> _ _ _. contradiction. }
    pose proof (download_file_frame url dest_dir cb max_size retries w s)
      as Hframe.
    unfold download_file in *. rewrite Hname, Hdest in *.
    pose proof (attempts_exhausted retries url dest1 cb max_size
                  (Z.to_nat retries) Hhop 1 w s) as Hex.
    destruct (attempts _ _ _ _ _ _ _ _ _) as [[w1 s1] r].
    simpl in Hex. destruct Hex as (-> & Hreq & _). simpl in *.
    split; [reflexivity|]. split; [exact Hframe|]. lia.
Qed.


(** **** The caller's state *)

Lemma stream_chunks_state (P : St -> Prop) (cb : option callback) :
  (forall f d t s0, cb = Some f -> P s0 -> P (f d t s0).1) ->
  forall (dest : path) (max_size content_length : Z) (chunks : list bytes)
         (e : ending) (downloaded : Z) (w : world) (s : St),
    P s ->
    P (stream_chunks dest cb max_size content_length chunks e
         downloaded w s).2.1.2.
Proof.
  intros Hcb dest max_size cl chunks e.
  induction chunks as [|chunk rest IH]; intros downloaded w s Hs; simpl.
  - destruct e; exact Hs.
  - destruct (max_size <? _); [exact Hs|].
    destruct cb as [f|].
    + pose proof (Hcb f (downloaded + Z.of_nat (length chunk)) cl s
                    eq_refl Hs) as H1.
      destruct (f _ _ s) as [s1 [|]]; [exact H1|].
      specialize (IH (downloaded + Z.of_nat (length chunk))
                    (set_fs (write dest chunk) w) s1 H1).
      destruct (stream_chunks _ _ _ _ rest e _ _ s1) as [tr [[w' s'] r]].
      exact IH.
    + specialize (IH (downloaded + Z.of_nat (length chunk))
                    (set_fs (write dest chunk) w) s Hs).
      destruct (stream_chunks _ _ _ _ rest e _ _ s) as [tr [[w' s'] r]].
      exact IH.
Qed.

Lemma stream_download_state (P : St -> Prop) (cb : option callback) :
  (forall f d t s0, cb = Some f -> P s0 -> P (f d t s0).1) ->
  forall (url : str) (dest : path) (max_size : Z) (w : world) (s : St),
    P s -> P (_stream_download url dest cb max_size w s).2.1.2.
Proof.
  intros Hcb url dest max_size w s Hs. unfold _stream_download.
  destruct (net url (requests w)) as [|status h chunks e]; [exact Hs|].
  destruct (negb (status =? 200)); [exact Hs|].
  assert (Hgo : forall content_length,
    P (if negb (content_length =? 0) && (max_size <? content_length)
       then ([], (count_request w, s, Return None))
       else
         match open_wb dest (fs (count_request w)) with
         | Some fs1 =>
             let w1 := set_fs (fun _ => fs1) (count_request w) in
             let '(tr, r) :=
               stream_chunks dest cb max_size content_length chunks e
                 0 w1 s in
             (w1 :: tr, r)
         | None => ([], (count_request w, s, Raise))
         end).2.1.2).
  { intros cl. destruct (_ && _); [exact Hs|].
    destruct (open_wb dest (fs (count_request w))) as [fs1|]; [|exact Hs].
    cbv zeta.
    pose proof (stream_chunks_state P cb Hcb dest max_size cl chunks e 0
                  (set_fs (fun _ => fs1) (count_request w)) s Hs) as H1.
    destruct (stream_chunks _ _ _ _ chunks e _ _ s) as [tr [[w' s'] r]].
    exact H1. }
  destruct h as [|n|]; [apply (Hgo 0)|apply (Hgo n)|exact Hs].
Qed.

Lemma attempts_state (P : St -> Prop) (cb : option callback) :
  (forall f d t s0, cb = Some f -> P s0 -> P (f d t s0).1) ->
  forall (retries : Z) (url : str) (dest : path) (max_size : Z) (n : nat)
         (attempt : Z) (w : world) (s : St),
    P s -> P (attempts n attempt retries url dest cb max_size w s).1.2.
Proof.
  intros Hcb retries url dest max_size n.
  induction n as [|n IH]; intros attempt w s Hs; simpl; [exact Hs|].
  pose proof (stream_download_state P cb Hcb url dest max_size w s Hs) as H1.
  destruct (_stream_download url dest cb max_size w s) as [tr [[w1 s1] r]].
  simpl in H1. destruct r as [[p|]|]; [exact H1| |]; apply IH, H1.
Qed.

Lemma download_file_state (P : St -> Prop) (cb : option callback)
      (url dest_dir : str) (max_size retries : Z) (w : world) (s : St) :
  (forall f d t s0, cb = Some f -> P s0 -> P (f d t s0).1) ->
  P s ->
  P (download_file url dest_dir cb max_size retries w s).1.2.
Proof.
  intros Hcb Hs. unfold download_file.
  destruct (_extract_filename url) as [filename|]; [|exact Hs].
  destruct (choose_dest (fs w) dest_dir filename) as [dest|]; [|exact Hs].
  pose proof (attempts_state P cb Hcb retries url dest max_size
                (Z.to_nat retries) 1 w s Hs) as H1.
  destruct (attempts _ _ _ _ _ _ _ _ _) as [[w1 s1] [p|]]; exact H1.
Qed.



End Downloader.

(** *** What a progress callback is told *)

(** A callback that notes each call and never raises. *)
Definition recorder : @callback (list (Z * Z)) :=
  fun downloaded total log => (log ++ [(downloaded, total)], false).

Lemma last_default_cons (d x : Z) (l : list Z) :
  default d (last (x :: l)) = default x (last l).
Proof.
  revert d x. induction l as [|y l IH]; intros d x; [reflexivity|].
  change (last (x :: y :: l)) with (last (y :: l)).
  rewrite (IH d y), (IH x y). reflexivity.
Qed.

Lemma total_len_nonneg (chunks : list bytes) : 0 <= total_len chunks.
Proof. induction chunks as [|c r IH]; simpl; lia. Qed.

Lemma stream_chunks_reports (dest : path) (max_size content_length : Z)
      (chunks : list bytes) (e : ending) :
  forall (downloaded : Z) (w : world) (log : list (Z * Z)),
    let z := stream_chunks dest (Some recorder) max_size content_length
               chunks e downloaded w log in
    exists ext,
      z.2.1.2 = log ++ ext
      /\ Forall (fun r => downloaded <= r.1 <= max_size
                          /\ r.2 = content_length) ext
      /\ Sorted (fun a b => a.1 <= b.1) ext
      /\ (length ext <= length chunks)%nat
      /\ forall p, z.2.2 = Return (Some p) ->
           length ext = length chunks
           /\ default downloaded (last (map fst ext))
              = downloaded + total_len chunks.
Proof.
  induction chunks as [|chunk rest IH]; intros downloaded w log; simpl.
  - exists []. rewrite app_nil_r.
    destruct e; simpl; repeat split; auto; try constructor; lia.
  - destruct (max_size <? downloaded + Z.of_nat (length chunk)) eqn:E.
    + exists []. rewrite app_nil_r. simpl.
      repeat split; auto; try constructor; try lia; discriminate.
    + apply Z.ltb_ge in E. unfold recorder at 1. cbv beta iota zeta.
      destruct (IH (downloaded + Z.of_nat (length chunk))
                  (set_fs (write dest chunk) w)
                  (log ++ [(downloaded + Z.of_nat (length chunk),
                            content_length)]))
        as (ext & H1 & H2 & H3 & H4 & H5).
      destruct (stream_chunks _ _ _ _ rest e _ _ _) as [tr [[w' s'] r]].
      simpl in *.
      exists ((downloaded + Z.of_nat (length chunk), content_length) :: ext).
      split; [rewrite H1, <- app_assoc; reflexivity|]. split.
      { constructor; [simpl; lia|].
        eapply List.Forall_impl; [|exact H2]. simpl. intros r0 Hr. lia. }
      split.
      { constructor; [exact H3|].
        destruct ext as [|y ext]; constructor.
        apply List.Forall_inv in H2. simpl in *. lia. }
      split; [simpl; lia|].
      intros p Hp. destruct (H5 p Hp) as [H6 H7].
      split; [simpl; lia|].
      simpl map. rewrite last_default_cons, H7. lia.
Qed.

Ltac no_report :=
  exists []; rewrite app_nil_r; simpl;
  split; [reflexivity|]; split; [constructor|]; split; [constructor|];
  split; [lia|]; let Hp := fresh "Hp" in intros ? Hp; discriminate Hp.

(** X24: What [_stream_download] tells the progress callback.  The calls
    made during one attempt carry byte counts that never decrease, lie
    between 0 and [max_size], and come with the declared [Content-Length]
    (0 when the header is missing); there is at most one call per chunk of
    the body; and when the attempt succeeds there was one call for every
    chunk, the last of them reporting the size of the file on disk. *)
Theorem stream_download_reports (net : str -> nat -> reply) (url : str)
        (dest : path) (max_size : Z) (w : world) (log : list (Z * Z)) :
  let z := _stream_download net url dest (Some recorder) max_size w log in
  let declared :=
    match net url (requests w) with
    | Response _ (Length n) _ _ => n
    | _ => 0
    end in
  let body :=
    match net url (requests w) with
    | Response _ _ chunks _ => chunks
    | Refused => []
    end in
  exists ext,
    z.2.1.2 = log ++ ext
    /\ Forall (fun r => 0 <= r.1 <= max_size /\ r.2 = declared) ext
    /\ Sorted (fun a b => a.1 <= b.1) ext
    /\ (length ext <= length body)%nat
    /\ forall p, z.2.2 = Return (Some p) ->
         length ext = length body
         /\ exists data,
              lookup_file (fs z.2.1.1) dest = Some (Raw data)
              /\ default 0 (last (map fst ext)) = Z.of_nat (length data).
Proof.
  cbv zeta.
  pose proof (stream_download_content net url dest (Some recorder) max_size
                w log) as Hct.
  unfold _stream_download in *.
  destruct (net url (requests w)) as [|status h chunks e].
  { no_report. }
  destruct (negb (status =? 200)).
  { no_report. }
  assert (Hgo : forall content_length,
    (forall p,
      (if negb (content_length =? 0) && (max_size <? content_length)
       then ([], (count_request w, log, Return None))
       else
         match open_wb dest (fs (count_request w)) with
         | Some fs1 =>
             let w1 := set_fs (fun _ => fs1) (count_request w) in
             let '(tr, r) :=
               stream_chunks dest (Some recorder) max_size content_length
                 chunks e 0 w1 log in
             (w1 :: tr, r)
         | None => ([], (count_request w, log, Raise))
         end).2.2 = Return (Some p) ->
      exists h0 chunks0,
        Response status h chunks e = Response 200 h0 chunks0 Eof
        /\ lookup_file
             (fs (if negb (content_length =? 0) && (max_size <? content_length)
                  then ([], (count_request w, log, Return None))
                  else
                    match open_wb dest (fs (count_request w)) with
                    | Some fs1 =>
                        let w1 := set_fs (fun _ => fs1) (count_request w) in
                        let '(tr, r) :=
                          stream_chunks dest (Some recorder) max_size
                            content_length chunks e 0 w1 log in
                        (w1 :: tr, r)
                    | None => ([], (count_request w, log, Raise))
                    end).2.1.1) dest
           = Some (Raw (concat chunks0))) ->
    let z :=
      if negb (content_length =? 0) && (max_size <? content_length)
      then ([], (count_request w, log, Return None))
      else
        match open_wb dest (fs (count_request w)) with
        | Some fs1 =>
            let w1 := set_fs (fun _ => fs1) (count_request w) in
            let '(tr, r) :=
              stream_chunks dest (Some recorder) max_size content_length
                chunks e 0 w1 log in
            (w1 :: tr, r)
        | None => ([], (count_request w, log, Raise))
        end in
    exists ext,
      z.2.1.2 = log ++ ext
      /\ Forall (fun r => 0 <= r.1 <= max_size /\ r.2 = content_length) ext
      /\ Sorted (fun a b => a.1 <= b.1) ext
      /\ (length ext <= length chunks)%nat
      /\ forall p, z.2.2 = Return (Some p) ->
           length ext = length chunks
           /\ exists data,
                lookup_file (fs z.2.1.1) dest = Some (Raw data)
                /\ default 0 (last (map fst ext)) = Z.of_nat (length data)).
  { clear Hct. intros cl Hc. cbv zeta. revert Hc.
    destruct (negb (cl =? 0) && (max_size <? cl)).
    { intros _. no_report. }
    destruct (open_wb dest (fs (count_request w))) as [fs1|].
    2:{ intros _. no_report. }
    cbv zeta.
    destruct (stream_chunks_reports dest max_size cl chunks e 0
                (set_fs (fun _ => fs1) (count_request w)) log)
      as (ext & H1 & H2 & H3 & H4 & H5).
    destruct (stream_chunks _ _ _ _ chunks e _ _ _) as [tr [[w' s'] r]].
    simpl in *. intros Hc. exists ext.
    split; [exact H1|]. split; [exact H2|]. split; [exact H3|].
    split; [exact H4|].
    intros p Hp. destruct (H5 p Hp) as [H6 H7]. split; [exact H6|].
    destruct (Hc p Hp) as (h0 & chunks0 & Hresp & Hfile).
    injection Hresp as _ _ <- _.
    exists (concat chunks). split; [exact Hfile|].
    rewrite H7, total_len_concat. reflexivity. }
  destruct h as [|n|].
  - apply (Hgo 0). exact Hct.
  - apply (Hgo n). exact Hct.
  - no_report.
Qed.


(** *** utils/zipper.py, services/direct_link_service.py and main.py *)

Section Service.

Import Progress LinkRouter.

Variable net : str -> nat -> reply.
Variable raw_name_of_url : str -> option str.

(** Whether the file system answers a [stat] of the path. *)
Variable stat_ok : path -> bool.

(** The successive readings of [time.monotonic()]. *)
Variable monotonic : nat -> Q.

(** The bytes of an archive file with the given members. *)
Variable zip_bytes : list (str * bytes) -> bytes.

(** Whether [send_video] or [send_document] of a file goes through. *)
Variable upload_ok : path -> bool.

(** config.py: values read from the environment. *)
Variables (MAX_FILE_SIZE MAX_RETRIES : Z) (PROGRESS_UPDATE_INTERVAL : Q).

Definition TELEGRAM_FILE_LIMIT : Z := 50 * 1024 * 1024.

Definition VIDEO_EXTENSIONS : list str :=
  map str_of [".mp4"; ".mkv"; ".avi"; ".mov"; ".webm"]%string.

(** [is_video_file], on a final path component (the callers pass
    [file_path.name]), of which [Path(name).suffix] is the suffix. *)
Definition is_video_file (file_name : str) : bool :=
  if decide (map to_lower (path_suffix file_name) ∈ VIDEO_EXTENSIONS)
  then true else false.

(** What reading a file gives, and [stat().st_size]. *)
Definition read_bytes (c : content) : bytes :=
  match c with
  | Raw data => data
  | Zip entries => zip_bytes entries
  end.

Definition st_size (c : content) : Z := Z.of_nat (length (read_bytes c)).

(** [zf.write(fp, fp.name)] on the archive open at [output]; a missing
    file is skipped. *)
Definition add_member (member : str * bytes) (c : content) : content :=
  match c with
  | Zip entries => Zip (entries ++ [member])
  | Raw data => Raw data
  end.

Definition zip_write (output fp : path) (files : filesystem) : filesystem :=
  match lookup_file files fp with
  | Some c =>
      alter (alter (add_member (name fp, read_bytes c)) (name output))
        (parent output) files
  | None => files
  end.

(** [create_zip]: open the archive, add the files that exist, delete the
    originals, read the size of the archive. *)
Definition create_zip (originals : list path) (output : path)
    (files : filesystem) : filesystem * outcome path :=
  match files !! parent output with
  | None => (files, Raise)
  | Some d =>
      let fs1 := <[parent output := <[name output := Zip []]> d]> files in
      let fs2 := fold_left (fun f fp => zip_write output fp f) originals fs1 in
      let fs3 := fold_left (fun f fp => unlink fp f) originals fs2 in
      match lookup_file fs3 output with
      | Some _ => (fs3, Return output)
      | None => (fs3, Raise)
      end
  end.

(** The state of one batch: the downloader's world, the status message,
    the number of clock readings taken, the session ids passed to
    [cleanup_temp_dir], and the files sent (video or document, and the
    name). *)
Record state := State {
  st_world : world;
  st_msg : surface;
  st_ticks : nat;
  st_cleanups : list str;
  st_sent : list (bool * str)
}.

(** [_safe_edit]: the edit is attempted, a failure is swallowed. *)
Definition _safe_edit (t : text) (st : state) : state :=
  State (st_world st) (st_msg st ++ [t]) (st_ticks st) (st_cleanups st)
    (st_sent st).

Definition with_fs (f : filesystem -> filesystem) (st : state) : state :=
  State (set_fs f (st_world st)) (st_msg st) (st_ticks st) (st_cleanups st)
    (st_sent st).

(** [get_temp_dir]: the directory [TEMP_DIR / session_id]. *)
Definition get_temp_dir (session_id : str) (st : state) : state :=
  with_fs (mkdir session_id) st.

(** [cleanup_temp_dir] *)
Definition cleanup_temp_dir (session_id : str) (st : state) : state :=
  let st := State (st_world st) (st_msg st) (st_ticks st)
              (st_cleanups st ++ [session_id]) (st_sent st) in
  match fs (st_world st) !! session_id with
  | None => st
  | Some _ => with_fs (rmtree session_id) st
  end.

(** [url.rsplit("/", 1)[-1]] *)
Fixpoint last_segment (s : str) : str :=
  match s with
  | [] => []
  | c :: r =>
      if existsb (chr_eqb "/"%char) r then last_segment r
      else if chr_eqb c "/"%char then r else s
  end.

(** [url.rsplit("/", 1)[-1].split("?")[0][:50] or "file"] *)
Definition short_name (url : str) : string :=
  match firstn 50 (before_query (last_segment url)) with
  | [] => "file"%string
  | s => string_of_list_ascii s
  end.

(** [tracker.update] as the progress callback: it reads the clock. *)
Definition tracker_update : @callback (tracker * surface * nat) :=
  fun downloaded total '(tr, m, k) =>
    let '(tr', m', raised) := update (monotonic k) downloaded total (tr, m) in
    ((tr', m', S k), raised).

(** The [for idx, url in enumerate(urls, 1)] loop of [process]. *)
Fixpoint download_all (session_id : str) (count idx : Z) (urls : list str)
    (downloaded : list path) (st : state) : state * outcome (list path) :=
  match urls with
  | [] => (st, Return downloaded)
  | url :: rest =>
      let short := short_name url in
      let st := _safe_edit (TDownloading idx count short) st in
      let tracker := new_tracker short PROGRESS_UPDATE_INTERVAL in
      let '(w', (tr', msg', ticks'), r) :=
        download_file net raw_name_of_url stat_ok url session_id
          (Some tracker_update) MAX_FILE_SIZE MAX_RETRIES
          (st_world st) (tracker, st_msg st, st_ticks st) in
      match r with
      | Raise =>
          (State w' msg' ticks' (st_cleanups st) (st_sent st), Raise)
      | Return (Some file_path) =>
          let '(_, msg'') := complete (tr', msg') in
          download_all session_id count (idx + 1) rest
            (downloaded ++ [file_path])
            (State w' msg'' ticks' (st_cleanups st) (st_sent st))
      | Return None =>
          let '(_, msg'') :=
            error "Download failed after retries" (tr', msg') in
          download_all session_id count (idx + 1) rest downloaded
            (State w' msg'' ticks' (st_cleanups st) (st_sent st))
      end
  end.

(** The archive of a session: [temp_dir / f"files_{session_id}.zip"]. *)
Definition zip_path_of (session_id : str) : path :=
  Path session_id (str_of "files_" ++ session_id ++ str_of ".zip").

(** [DirectLinkService.process], the session id being the one drawn by
    [uuid4]. *)
Definition process (urls : list str) (session_id : str) (st : state)
  : state * outcome (option (path * str)) :=
  let st := get_temp_dir session_id st in
  match download_all session_id (Z.of_nat (length urls)) 1 urls [] st with
  | (st, Raise) => (cleanup_temp_dir session_id st, Raise)
  | (st, Return downloaded) =>
      match downloaded with
      | [] =>
          (cleanup_temp_dir session_id (_safe_edit TNoFiles st), Return None)
      | [file_path] => (st, Return (Some (file_path, session_id)))
      | _ =>
          let st := _safe_edit (TZipping (Z.of_nat (length downloaded))) st in
          match create_zip downloaded (zip_path_of session_id)
                  (fs (st_world st)) with
          | (fs', Return zip_path) =>
              (with_fs (fun _ => fs') st, Return (Some (zip_path, session_id)))
          | (fs', Raise) =>
              (cleanup_temp_dir session_id (with_fs (fun _ => fs') st), Raise)
          end
      end
  end.

(** The [try] block of [_process_urls]: the state, the session id bound
    so far, and whether an exception reached the [except] clause. *)
Definition pipeline_body (urls : list str) (session_id : str) (st : state)
  : state * option str * bool :=
  let routed := route_urls urls in
  let direct_urls :=
    map fst (List.filter (fun r => bool_decide (snd r = DIRECT)) routed) in
  match direct_urls with
  | [] => (_safe_edit TNoSupported st, None, false)
  | _ =>
      match process direct_urls session_id st with
      | (st, Raise) => (st, None, true)
      | (st, Return None) => (st, None, false)
      | (st, Return (Some (file_path, sid))) =>
          match lookup_file (fs (st_world st)) file_path with
          | None => (st, Some sid, true)
          | Some c =>
              if TELEGRAM_FILE_LIMIT <? st_size c then
                (_safe_edit (TTooLarge (st_size c) TELEGRAM_FILE_LIMIT) st,
                 Some sid, false)
              else
                let st := _safe_edit TUploading st in
                if upload_ok file_path then
                  let st :=
                    State (st_world st) (st_msg st) (st_ticks st)
                      (st_cleanups st)
                      (st_sent st
                       ++ [(is_video_file (name file_path), name file_path)])
                  in
                  (_safe_edit (TDone (string_of_list_ascii (name file_path)))
                     st, Some sid, false)
                else (st, Some sid, true)
          end
      end
  end.

(** [_process_urls] once the status message exists: the [try] block, the
    [except] clause and the [finally] clause. *)
Definition _process_urls (urls : list str) (session_id : str) (st : state)
  : state :=
  let '(st, bound, raised) := pipeline_body urls session_id st in
  let st := if raised : bool then _safe_edit TFailed st else st in
  match bound with
  | Some sid =>
      match sid with
      | [] => st
      | _ => cleanup_temp_dir sid st
      end
  | None => st
  end.

(** **** Files: operations on one path seen from another *)

Lemma lookup_alter_file (g : content -> content) (p q : path)
      (files : filesystem) :
  lookup_file (alter (alter g (name p)) (parent p) files) q
  = if decide (p = q) then g <$> lookup_file files q else lookup_file files q.
Proof.
  destruct p as [pd pn], q as [qd qn]. unfold lookup_file. simpl.
  destruct (decide (pd = qd)) as [<-|Hd].
  - rewrite lookup_alter_eq. destruct (files !! pd) as [d|]; simpl.
    + destruct (decide (pn = qn)) as [<-|Hn].
      * rewrite lookup_alter_eq, decide_True by reflexivity. reflexivity.
      * rewrite lookup_alter_ne, decide_False by congruence. reflexivity.
    + destruct (decide _); reflexivity.
  - rewrite lookup_alter_ne, decide_False by congruence. reflexivity.
Qed.

Lemma lookup_unlink (p q : path) (files : filesystem) :
  lookup_file (unlink p files) q
  = if decide (p = q) then None else lookup_file files q.
Proof.
  destruct p as [pd pn], q as [qd qn]. unfold lookup_file, unlink. simpl.
  destruct (decide (pd = qd)) as [<-|Hd].
  - rewrite lookup_alter_eq. destruct (files !! pd) as [d|]; simpl.
    + destruct (decide (pn = qn)) as [<-|Hn].
      * rewrite lookup_delete_eq, decide_True by reflexivity. reflexivity.
      * rewrite lookup_delete_ne, decide_False by congruence. reflexivity.
    + destruct (decide _); reflexivity.
  - rewrite lookup_alter_ne, decide_False by congruence. reflexivity.
Qed.

Lemma lookup_file_dir (files : filesystem) (p : path) :
  is_Some (lookup_file files p) -> is_Some (files !! parent p).
Proof.
  unfold lookup_file. destruct (files !! parent p); [eauto|].
  intros [c Hc]. discriminate.
Qed.

(** **** [create_zip] *)

(** The member written for a file. *)
Definition member_of (files : filesystem) (p : path) : str * bytes :=
  (name p,
   match lookup_file files p with Some c => read_bytes c | None => [] end).

Lemma zip_write_all (output : path) (originals : list path) :
  forall (files : filesystem) (entries : list (str * bytes)),
    output ∉ originals ->
    (forall p, p ∈ originals -> is_Some (lookup_file files p)) ->
    lookup_file files output = Some (Zip entries) ->
    let files' :=
      fold_left (fun f fp => zip_write output fp f) originals files in
    lookup_file files' output
    = Some (Zip (entries ++ map (member_of files) originals))
    /\ forall q, q <> output -> lookup_file files' q = lookup_file files q.
Proof.
  induction originals as [|fp rest IH]; intros files entries Hout Hall Hzip;
    simpl.
  - rewrite app_nil_r. auto.
  - assert (Hfp : fp <> output) by (intros ->; apply Hout; left).
    destruct (Hall fp) as [c Hc]; [left|].
    set (files1 := zip_write output fp files).
    assert (H1 : lookup_file files1 output
                 = Some (Zip (entries ++ [member_of files fp]))).
    { unfold files1, zip_write, member_of. rewrite Hc.
      rewrite lookup_alter_file, decide_True, Hzip by reflexivity.
      reflexivity. }
    assert (H2 : forall q, q <> output ->
                           lookup_file files1 q = lookup_file files q).
    { intros q Hq. unfold files1, zip_write. rewrite Hc.
      rewrite lookup_alter_file, decide_False by congruence. reflexivity. }
    destruct (IH files1 (entries ++ [member_of files fp])) as [Ha Hb].
    + intros Hin. apply Hout. right. exact Hin.
    + intros p Hp. rewrite H2; [apply Hall; right; exact Hp|].
      intros ->. apply Hout. right. exact Hp.
    + exact H1.
    + split.
      * rewrite Ha, <- app_assoc. simpl. do 4 f_equal.
        apply map_ext_in. intros p Hp. unfold member_of.
        rewrite H2; [reflexivity|]. intros ->. apply Hout. right.
        apply list_elem_of_In. exact Hp.
      * intros q Hq. rewrite Hb, H2 by exact Hq. reflexivity.
Qed.

Lemma unlink_all (originals : list path) :
  forall (files : filesystem) (q : path),
    lookup_file (fold_left (fun f fp => unlink fp f) originals files) q
    = if decide (q ∈ originals) then None else lookup_file files q.
Proof.
  induction originals as [|fp rest IH]; intros files q; simpl.
  - destruct (decide (q ∈ [])) as [H|_]; [inversion H|reflexivity].
  - rewrite IH, lookup_unlink.
    destruct (decide (q ∈ rest)) as [Hin|Hnin].
    + rewrite decide_True by (right; exact Hin). reflexivity.
    + destruct (decide (fp = q)) as [->|Hne].
      * rewrite decide_True by left. reflexivity.
      * rewrite decide_False; [reflexivity|].
        intros Hin. apply elem_of_cons in Hin as [->|Hin]; congruence.
Qed.

(** On files that exist, none of them at the archive's own path,
    [create_zip] returns the archive, which holds one member per file,
    in order, and the originals are gone. *)
Lemma create_zip_spec (originals : list path) (output : path)
      (files : filesystem) :
  output ∉ originals ->
  is_Some (files !! parent output) ->
  (forall p, p ∈ originals -> is_Some (lookup_file files p)) ->
  exists files',
    create_zip originals output files = (files', Return output)
    /\ lookup_file files' output
       = Some (Zip (map (member_of files) originals))
    /\ (forall p, p ∈ originals -> lookup_file files' p = None)
    /\ (forall q, q <> output -> q ∉ originals ->
                  lookup_file files' q = lookup_file files q).
Proof.
  intros Hout [d Hd] Hall. unfold create_zip. rewrite Hd.
  set (fs1 := <[parent output := <[name output := Zip []]> d]> files).
  assert (H1 : lookup_file fs1 output = Some (Zip [])).
  { unfold lookup_file, fs1. rewrite lookup_insert_eq. apply lookup_insert_eq. }
  assert (H2 : forall q, q <> output ->
                         lookup_file fs1 q = lookup_file files q).
  { intros [qd qn] Hq. unfold lookup_file, fs1. simpl.
    destruct (decide (parent output = qd)) as [<-|Hne].
    - rewrite lookup_insert_eq, Hd. apply lookup_insert_ne.
      intros <-. apply Hq. destruct output; reflexivity.
    - rewrite lookup_insert_ne by exact Hne. reflexivity. }
  destruct (zip_write_all output originals fs1 [] Hout) as [Ha Hb].
  { intros p Hp. rewrite H2; [apply Hall, Hp|]. intros ->. exact (Hout Hp). }
  { exact H1. }
  set (fs2 := fold_left _ originals fs1) in *.
  set (fs3 := fold_left (fun f fp => unlink fp f) originals fs2).
  assert (H3 : lookup_file fs3 output
               = Some (Zip (map (member_of files) originals))).
  { unfold fs3. rewrite unlink_all, decide_False, Ha by exact Hout.
    simpl. do 2 f_equal. apply map_ext_in. intros p Hp. unfold member_of.
    rewrite H2; [reflexivity|]. intros ->. apply Hout.
    apply list_elem_of_In. exact Hp. }
  exists fs3. rewrite H3. split; [reflexivity|]. split; [reflexivity|].
  split.
  - intros p Hp. unfold fs3. rewrite unlink_all, decide_True by exact Hp.
    reflexivity.
  - intros q Hq Hnin. unfold fs3.
    rewrite unlink_all, decide_False, Hb, H2 by assumption. reflexivity.
Qed.


(** **** The download loop of [process] *)

(** The files recorded as downloaded: distinct paths of the session
    directory, all on disk. *)
Definition all_on_disk (session_id : str) (downloaded : list path)
    (st : state) : Prop :=
  NoDup downloaded
  /\ forall p, p ∈ downloaded ->
       parent p = session_id
       /\ is_Some (lookup_file (fs (st_world st)) p).

Lemma download_all_inv (session_id : str) (count : Z) (urls : list str) :
  forall (idx : Z) (downloaded : list path) (st st1 : state)
         (r : outcome (list path)),
    download_all session_id count idx urls downloaded st = (st1, r) ->
    st_cleanups st1 = st_cleanups st
    /\ st_sent st1 = st_sent st
    /\ (is_Some (fs (st_world st) !! session_id) ->
        is_Some (fs (st_world st1) !! session_id))
    /\ (all_on_disk session_id downloaded st ->
        forall dl, r = Return dl -> all_on_disk session_id dl st1).
Proof.
  induction urls as [|url rest IH]; intros idx downloaded st st1 r Heq.
  - injection Heq as <- <-.
    split; [reflexivity|]. split; [reflexivity|]. split; [auto|].
    intros Hinv dl [= <-]. exact Hinv.
  - cbn [download_all] in Heq. cbv zeta in Heq.
    pose proof (download_file_frame net raw_name_of_url stat_ok url session_id
                  (Some tracker_update) MAX_FILE_SIZE MAX_RETRIES
                  (st_world (_safe_edit (TDownloading idx count
                                           (short_name url)) st))
                  (new_tracker (short_name url) PROGRESS_UPDATE_INTERVAL,
                   st_msg (_safe_edit (TDownloading idx count
                                         (short_name url)) st),
                   st_ticks (_safe_edit (TDownloading idx count
                                           (short_name url)) st))) as Hfr.
    destruct (download_file _ _ _ _ _ _ _ _ _)
      as [[w' [[tr' msg'] ticks']] r'].
    cbv zeta in Hfr. cbn [fst snd] in Hfr.
    change (fs (st_world (_safe_edit (TDownloading idx count (short_name url))
                            st)))
      with (fs (st_world st)) in Hfr.
    change (st_cleanups (_safe_edit (TDownloading idx count (short_name url))
                           st))
      with (st_cleanups st) in Heq.
    change (st_sent (_safe_edit (TDownloading idx count (short_name url)) st))
      with (st_sent st) in Heq.
    destruct r' as [[p|]|].
    + destruct Hfr as (Hpar & Hfree & Hex & Hun).
      destruct (complete (tr', msg')) as [tr'' msg''].
      destruct (IH _ _ _ _ _ Heq) as (H1 & H2 & H3 & H4).
      cbn [st_cleanups st_sent st_world] in H1, H2, H3.
      split; [exact H1|]. split; [exact H2|]. split.
      * intros _. apply H3. rewrite <- Hpar. apply lookup_file_dir, Hex.
      * intros [Hnd Hall] dl Hdl. refine (H4 _ dl Hdl). split.
        -- apply NoDup_app. split; [exact Hnd|].
           split; [|apply NoDup_singleton].
           intros q Hq Hq'. apply list_elem_of_singleton in Hq'. subst q.
           destruct (Hall p Hq) as [_ [c Hc]]. congruence.
        -- intros q Hq. apply elem_of_app in Hq as [Hq|Hq].
           ++ destruct (Hall q Hq) as [Hqp Hqs]. split; [exact Hqp|].
              cbn [st_world].
              assert (Hne : p <> q).
              { intros ->. destruct Hqs as [c Hc]. congruence. }
              rewrite <- Hun, lookup_unlink, decide_False in Hqs by exact Hne.
              exact Hqs.
           ++ apply list_elem_of_singleton in Hq. subst q. auto.
    + destruct (error _ (tr', msg')) as [tr'' msg''].
      destruct (IH _ _ _ _ _ Heq) as (H1 & H2 & H3 & H4).
      cbn [st_cleanups st_sent st_world] in H1, H2, H3.
      split; [exact H1|]. split; [exact H2|]. split.
      * intros Hd. apply H3. rewrite Hfr. exact Hd.
      * intros [Hnd Hall] dl Hdl. refine (H4 _ dl Hdl).
        split; [exact Hnd|].
        intros q Hq. cbn [st_world]. rewrite Hfr. exact (Hall q Hq).
    + destruct Hfr as [Hw _]. injection Hw as -> _ _ _.
      injection Heq as <- <-. cbn [st_cleanups st_sent st_world].
      change (st_world (_safe_edit (TDownloading idx count (short_name url))
                          st))
        with (st_world st).
      split; [reflexivity|]. split; [reflexivity|]. split; [auto|].
      intros _ dl Hdl. discriminate.
Qed.

(** **** The result of a batch *)

(** The three ways [process] ends once the loop has returned its list of
    downloaded files. *)
Lemma process_by_downloaded (urls : list str) (session_id : str)
      (st st1 : state) (downloaded : list path) :
  download_all session_id (Z.of_nat (length urls)) 1 urls []
    (get_temp_dir session_id st) = (st1, Return downloaded) ->
  match downloaded with
  | [] =>
      process urls session_id st
      = (cleanup_temp_dir session_id (_safe_edit TNoFiles st1), Return None)
      /\ last (st_msg (process urls session_id st).1) = Some TNoFiles
  | [file_path] =>
      process urls session_id st
      = (st1, Return (Some (file_path, session_id)))
      /\ is_Some (lookup_file (fs (st_world st1)) file_path)
  | _ =>
      zip_path_of session_id ∉ downloaded ->
      exists st2,
        process urls session_id st
        = (st2, Return (Some (zip_path_of session_id, session_id)))
        /\ lookup_file (fs (st_world st2)) (zip_path_of session_id)
           = Some (Zip (map (member_of (fs (st_world st1))) downloaded))
        /\ NoDup downloaded
        /\ forall p, p ∈ downloaded ->
             is_Some (lookup_file (fs (st_world st1)) p)
             /\ lookup_file (fs (st_world st2)) p = None
  end.
Proof.
  intros Heq.
  destruct (download_all_inv _ _ _ _ _ _ _ _ Heq) as (_ & _ & _ & Hinv).
  assert (Hdisk : all_on_disk session_id downloaded st1).
  { refine (Hinv _ downloaded eq_refl). split; [apply NoDup_nil_2|].
    intros p Hp. inversion Hp. }
  clear Hinv. unfold process. rewrite Heq.
  destruct downloaded as [|p1 [|p2 rest]].
  - split; [reflexivity|]. unfold cleanup_temp_dir. simpl.
    destruct (fs (st_world st1) !! session_id); simpl; apply last_snoc.
  - split; [reflexivity|]. apply Hdisk. left.
  - intros Hzip. destruct Hdisk as [Hnd Hall].
    set (dl := p1 :: p2 :: rest) in *.
    destruct (create_zip_spec dl (zip_path_of session_id)
                (fs (st_world st1)) Hzip) as (fs' & Hc & Hz & Hgone & _).
    + destruct (Hall p1) as [Hp Hs]; [left|]. simpl. rewrite <- Hp.
      apply lookup_file_dir, Hs.
    + intros p Hp. apply Hall, Hp.
    + cbv zeta.
      change (fs (st_world (_safe_edit (TZipping (Z.of_nat (length dl))) st1)))
        with (fs (st_world st1)).
      rewrite Hc. eexists. split; [reflexivity|]. simpl.
      split; [exact Hz|]. split; [exact Hnd|].
      intros p Hp. split; [apply Hall, Hp|apply Hgone, Hp].
Qed.


(** **** Cleanup of the session directory *)

Lemma classify_url_direct (url : str) : classify_url url = DIRECT.
Proof. unfold classify_url. destruct (existsb _ _); reflexivity. Qed.

Lemma routes_all_direct (urls : list str) :
  map fst (List.filter (fun r => bool_decide (snd r = DIRECT))
             (route_urls urls)) = urls.
Proof.
  induction urls as [|url rest IH]; simpl; [reflexivity|].
  rewrite classify_url_direct. simpl. rewrite IH. reflexivity.
Qed.

Lemma cleanup_temp_dir_spec (session_id : str) (st : state) :
  st_cleanups (cleanup_temp_dir session_id st)
  = st_cleanups st ++ [session_id]
  /\ fs (st_world (cleanup_temp_dir session_id st)) !! session_id = None.
Proof.
  unfold cleanup_temp_dir. simpl.
  destruct (fs (st_world st) !! session_id) eqn:E; simpl.
  - split; [reflexivity|apply lookup_delete_eq].
  - split; [reflexivity|exact E].
Qed.

(** Closes a goal about a state that ends with [cleanup_temp_dir], given
    that the session ids logged before it are those of [st]. *)
Ltac after_cleanup Hc :=
  match goal with
  | |- context [cleanup_temp_dir ?sid ?x] =>
      let Ha := fresh "Ha" in
      let Hb := fresh "Hb" in
      destruct (cleanup_temp_dir_spec sid x) as [Ha Hb];
      split;
      [rewrite Ha; cbn [st_cleanups _safe_edit with_fs]; rewrite Hc;
       reflexivity
      |exact Hb]
  end.

(** [process] either hands the session over (a result, no cleanup yet) or
    has cleaned it up itself, once. *)
Lemma process_cleanup (urls : list str) (session_id : str) (st : state) :
  match (process urls session_id st).2 with
  | Return (Some (_, sid)) =>
      sid = session_id
      /\ st_cleanups (process urls session_id st).1 = st_cleanups st
  | _ =>
      st_cleanups (process urls session_id st).1
      = st_cleanups st ++ [session_id]
      /\ fs (st_world (process urls session_id st).1) !! session_id = None
  end.
Proof.
  unfold process.
  destruct (download_all _ _ _ _ _ _) as [st1 r] eqn:Heq.
  destruct (download_all_inv _ _ _ _ _ _ _ _ Heq) as (Hc & _).
  change (st_cleanups (get_temp_dir session_id st)) with (st_cleanups st)
    in Hc.
  destruct r as [downloaded|].
  - destruct downloaded as [|p1 [|p2 rest]].
    + cbn [fst snd]. after_cleanup Hc.
    + cbn [fst snd]. auto.
    + cbv zeta. destruct (create_zip _ _ _) as [fs' [zp|]]; cbn [fst snd].
      * split; [reflexivity|exact Hc].
      * after_cleanup Hc.
  - cbn [fst snd]. after_cleanup Hc.
Qed.

(** C1: whatever the downloads, the archive step, the size check and the
    upload do (succeed, fail, or raise), when [_process_urls] ends the
    session directory is gone and [cleanup_temp_dir] has been called for
    it exactly once. *)
Theorem session_cleanup (urls : list str) (session_id : str) (st : state) :
  urls <> [] -> session_id <> [] ->
  st_cleanups (_process_urls urls session_id st)
  = st_cleanups st ++ [session_id]
  /\ fs (st_world (_process_urls urls session_id st)) !! session_id = None.
Proof.
  intros Hurls Hsid. unfold _process_urls, pipeline_body.
  rewrite routes_all_direct.
  destruct urls as [|u urls]; [contradiction|].
  pose proof (process_cleanup (u :: urls) session_id st) as Hp.
  destruct (process (u :: urls) session_id st) as [st1 [[[p sid]|]|]];
    cbn [fst snd] in Hp.
  - destruct Hp as [-> Hc].
    destruct (lookup_file (fs (st_world st1)) p) as [content|].
    + destruct (TELEGRAM_FILE_LIMIT <? st_size content).
      * destruct session_id; [contradiction|]. after_cleanup Hc.
      * destruct (upload_ok p);
          (destruct session_id; [contradiction|]); after_cleanup Hc.
    + destruct session_id; [contradiction|]. after_cleanup Hc.
  - exact Hp.
  - exact Hp.
Qed.


(** **** Further properties of the archive and of the session directory *)

Lemma zip_write_some (output : path) (originals : list path) :
  forall (files : filesystem) (entries : list (str * bytes)),
    output ∉ originals ->
    lookup_file files output = Some (Zip entries) ->
    let files' :=
      fold_left (fun f fp => zip_write output fp f) originals files in
    lookup_file files' output
    = Some (Zip (entries
                 ++ map (member_of files)
                      (List.filter (path_exists files) originals)))
    /\ forall q, q <> output -> lookup_file files' q = lookup_file files q.
Proof.
  induction originals as [|fp rest IH]; intros files entries Hout Hzip; simpl.
  - rewrite app_nil_r. auto.
  - assert (Hfp : fp <> output) by (intros ->; apply Hout; left).
    assert (Hrest : output ∉ rest) by (intros Hin; apply Hout; right; exact Hin).
    set (files1 := zip_write output fp files).
    assert (H2 : forall q, q <> output ->
                           lookup_file files1 q = lookup_file files q).
    { intros q Hq. unfold files1, zip_write.
      destruct (lookup_file files fp); [|reflexivity].
      rewrite lookup_alter_file, decide_False by congruence. reflexivity. }
    assert (Hsame : map (member_of files1) (List.filter (path_exists files1) rest)
                    = map (member_of files) (List.filter (path_exists files) rest)).
    { assert (Hf : List.filter (path_exists files1) rest
                   = List.filter (path_exists files) rest).
      { apply filter_ext_in. intros p Hp. unfold path_exists.
        rewrite H2; [reflexivity|]. intros ->. apply Hrest.
        apply list_elem_of_In. exact Hp. }
      rewrite Hf. apply map_ext_in. intros p Hp. unfold member_of.
      apply filter_In in Hp as [Hp _].
      rewrite H2; [reflexivity|]. intros ->. apply Hrest.
      apply list_elem_of_In. exact Hp. }
    unfold path_exists at 1.
    destruct (lookup_file files fp) as [c|] eqn:Hc.
    + assert (H1 : lookup_file files1 output
                   = Some (Zip (entries ++ [member_of files fp]))).
      { unfold files1, zip_write, member_of. rewrite Hc.
        rewrite lookup_alter_file, decide_True, Hzip by reflexivity.
        reflexivity. }
      destruct (IH files1 _ Hrest H1) as [Ha Hb]. split.
      * rewrite Ha, Hsame, <- app_assoc. reflexivity.
      * intros q Hq. rewrite Hb, H2 by exact Hq. reflexivity.
    + assert (H1 : lookup_file files1 output = Some (Zip entries)).
      { unfold files1, zip_write. rewrite Hc. exact Hzip. }
      destruct (IH files1 _ Hrest H1) as [Ha Hb]. split.
      * rewrite Ha, Hsame. reflexivity.
      * intros q Hq. rewrite Hb, H2 by exact Hq. reflexivity.
Qed.

(** X16: [create_zip] in an existing directory, on any list of files that
    does not hold the archive's own path: it returns the archive, whose
    members are the files that exist, in the order given (a missing file
    is skipped, not an error); afterwards none of the listed files exists
    and every other file is as before.  In a missing directory it
    raises. *)
Theorem create_zip_skips_missing (originals : list path) (output : path)
        (files : filesystem) :
  output ∉ originals ->
  (is_Some (files !! parent output) ->
   exists files',
     create_zip originals output files = (files', Return output)
     /\ lookup_file files' output
        = Some (Zip (map (member_of files)
                       (List.filter (path_exists files) originals)))
     /\ (forall p, p ∈ originals -> lookup_file files' p = None)
     /\ (forall q, q <> output -> q ∉ originals ->
                   lookup_file files' q = lookup_file files q))
  /\ (files !! parent output = None ->
      create_zip originals output files = (files, Raise)).
Proof.
  intros Hout. split.
  - intros [d Hd]. unfold create_zip. rewrite Hd.
    set (fs1 := <[parent output := <[name output := Zip []]> d]> files).
    assert (H1 : lookup_file fs1 output = Some (Zip [])).
    { unfold lookup_file, fs1. rewrite lookup_insert_eq.
      apply lookup_insert_eq. }
    assert (H2 : forall q, q <> output ->
                           lookup_file fs1 q = lookup_file files q).
    { intros [qd qn] Hq. unfold lookup_file, fs1. simpl.
      destruct (decide (parent output = qd)) as [<-|Hne].
      - rewrite lookup_insert_eq, Hd. apply lookup_insert_ne.
        intros <-. apply Hq. destruct output; reflexivity.
      - rewrite lookup_insert_ne by exact Hne. reflexivity. }
    destruct (zip_write_some output originals fs1 [] Hout H1) as [Ha Hb].
    set (fs2 := fold_left _ originals fs1) in *.
    set (fs3 := fold_left (fun f fp => unlink fp f) originals fs2).
    assert (Hmem : map (member_of fs1) (List.filter (path_exists fs1) originals)
                   = map (member_of files)
                       (List.filter (path_exists files) originals)).
    { assert (Hf : List.filter (path_exists fs1) originals
                   = List.filter (path_exists files) originals).
      { apply filter_ext_in. intros p Hp. unfold path_exists.
        rewrite H2; [reflexivity|]. intros ->. apply Hout.
        apply list_elem_of_In. exact Hp. }
      rewrite Hf. apply map_ext_in. intros p Hp. unfold member_of.
      apply filter_In in Hp as [Hp _].
      rewrite H2; [reflexivity|]. intros ->. apply Hout.
      apply list_elem_of_In. exact Hp. }
    assert (H3 : lookup_file fs3 output
                 = Some (Zip (map (member_of files)
                                (List.filter (path_exists files) originals)))).
    { unfold fs3. rewrite unlink_all, decide_False, Ha by exact Hout.
      simpl. rewrite Hmem. reflexivity. }
    exists fs3. rewrite H3. split; [reflexivity|]. split; [reflexivity|].
    split.
    + intros p Hp. unfold fs3. rewrite unlink_all, decide_True by exact Hp.
      reflexivity.
    + intros q Hq Hnin. unfold fs3.
      rewrite unlink_all, decide_False, Hb, H2 by assumption. reflexivity.
  - intros Hnone. unfold create_zip. rewrite Hnone. reflexivity.
Qed.

(** X17: [get_temp_dir] makes sure the session directory exists and
    changes nothing else: every file, in this directory or another, is as
    before, other directories are untouched, and a second call changes
    nothing. *)
Theorem get_temp_dir_keeps (session_id : str) (st : state) :
  is_Some (fs (st_world (get_temp_dir session_id st)) !! session_id)
  /\ (forall p, lookup_file (fs (st_world (get_temp_dir session_id st))) p
                = lookup_file (fs (st_world st)) p)
  /\ (forall other, other <> session_id ->
        fs (st_world (get_temp_dir session_id st)) !! other
        = fs (st_world st) !! other)
  /\ get_temp_dir session_id (get_temp_dir session_id st)
     = get_temp_dir session_id st.
Proof.
  unfold get_temp_dir, with_fs, set_fs, mkdir. simpl.
  destruct (fs (st_world st) !! session_id) as [d|] eqn:Hd; simpl.
  - rewrite Hd. split; [eauto|]. split; [reflexivity|].
    split; [reflexivity|]. reflexivity.
  - rewrite lookup_insert_eq. split; [eauto|]. split; [|split].
    + intros [pd pn]. unfold lookup_file. simpl.
      destruct (decide (session_id = pd)) as [<-|Hne].
      * rewrite lookup_insert_eq, Hd. apply lookup_empty.
      * rewrite lookup_insert_ne by exact Hne. reflexivity.
    + intros other Hne. apply lookup_insert_ne. congruence.
    + reflexivity.
Qed.

(** X18: [cleanup_temp_dir] removes the session directory with every file
    in it and touches no other directory; on a missing directory it
    changes no file, so a second call is harmless; and creating a
    directory then cleaning it up leaves the files as they were without
    it. *)
Theorem cleanup_temp_dir_effect (session_id : str) (st : state) :
  fs (st_world (cleanup_temp_dir session_id st)) = delete session_id
                                                     (fs (st_world st))
  /\ (forall p, parent p = session_id ->
        lookup_file (fs (st_world (cleanup_temp_dir session_id st))) p = None)
  /\ (forall other, other <> session_id ->
        fs (st_world (cleanup_temp_dir session_id st)) !! other
        = fs (st_world st) !! other)
  /\ fs (st_world (cleanup_temp_dir session_id
                     (cleanup_temp_dir session_id st)))
     = fs (st_world (cleanup_temp_dir session_id st))
  /\ fs (st_world (cleanup_temp_dir session_id (get_temp_dir session_id st)))
     = delete session_id (fs (st_world st)).
Proof.
  assert (H : forall st0,
             fs (st_world (cleanup_temp_dir session_id st0))
             = delete session_id (fs (st_world st0))).
  { intros st0. unfold cleanup_temp_dir. simpl.
    destruct (fs (st_world st0) !! session_id) eqn:E; simpl; [reflexivity|].
    symmetry. apply delete_id, E. }
  split; [apply H|]. split; [|split; [|split]].
  - intros p Hp. rewrite H. unfold lookup_file. rewrite Hp, lookup_delete_eq.
    reflexivity.
  - intros other Hne. rewrite H. apply lookup_delete_ne. congruence.
  - rewrite !H. apply delete_delete_eq.
  - rewrite H. unfold get_temp_dir, with_fs, set_fs, mkdir. simpl.
    destruct (fs (st_world st) !! session_id) eqn:E; [reflexivity|].
    apply delete_insert_eq.
Qed.


(** **** What a batch leaves alone, and what it sends *)

Lemma cleanup_temp_dir_frame (session_id : str) (st : state) :
  st_sent (cleanup_temp_dir session_id st) = st_sent st
  /\ forall other, other <> session_id ->
       fs (st_world (cleanup_temp_dir session_id st)) !! other
       = fs (st_world st) !! other.
Proof.
  unfold cleanup_temp_dir. simpl.
  destruct (fs (st_world st) !! session_id); simpl.
  - split; [reflexivity|]. intros other Hne. unfold rmtree.
    apply lookup_delete_ne. congruence.
  - split; [reflexivity|]. intros other _. reflexivity.
Qed.

Lemma fold_left_elsewhere (step : filesystem -> path -> filesystem)
      (other : str) (l : list path) :
  (forall files p, p ∈ l -> step files p !! other = files !! other) ->
  forall files, fold_left step l files !! other = files !! other.
Proof.
  induction l as [|p l IH]; intros Hstep files; simpl; [reflexivity|].
  rewrite IH.
  - apply Hstep. left.
  - intros f q Hq. apply Hstep. right. exact Hq.
Qed.

Lemma create_zip_elsewhere (originals : list path) (output : path)
      (files : filesystem) (other : str) :
  parent output <> other ->
  (forall p, p ∈ originals -> parent p <> other) ->
  (create_zip originals output files).1 !! other = files !! other.
Proof.
  intros Hout Hall. unfold create_zip.
  destruct (files !! parent output) as [d|]; [|reflexivity].
  set (fs1 := <[parent output := <[name output := Zip []]> d]> files).
  set (fs2 := fold_left (fun f fp => zip_write output fp f) originals fs1).
  set (fs3 := fold_left (fun f fp => unlink fp f) originals fs2).
  assert (H : fs3 !! other = files !! other).
  { unfold fs3. rewrite fold_left_elsewhere.
    - unfold fs2. rewrite fold_left_elsewhere.
      + unfold fs1. apply lookup_insert_ne. exact Hout.
      + intros f p Hp. unfold zip_write.
        destruct (lookup_file f p); [|reflexivity].
        apply lookup_alter_ne. exact Hout.
    - intros f p Hp. unfold unlink. apply lookup_alter_ne. apply Hall, Hp. }
  destruct (lookup_file fs3 output); exact H.
Qed.

Lemma create_zip_returns (originals : list path) (output zp : path)
      (files : filesystem) :
  (create_zip originals output files).2 = Return zp -> zp = output.
Proof.
  unfold create_zip. destruct (files !! parent output); [|discriminate].
  destruct (lookup_file _ output); [|discriminate].
  intros [= <-]. reflexivity.
Qed.

Lemma download_all_elsewhere (session_id other : str) (count : Z)
      (urls : list str) :
  other <> session_id ->
  forall (idx : Z) (downloaded : list path) (st st1 : state)
         (r : outcome (list path)),
    download_all session_id count idx urls downloaded st = (st1, r) ->
    fs (st_world st1) !! other = fs (st_world st) !! other.
Proof.
  intros Hne.
  induction urls as [|url rest IH]; intros idx downloaded st st1 r Heq.
  - injection Heq as <- <-. reflexivity.
  - cbn [download_all] in Heq. cbv zeta in Heq.
    pose proof (download_file_frame net raw_name_of_url stat_ok url session_id
                  (Some tracker_update) MAX_FILE_SIZE MAX_RETRIES
                  (st_world (_safe_edit (TDownloading idx count
                                           (short_name url)) st))
                  (new_tracker (short_name url) PROGRESS_UPDATE_INTERVAL,
                   st_msg (_safe_edit (TDownloading idx count
                                         (short_name url)) st),
                   st_ticks (_safe_edit (TDownloading idx count
                                           (short_name url)) st))) as Hfr.
    destruct (download_file _ _ _ _ _ _ _ _ _)
      as [[w' [[tr' msg'] ticks']] r'].
    cbv zeta in Hfr. cbn [fst snd] in Hfr.
    change (fs (st_world (_safe_edit (TDownloading idx count (short_name url))
                            st)))
      with (fs (st_world st)) in Hfr.
    destruct r' as [[p|]|].
    + destruct Hfr as (Hpar & Hfree & Hex & Hun).
      destruct (complete (tr', msg')) as [tr'' msg''].
      rewrite (IH _ _ _ _ _ Heq). cbn [st_world].
      rewrite <- Hun. unfold unlink. symmetry. apply lookup_alter_ne.
      congruence.
    + destruct (error _ (tr', msg')) as [tr'' msg''].
      rewrite (IH _ _ _ _ _ Heq). cbn [st_world]. rewrite Hfr. reflexivity.
    + destruct Hfr as [Hw _]. injection Hw as -> _ _ _.
      injection Heq as <- <-. reflexivity.
Qed.

(** [process] sends nothing, touches no directory but the session's, and
    hands back a file of the session directory with the session id. *)
Lemma process_frame (urls : list str) (session_id : str) (st : state) :
  st_sent (process urls session_id st).1 = st_sent st
  /\ (forall other, other <> session_id ->
        fs (st_world (process urls session_id st).1) !! other
        = fs (st_world st) !! other)
  /\ forall fp sid,
       (process urls session_id st).2 = Return (Some (fp, sid)) ->
       sid = session_id /\ parent fp = session_id.
Proof.
  assert (Hget : forall other, other <> session_id ->
            fs (st_world (get_temp_dir session_id st)) !! other
            = fs (st_world st) !! other).
  { intros other Hne. unfold get_temp_dir, with_fs, set_fs, mkdir. simpl.
    destruct (fs (st_world st) !! session_id); [reflexivity|].
    apply lookup_insert_ne. congruence. }
  unfold process.
  destruct (download_all session_id (Z.of_nat (length urls)) 1 urls []
              (get_temp_dir session_id st)) as [st1 r] eqn:Heq.
  destruct (download_all_inv _ _ _ _ _ _ _ _ Heq) as (_ & Hsent & _ & Hinv).
  assert (Hels : forall other, other <> session_id ->
            fs (st_world st1) !! other = fs (st_world st) !! other).
  { intros other Hne.
    rewrite (download_all_elsewhere _ _ _ _ Hne _ _ _ _ _ Heq).
    apply Hget, Hne. }
  change (st_sent (get_temp_dir session_id st)) with (st_sent st) in Hsent.
  destruct r as [downloaded|].
  - assert (Hdisk : all_on_disk session_id downloaded st1).
    { refine (Hinv _ downloaded eq_refl). split; [apply NoDup_nil_2|].
      intros p Hp. inversion Hp. }
    destruct downloaded as [|p1 [|p2 rest]].
    + destruct (cleanup_temp_dir_frame session_id (_safe_edit TNoFiles st1))
        as [Ha Hb].
      cbn [fst snd]. split; [rewrite Ha; exact Hsent|]. split.
      * intros other Hne. rewrite Hb by exact Hne. apply Hels, Hne.
      * intros fp sid H0. discriminate H0.
    + cbn [fst snd]. split; [exact Hsent|]. split; [exact Hels|].
      intros fp sid [= <- <-]. split; [reflexivity|]. apply Hdisk. left.
    + cbv zeta. set (dl := p1 :: p2 :: rest) in *.
      change (fs (st_world (_safe_edit (TZipping (Z.of_nat (length dl))) st1)))
        with (fs (st_world st1)).
      pose proof (fun zp => create_zip_returns dl (zip_path_of session_id) zp
                            (fs (st_world st1))) as Hret.
      assert (Hz : forall other, other <> session_id ->
                (create_zip dl (zip_path_of session_id)
                   (fs (st_world st1))).1 !! other
                = fs (st_world st1) !! other).
      { intros other Hne. apply create_zip_elsewhere.
        - simpl. congruence.
        - intros p Hp. destruct Hdisk as [_ Hall].
          destruct (Hall p Hp) as [Hp' _]. congruence. }
      destruct (create_zip dl _ _) as [fs' [zp|]]; cbn [fst snd] in *.
      * split; [exact Hsent|]. split.
        -- intros other Hne. cbn. rewrite Hz by exact Hne. apply Hels, Hne.
        -- intros fp sid [= <- <-]. split; [reflexivity|].
           rewrite (Hret zp eq_refl). reflexivity.
      * destruct (cleanup_temp_dir_frame session_id
                    (with_fs (fun _ => fs')
                       (_safe_edit (TZipping (Z.of_nat (length dl))) st1)))
          as [Ha Hb].
        split; [rewrite Ha; exact Hsent|]. split.
        -- intros other Hne. rewrite Hb by exact Hne. cbn.
           rewrite Hz by exact Hne. apply Hels, Hne.
        -- intros fp sid H0. discriminate H0.
  - destruct (cleanup_temp_dir_frame session_id st1) as [Ha Hb].
    cbn [fst snd]. split; [rewrite Ha; exact Hsent|]. split.
    + intros other Hne. rewrite Hb by exact Hne. apply Hels, Hne.
    + intros fp sid H0. discriminate H0.
Qed.

(** The [try] block of [_process_urls]: it touches no directory but the
    session's, binds no session id but the one [process] drew, and sends at
    most one file. *)
Lemma pipeline_body_frame (urls : list str) (session_id : str) (st : state) :
  let z := pipeline_body urls session_id st in
  (forall other, other <> session_id ->
     fs (st_world z.1.1) !! other = fs (st_world st) !! other)
  /\ (forall sid, z.1.2 = Some sid -> sid = session_id)
  /\ (st_sent z.1.1 = st_sent st
      \/ exists p c,
           st_sent z.1.1 = st_sent st ++ [(is_video_file (name p), name p)]
           /\ parent p = session_id
           /\ lookup_file (fs (st_world z.1.1)) p = Some c
           /\ st_size c <= TELEGRAM_FILE_LIMIT
           /\ upload_ok p = true
           /\ z.2 = false).
Proof.
  cbv zeta. unfold pipeline_body.
  destruct (map fst (List.filter _ (route_urls urls))) as [|u us].
  { cbn [fst snd]. split; [reflexivity|]. split; [discriminate|].
    left. reflexivity. }
  set (du := u :: us).
  destruct (process_frame du session_id st) as (Hs & He & Hr).
  destruct (process du session_id st) as [st1 [[[fp sid]|]|]];
    cbn [fst snd] in *.
  - destruct (Hr fp sid eq_refl) as [-> Hpar].
    destruct (lookup_file (fs (st_world st1)) fp) as [c|] eqn:Hc.
    + destruct (TELEGRAM_FILE_LIMIT <? st_size c) eqn:Hlim.
      * cbn [fst snd]. split; [exact He|]. split; [congruence|].
        left. exact Hs.
      * destruct (upload_ok fp) eqn:Hup; cbn [fst snd].
        -- split; [exact He|]. split; [congruence|]. right.
           exists fp, c. cbn. rewrite Hs. split; [reflexivity|].
           split; [exact Hpar|]. split; [exact Hc|].
           split; [apply Z.ltb_ge, Hlim|]. split; [exact Hup|reflexivity].
        -- split; [exact He|]. split; [congruence|]. left. exact Hs.
    + cbn [fst snd]. split; [exact He|]. split; [congruence|].
      left. exact Hs.
  - split; [exact He|]. split; [discriminate|]. left. exact Hs.
  - split; [exact He|]. split; [discriminate|]. left. exact Hs.
Qed.

(** X19: A batch works in its own session directory only: whatever the
    URLs and the server do, [_process_urls] leaves every other directory
    under the temporary root, with its files, as it was. *)
Theorem process_urls_other_sessions (urls : list str)
        (session_id other : str) (st : state) :
  other <> session_id ->
  fs (st_world (_process_urls urls session_id st)) !! other
  = fs (st_world st) !! other.
Proof.
  intros Hne. unfold _process_urls.
  destruct (pipeline_body_frame urls session_id st) as (He & Hb & _).
  destruct (pipeline_body urls session_id st) as [[st1 bound] raised].
  cbn [fst snd] in *.
  assert (H1 : fs (st_world (if raised then _safe_edit TFailed st1 else st1))
               !! other = fs (st_world st) !! other).
  { destruct raised; apply He, Hne. }
  destruct bound as [sid|]; [|exact H1].
  rewrite (Hb sid eq_refl) in *.
  destruct session_id as [|c r]; [exact H1|].
  destruct (cleanup_temp_dir_frame (c :: r)
              (if raised then _safe_edit TFailed st1 else st1)) as [_ Hc].
  rewrite Hc by exact Hne. exact H1.
Qed.

(** X20: The upload gate of [_process_urls].  A batch sends at most one
    file, and what the [finally] and [except] clauses do changes nothing
    of it.  A file is sent only when it lies in the session directory, is
    on disk with a size within [TELEGRAM_FILE_LIMIT], and the upload went
    through; it goes out as a video exactly when [is_video_file] accepts its
    name, and under its own name. *)
Theorem upload_gate (urls : list str) (session_id : str) (st : state) :
  let z := pipeline_body urls session_id st in
  st_sent (_process_urls urls session_id st) = st_sent z.1.1
  /\ (st_sent z.1.1 = st_sent st
      \/ exists p c,
           st_sent z.1.1 = st_sent st ++ [(is_video_file (name p), name p)]
           /\ parent p = session_id
           /\ lookup_file (fs (st_world z.1.1)) p = Some c
           /\ st_size c <= TELEGRAM_FILE_LIMIT
           /\ upload_ok p = true
           /\ z.2 = false).
Proof.
  cbv zeta. split; [|apply pipeline_body_frame].
  unfold _process_urls.
  destruct (pipeline_body urls session_id st) as [[st1 bound] raised].
  cbn [fst snd].
  assert (H1 : st_sent (if raised then _safe_edit TFailed st1 else st1)
               = st_sent st1) by (destruct raised; reflexivity).
  destruct bound as [[|c r]|]; try exact H1.
  destruct (cleanup_temp_dir_frame (c :: r)
              (if raised then _safe_edit TFailed st1 else st1)) as [Ha _].
  rewrite Ha. exact H1.
Qed.

(** **** Names *)

Lemma to_lower_dot (c : ascii) :
  chr_eqb (to_lower c) "."%char = chr_eqb c "."%char.
Proof.
  apply Bool.eqb_prop.
  apply (all_ascii (fun c => Bool.eqb (chr_eqb (to_lower c) "."%char)
                               (chr_eqb c "."%char))).
  vm_compute. reflexivity.
Qed.

Lemma to_lower_idem (c : ascii) : to_lower (to_lower c) = to_lower c.
Proof.
  apply Ascii.eqb_eq.
  apply (all_ascii (fun c => Ascii.eqb (to_lower (to_lower c)) (to_lower c))).
  vm_compute. reflexivity.
Qed.

Lemma rfind_dot_lower (s : str) :
  rfind_dot (map to_lower s) = rfind_dot s.
Proof.
  induction s as [|c s IH]; simpl; [reflexivity|].
  rewrite IH, to_lower_dot. reflexivity.
Qed.

Lemma path_suffix_lower (s : str) :
  path_suffix (map to_lower s) = map to_lower (path_suffix s).
Proof.
  unfold path_suffix. rewrite rfind_dot_lower, length_map.
  destruct (rfind_dot s) as [i|]; [|reflexivity].
  destruct (_ && _); [|reflexivity].
  apply skipn_map.
Qed.

(** X21: [is_video_file] on a file name, that is a final path component,
    which is what [_process_urls] passes ([file_path.name]): the answer
    ignores the case of the letters; a name without a suffix is no video;
    and a name made of a stem that is not empty and of one of the five
    video extensions, in any mix of cases, is a video. *)
Theorem is_video_file_case (a : str) :
  ~ In "/"%char a ->
  is_video_file (map to_lower a) = is_video_file a
  /\ (path_suffix a = [] -> is_video_file a = false)
  /\ (forall stem ext,
        a = stem ++ ext -> stem <> [] ->
        In (map to_lower ext) VIDEO_EXTENSIONS ->
        is_video_file a = true).
Proof.
  intros _. unfold is_video_file. split; [|split].
  - rewrite path_suffix_lower.
    assert (E : map to_lower (map to_lower (path_suffix a))
                = map to_lower (path_suffix a)).
    { rewrite map_map. apply map_ext. intros c. apply to_lower_idem. }
    rewrite E. reflexivity.
  - intros ->. reflexivity.
  - intros stem ext -> Hstem Hin.
    assert (E : map to_lower (path_suffix (stem ++ ext)) = map to_lower ext).
    { rewrite <- path_suffix_lower, map_app.
      assert (Hs : map to_lower stem <> [])
        by (destruct stem; [contradiction|discriminate]).
      simpl in Hin.
      destruct Hin as [H|[H|[H|[H|[H|[]]]]]]; rewrite <- H;
        apply path_suffix_app_dot; try exact Hs; try discriminate;
        reflexivity. }
    rewrite E. destruct (decide _) as [_|Hn]; [reflexivity|].
    exfalso. apply Hn, list_elem_of_In, Hin.
Qed.

Lemma last_segment_no_slash (s : str) : ~ In "/"%char (last_segment s).
Proof.
  induction s as [|c r IH]; simpl; [tauto|].
  destruct (existsb (chr_eqb "/"%char) r) eqn:E; [exact IH|].
  assert (Hr : ~ In "/"%char r).
  { intros Hin. assert (Ex : existsb (chr_eqb "/"%char) r = true).
    { apply existsb_exists. exists "/"%char. split; [exact Hin|reflexivity]. }
    congruence. }
  destruct (chr_eqb c "/"%char) eqn:Ec; [exact Hr|].
  intros [->|Hin]; [discriminate Ec|exact (Hr Hin)].
Qed.

Lemma before_query_in (s : str) (c : ascii) :
  In c (before_query s) -> In c s /\ c <> "?"%char.
Proof.
  induction s as [|x r IH]; simpl; [tauto|].
  destruct (chr_eqb x "?"%char) eqn:E; simpl; [tauto|].
  intros [<-|Hin].
  - split; [left; reflexivity|]. intros ->. discriminate E.
  - destruct (IH Hin). split; [right|]; assumption.
Qed.

(** X22: The name shown while a file downloads,
    [url.rsplit("/", 1)[-1].split("?")[0][:50] or "file"]: between 1 and 50
    characters, with no slash and no question mark; and when the part of
    the URL after its last slash is short and has no query, that part
    unchanged. *)
Theorem short_name_shape (url : str) :
  let s := list_ascii_of_string (short_name url) in
  (1 <= length s <= 50)%nat
  /\ ~ In "/"%char s /\ ~ In "?"%char s
  /\ (forall seg, seg <> [] -> (length seg <= 50)%nat ->
        ~ In "/"%char seg -> ~ In "?"%char seg ->
        forall front,
          list_ascii_of_string (short_name (front ++ "/"%char :: seg)) = seg).
Proof.
  cbv zeta. unfold short_name.
  assert (Hin : forall c, In c (firstn 50 (before_query (last_segment url))) ->
                          c <> "/"%char /\ c <> "?"%char).
  { intros c Hc.
    assert (Hb : In c (before_query (last_segment url))).
    { rewrite <- (firstn_skipn 50). apply in_or_app. left. exact Hc. }
    apply before_query_in in Hb as [Hl Hq]. split; [|exact Hq].
    intros ->. exact (last_segment_no_slash url Hl). }
  split; [|split; [|split]].
  - pose proof (firstn_le_length 50 (before_query (last_segment url))) as Hle.
    destruct (firstn 50 _) as [|c r] eqn:E.
    + simpl. lia.
    + rewrite list_ascii_of_string_of_list_ascii. simpl in *. lia.
  - destruct (firstn 50 _) as [|c r] eqn:E.
    + simpl. intros H. repeat destruct H as [H|H]; solve [discriminate H|exact H].
    + rewrite list_ascii_of_string_of_list_ascii. intros H.
      destruct (Hin _ H) as [H1 _]. congruence.
  - destruct (firstn 50 _) as [|c r] eqn:E.
    + simpl. intros H. repeat destruct H as [H|H]; solve [discriminate H|exact H].
    + rewrite list_ascii_of_string_of_list_ascii. intros H.
      destruct (Hin _ H) as [_ H1]. congruence.
  - intros seg Hne Hlen Hs Hq front.
    assert (Hl : last_segment (front ++ "/"%char :: seg) = seg).
    { assert (Hex : existsb (chr_eqb "/"%char) seg = false).
      { destruct (existsb _ seg) eqn:Ex; [|reflexivity].
        apply existsb_exists in Ex as (x & Hx & Ex).
        apply Ascii.eqb_eq in Ex. subst x. contradiction. }
      induction front as [|c front IH]; simpl.
      - rewrite Hex. reflexivity.
      - rewrite existsb_app. simpl. rewrite orb_true_r. exact IH. }
    assert (Hb : before_query seg = seg).
    { clear Hl Hne Hlen Hs. induction seg as [|x r IH]; simpl; [reflexivity|].
      destruct (chr_eqb x "?"%char) eqn:E.
      - apply Ascii.eqb_eq in E. subst x. exfalso. apply Hq. left. reflexivity.
      - rewrite IH; [reflexivity|]. intros H. apply Hq. right. exact H. }
    rewrite Hl, Hb, firstn_all2 by exact Hlen.
    destruct seg as [|x r]; [congruence|].
    apply list_ascii_of_string_of_list_ascii.
Qed.


(** **** The transcript of a batch *)

(** The texts that announce a file or settle its fate. *)
Definition key (t : text) : bool :=
  match t with
  | TDownloading _ _ _ | TComplete _ | TError _ _ => true
  | _ => false
  end.

(** For each URL in turn, its announcement and its verdict: downloaded, or
    failed after the retries. *)
Fixpoint transcript (count idx : Z) (urls : list str) (verdicts : list bool)
  : list text :=
  match urls, verdicts with
  | url :: urls', v :: verdicts' =>
      TDownloading idx count (short_name url)
      :: (if v : bool then TComplete (short_name url)
          else TError (short_name url) "Download failed after retries")
      :: transcript count (idx + 1) urls' verdicts'
  | _, _ => []
  end.

(** What the progress callback keeps of a tracker and the status message:
    the file name, a last text that is a progress text, and the
    announcements and verdicts shown so far. *)
Definition track_inv (short : string) (msg0 : surface)
    (s : tracker * surface * nat) : Prop :=
  filename s.1.1 = short
  /\ (forall t, last_text s.1.1 = Some t -> key t = false)
  /\ List.filter key s.1.2 = List.filter key msg0.

Lemma progress_text_key (name : string) (downloaded total : Z) (t : text) :
  progress_text name downloaded total = Some t -> key t = false.
Proof.
  unfold progress_text. destruct (0 <? total).
  - destruct (py_int _) as [k|]; [|discriminate].
    destruct (_bar _ _); [|discriminate]. intros [= <-]. reflexivity.
  - intros [= <-]. reflexivity.
Qed.

Lemma filter_key_snoc (msg : surface) (t : text) :
  List.filter key (msg ++ [t])
  = List.filter key msg ++ (if key t then [t] else []).
Proof. rewrite List.filter_app. simpl. destruct (key t); reflexivity. Qed.

Lemma tracker_update_inv (short : string) (msg0 : surface) (d t : Z)
      (s : tracker * surface * nat) :
  track_inv short msg0 s -> track_inv short msg0 (tracker_update d t s).1.
Proof.
  destruct s as [[tr m] k]. unfold track_inv, tracker_update, update. simpl.
  intros (Hf & Hl & Hm).
  destruct (Qlt_le_dec _ _); simpl; [auto|].
  destruct (progress_text (filename tr) d t) as [x|] eqn:E; simpl; [|auto].
  apply progress_text_key in E.
  destruct (decide (Some x = last_text tr)); simpl; [auto|].
  split; [exact Hf|]. split.
  - intros y [= <-]. exact E.
  - rewrite filter_key_snoc, E, app_nil_r. exact Hm.
Qed.

Lemma verdict_shown (t : text) (tr : tracker) (m : surface) :
  key t = true ->
  (forall x, last_text tr = Some x -> key x = false) ->
  (_edit t (tr, m)).2 = m ++ [t].
Proof.
  intros Ht Hl. unfold _edit.
  destruct (decide (Some t = last_text tr)) as [E|E]; [|reflexivity].
  symmetry in E. apply Hl in E. congruence.
Qed.

Lemma download_all_transcript (session_id : str) (count : Z)
      (urls : list str) :
  forall (idx : Z) (downloaded : list path) (st st1 : state)
         (dl : list path),
    download_all session_id count idx urls downloaded st
    = (st1, Return dl) ->
    exists verdicts,
      length verdicts = length urls
      /\ List.filter key (st_msg st1)
         = List.filter key (st_msg st) ++ transcript count idx urls verdicts
      /\ length dl
         = (length downloaded + length (List.filter id verdicts))%nat.
Proof.
  induction urls as [|url rest IH]; intros idx downloaded st st1 dl Heq.
  - injection Heq as <- <-. exists []. simpl. rewrite app_nil_r.
    split; [reflexivity|]. split; [reflexivity|lia].
  - cbn [download_all] in Heq. cbv zeta in Heq.
    set (short := short_name url) in *.
    pose proof (download_file_state net raw_name_of_url stat_ok
                  (track_inv short (st_msg st ++ [TDownloading idx count short]))
                  (Some tracker_update) url session_id
                  MAX_FILE_SIZE MAX_RETRIES
                  (st_world (_safe_edit (TDownloading idx count short) st))
                  (new_tracker short PROGRESS_UPDATE_INTERVAL,
                   st_msg (_safe_edit (TDownloading idx count short) st),
                   st_ticks (_safe_edit (TDownloading idx count short) st)))
      as Hinv.
    destruct (download_file _ _ _ _ _ _ _ _ _)
      as [[w' [[tr' msg'] ticks']] r'].
    destruct Hinv as (Hf & Hl & Hm).
    { intros f d t s0 [= <-]. apply tracker_update_inv. }
    { split; [reflexivity|]. split; [discriminate|reflexivity]. }
    cbn [fst snd] in Hf, Hl, Hm. rewrite filter_key_snoc in Hm.
    cbn [key] in Hm.
    destruct r' as [[p|]|]; [| |discriminate].
    + pose proof (verdict_shown (TComplete (filename tr')) tr' msg'
                    eq_refl Hl) as Hv.
      unfold complete in Heq. cbn [fst] in Heq.
      destruct (_edit (TComplete (filename tr')) (tr', msg'))
        as [tr'' msg'']. cbn [snd] in Hv. subst msg''.
      destruct (IH _ _ _ _ _ Heq) as (vs & H1 & H2 & H3).
      exists (true :: vs). cbn [st_msg] in H2.
      split; [simpl; lia|]. split.
      * rewrite H2, filter_key_snoc, Hm, Hf. cbn [key transcript].
        rewrite <- !app_assoc. reflexivity.
      * rewrite H3, length_app. simpl. lia.
    + pose proof (verdict_shown
                    (TError (filename tr') "Download failed after retries")
                    tr' msg' eq_refl Hl) as Hv.
      unfold error in Heq. cbn [fst] in Heq.
      destruct (_edit (TError (filename tr') _) (tr', msg'))
        as [tr'' msg'']. cbn [snd] in Hv. subst msg''.
      destruct (IH _ _ _ _ _ Heq) as (vs & H1 & H2 & H3).
      exists (false :: vs). cbn [st_msg] in H2.
      split; [simpl; lia|]. split.
      * rewrite H2, filter_key_snoc, Hm, Hf. cbn [key transcript].
        rewrite <- !app_assoc. reflexivity.
      * rewrite H3. simpl. lia.
Qed.

(** X25: The transcript of [process] when it returns.  Among the texts the
    status message was given, the announcements and verdicts are, for each
    URL in the order of the list: [Downloading file i/n] with [i] counting
    from 1 and [n] the number of URLs, then exactly one verdict, downloaded
    or failed after retries.  The result is [None] exactly when no URL got
    the verdict downloaded. *)
Theorem process_transcript (urls : list str) (session_id : str) (st : state)
        (res : option (path * str)) :
  (process urls session_id st).2 = Return res ->
  exists verdicts,
    length verdicts = length urls
    /\ List.filter key (st_msg (process urls session_id st).1)
       = List.filter key (st_msg st)
         ++ transcript (Z.of_nat (length urls)) 1 urls verdicts
    /\ (res = None <-> List.filter id verdicts = []).
Proof.
  unfold process.
  destruct (download_all session_id (Z.of_nat (length urls)) 1 urls []
              (get_temp_dir session_id st)) as [st1 [dl|]] eqn:Heq;
    [|discriminate].
  destruct (download_all_transcript _ _ _ _ _ _ _ _ Heq)
    as (vs & H1 & H2 & H3).
  change (st_msg (get_temp_dir session_id st)) with (st_msg st) in H2.
  assert (Hclean : forall x, st_msg (cleanup_temp_dir session_id x) = st_msg x).
  { intros x. unfold cleanup_temp_dir. simpl.
    destruct (fs (st_world x) !! session_id); reflexivity. }
  destruct dl as [|p1 [|p2 rest]].
  - cbn [fst snd]. intros [= <-]. exists vs. split; [exact H1|]. split.
    + rewrite Hclean. cbn [st_msg _safe_edit].
      rewrite filter_key_snoc, app_nil_r. exact H2.
    + simpl in H3. destruct (List.filter id vs); [tauto|discriminate].
  - cbn [fst snd]. intros [= <-]. exists vs. split; [exact H1|].
    split; [exact H2|].
    split; [discriminate|]. intros E. rewrite E in H3. discriminate.
  - cbv zeta.
    destruct (create_zip _ _ _) as [fs' [zp|]]; cbn [fst snd];
      [|discriminate].
    intros [= <-]. exists vs. split; [exact H1|]. split.
    + cbn [st_msg with_fs _safe_edit].
      rewrite filter_key_snoc, app_nil_r. exact H2.
    + split; [discriminate|]. intros E. rewrite E in H3. discriminate.
Qed.


End Service.


(** *** A sample server *)

Import LinkRouter.

Definition b3 : bytes := [Byte.x61; Byte.x62; Byte.x63].

(** [a.zip] and [b.zip] are served (3 and 6 bytes), [big.bin] has 9 bytes
    and declares them, [long.bin] has 9 bytes and declares nothing, and
    everything else fails before a response. *)
Definition sample_net (url : str) (k : nat) : reply :=
  if decide (url = str_of "http://x.test/a.zip")
  then Response 200 (Length 3) [b3] Eof
  else if decide (url = str_of "http://x.test/b.zip")
  then Response 200 NoLength [b3; b3] Eof
  else if decide (url = str_of "http://x.test/big.bin")
  then Response 200 (Length 9) [b3; b3; b3] Eof
  else if decide (url = str_of "http://x.test/long.bin")
  then Response 200 NoLength [b3; b3; b3] Eof
  else Refused.

Definition sample_name (url : str) : option str :=
  Some (last_segment url).

(** A file system that takes names of up to 255 characters. *)
Definition sample_stat (p : path) : bool := (length (name p) <=? 255)%nat.

Definition sample_zip_bytes (entries : list (str * bytes)) : bytes :=
  concat (map snd entries).

Definition empty_world : world := World ∅ [] 0.

Definition empty_state : state := State empty_world [] 0 [] [].

Definition sample_sid : str := str_of "ab12cd34".


(** The session directory, empty. *)
Definition session_world : world := World {[sample_sid := ∅]} [] 0.

Definition sample_clock (k : nat) : Q := inject_Z (Z.of_nat k) * 10.

Definition three_urls : list str :=
  [str_of "http://x.test/a.zip"; str_of "http://x.test/nope";
   str_of "http://x.test/b.zip"].

Definition no_callback : option (@callback unit) := None.

Lemma stream_download_never_exceeds_witness :
  0 <= 8
  /\ Forall (within 8 (Path sample_sid (str_of "long.bin")))
       (fst (_stream_download sample_net (str_of "http://x.test/long.bin")
               (Path sample_sid (str_of "long.bin")) no_callback 8
               session_world tt)).
Proof.
  split; [lia|]. apply (stream_download_never_exceeds sample_net). lia.
Defined.


Lemma download_file_size_gate_witness :
  let z := download_file sample_net sample_name sample_stat
             (str_of "http://x.test/long.bin") sample_sid no_callback 8 3
             session_world tt in
  z.2 = Return None /\ fs z.1.1 = fs session_world.
Proof.
  destruct (download_file_size_gate sample_net sample_name sample_stat
              (str_of "http://x.test/long.bin") sample_sid
              (str_of "long.bin") (Path sample_sid (str_of "long.bin"))
              no_callback 8 3 session_world tt)
    as (_ & H1 & H2 & _).
  - vm_compute. reflexivity.
  - vm_compute. reflexivity.
  - lia.
  - intros k. exists 200, NoLength, [b3; b3; b3], Eof.
    split; [reflexivity|]. vm_compute. reflexivity.
  - cbv zeta. split; [exact H1|exact H2].
Defined.


Lemma session_cleanup_witness :
  st_cleanups (_process_urls sample_net sample_name sample_stat
                 sample_clock sample_zip_bytes (fun _ => true) 8 3 3
                 three_urls sample_sid empty_state) = [sample_sid]
  /\ fs (st_world (_process_urls sample_net sample_name sample_stat
                     sample_clock sample_zip_bytes (fun _ => true) 8 3 3
                     three_urls sample_sid empty_state)) !! sample_sid
     = None.
Proof.
  apply (session_cleanup sample_net sample_name sample_stat sample_clock
           sample_zip_bytes (fun _ => true) 8 3 3 three_urls sample_sid
           empty_state);
    discriminate.
Defined.


(** *** A batch with a link that [urlparse] rejects *)

(** A [urlparse] that rejects the URL whose host opens a bracket and never
    closes it ([ValueError: Invalid IPv6 URL]) and takes the others. *)
Definition strict_name (url : str) : option str :=
  if decide (url = str_of "http://[::1") then None
  else Some (last_segment url).

(** A message with two links; the pattern ends the second one before the
    closing bracket. *)
Definition two_links : str :=
  str_of "get http://x.test/a.zip and http://[::1]/b.zip".

(** C5: a batch in which exactly one download succeeds and whose result is
    not that file.  The two URLs are those [extract_urls] finds in the
    message.  The first is downloaded: alone it yields its path, and in the
    batch it gets the verdict [downloaded].  [urlparse] rejects the second;
    the exception leaves [download_file], whose [try] starts after
    [_extract_filename], and [process] cleans up and raises: there is no
    result, and the file that was downloaded is gone with the session
    directory. *)
Theorem process_batch_aborted :
  let urls := extract_urls two_links in
  let run := process sample_net strict_name sample_stat sample_clock
               sample_zip_bytes 8 3 3 urls sample_sid empty_state in
  urls = [str_of "http://x.test/a.zip"; str_of "http://[::1"]
  /\ (download_file sample_net strict_name sample_stat
        (str_of "http://x.test/a.zip") sample_sid no_callback 8 3
        session_world tt).2
     = Return (Some (Path sample_sid (str_of "a.zip")))
  /\ List.filter key (st_msg run.1)
     = [Progress.TDownloading 1 2 "a.zip"%string;
        Progress.TComplete "a.zip"%string;
        Progress.TDownloading 2 2 "[::1"%string]
  /\ run.2 = Raise
  /\ fs (st_world run.1) !! sample_sid = None.
Proof. vm_compute. repeat split. Qed.


(** *** Further runs against the sample server *)

(** The session directory with [a.zip] already in it. *)
Definition busy_world : world :=
  World {[sample_sid := {[str_of "a.zip" := Raw b3]}]} [] 0.

(** A server that answers 404 to everything. *)
Definition gone_net (url : str) (k : nat) : reply :=
  Response 404 NoLength [] Eof.

(** Another session's directory, with a file of its own. *)
Definition neighbour_state : state :=
  State (World {[str_of "ffff0000" := {[str_of "a.zip" := Raw b3]}]} [] 0)
    [] 0 [] [].


Lemma download_file_keeps_files_witness :
  lookup_file
    (fs (download_file sample_net sample_name sample_stat
           (str_of "http://x.test/a.zip") sample_sid no_callback 8 3
           busy_world tt).1.1)
    (Path sample_sid (str_of "a.zip")) = Some (Raw b3).
Proof.
  apply (download_file_keeps_files sample_net sample_name sample_stat).
  vm_compute. reflexivity.
Defined.

Lemma download_file_content_witness :
  exists k h chunks,
    (requests session_world <= k)%nat
    /\ requests (download_file sample_net sample_name sample_stat
                   (str_of "http://x.test/a.zip") sample_sid no_callback 8 3
                   session_world tt).1.1 = S k
    /\ sample_net (str_of "http://x.test/a.zip") k
       = Response 200 h chunks Eof
    /\ lookup_file
         (fs (download_file sample_net sample_name sample_stat
                (str_of "http://x.test/a.zip") sample_sid no_callback 8 3
                session_world tt).1.1)
         (Path sample_sid (str_of "a.zip"))
       = Some (Raw (concat chunks))
    /\ Z.of_nat (length (concat chunks)) <= 8.
Proof.
  apply (download_file_content sample_net sample_name sample_stat);
    [lia|].
  vm_compute. reflexivity.
Defined.

Lemma download_file_dest_safe_witness :
  parent (Path sample_sid (str_of "a_1.zip")) = sample_sid
  /\ name (Path sample_sid (str_of "a_1.zip")) <> []
  /\ forall c, In c (name (Path sample_sid (str_of "a_1.zip"))) ->
               c <> "/"%char /\ c <> "\"%char /\ c <> "000"%char
               /\ ~ In c reserved.
Proof.
  apply (download_file_dest_safe sample_net sample_name sample_stat
           (str_of "http://x.test/a.zip") sample_sid no_callback 8 3
           busy_world tt).
  vm_compute. reflexivity.
Defined.

Lemma download_file_bad_status_witness :
  (forall dest w0 s0,
      _stream_download gone_net (str_of "http://x.test/gone.zip") dest
        no_callback 8 w0 s0
      = ([], (count_request w0, s0, Return None)))
  /\ let z := download_file gone_net sample_name sample_stat
                (str_of "http://x.test/gone.zip") sample_sid no_callback 8 3
                session_world tt in
     z.2 = Return None
     /\ fs z.1.1 = fs session_world
     /\ Z.of_nat (requests z.1.1 - requests session_world) = Z.max 0 3.
Proof.
  apply (download_file_bad_status gone_net sample_name sample_stat
           (str_of "http://x.test/gone.zip") sample_sid (str_of "gone.zip")
           (Path sample_sid (str_of "gone.zip"))).
  - vm_compute. reflexivity.
  - vm_compute. reflexivity.
  - intros k. exists 404, NoLength, [], Eof. split; [reflexivity|lia].
Defined.


Lemma create_zip_skips_missing_witness :
  exists files',
    create_zip sample_zip_bytes
      [Path sample_sid (str_of "a.zip"); Path sample_sid (str_of "none.bin")]
      (zip_path_of sample_sid) (fs busy_world)
    = (files', Return (zip_path_of sample_sid))
    /\ lookup_file files' (zip_path_of sample_sid)
       = Some (Zip [(str_of "a.zip", b3)]).
Proof.
  destruct (create_zip_skips_missing sample_zip_bytes
              [Path sample_sid (str_of "a.zip");
               Path sample_sid (str_of "none.bin")]
              (zip_path_of sample_sid) (fs busy_world)) as [H _].
  - intros Hin. apply elem_of_cons in Hin as [Hin|Hin]; [discriminate|].
    apply elem_of_cons in Hin as [Hin|Hin]; [discriminate|inversion Hin].
  - destruct H as (files' & H1 & H2 & _).
    + exists {[str_of "a.zip" := Raw b3]}. vm_compute. reflexivity.
    + exists files'. split; [exact H1|]. rewrite H2. vm_compute. reflexivity.
Defined.

Lemma process_urls_other_sessions_witness :
  fs (st_world (_process_urls sample_net sample_name sample_stat
                  sample_clock sample_zip_bytes (fun _ => true) 8 3 3
                  three_urls sample_sid neighbour_state)) !! str_of "ffff0000"
  = fs (st_world neighbour_state) !! str_of "ffff0000".
Proof.
  apply process_urls_other_sessions. discriminate.
Defined.


Lemma process_transcript_witness :
  exists verdicts,
    length verdicts = length three_urls
    /\ List.filter key
         (st_msg (process sample_net sample_name sample_stat
                    sample_clock sample_zip_bytes 8 3 3 three_urls
                    sample_sid empty_state).1)
       = List.filter key (st_msg empty_state)
         ++ transcript (Z.of_nat (length three_urls)) 1 three_urls verdicts
    /\ (Some (zip_path_of sample_sid, sample_sid) = None
        <-> List.filter id verdicts = []).
Proof.
  apply (process_transcript sample_net sample_name sample_stat
           sample_clock sample_zip_bytes 8 3 3 three_urls sample_sid
           empty_state).
  vm_compute. reflexivity.
Defined.


Lemma is_video_file_case_witness :
  is_video_file (str_of "Clip.MP4") = true.
Proof.
  destruct (is_video_file_case (str_of "Clip.MP4")) as (_ & _ & H).
  - simpl. intros H. repeat (destruct H as [H|H]; [discriminate H|]).
    exact H.
  - apply (H (str_of "Clip") (str_of ".MP4")).
    + reflexivity.
    + discriminate.
    + simpl. auto.
Defined.


End Pipeline.
